(** * lightning-simple-app: the helper module ([src/helper.js])

    A shallow embedding of the unit-conversion, formatting, polling/retry and
    arc-geometry helpers of the wallet UI, together with the part of the
    JavaScript platform they rest on: IEEE-754 binary64 numbers, the values
    the helpers inspect with [typeof] and property access, string/number
    conversions, and [Intl.NumberFormat]'s fixed-point rendering. *)

From stdpp Require Import gmap strings.
From Stdlib Require Import ZArith List Ascii String Bool Lia.

Local Open Scope Z_scope.

(** ** JavaScript numbers

    A Number is an IEEE-754 binary64 value.  Every finite double is an
    integer multiple of [2^-1074], so a finite value is kept as its sign
    and the integer [k] with magnitude [k / 2^1074]; the representation is
    canonical, hence Leibniz equality on finite non-zero values is numeric
    equality.  Arithmetic is the standard's: the exact result, rounded to
    the nearest representable value, ties to even. *)

Module JSNumber.

(** The scale, [2^1074]: one unit of [k] is [2^-1074]. *)
Definition W : Z := Z.shiftl 1 1074.

(** The first magnitude that overflows: [2^1024], in units of [2^-1074]. *)
Definition OVERFLOW : Z := Z.shiftl 1 2098.

(** [n * W]: the integer [n] in units of [2^-1074]. *)
Definition scaled (n : Z) : Z := Z.shiftl n 1074.

(** [floor (k / W)]: the integer part of the magnitude [k / W]. *)
Definition whole (k : Z) : Z := Z.shiftr k 1074.

Inductive number : Type :=
| NaN
| Inf (neg : bool)
| Fin (neg : bool) (k : Z).

(** Nearest integer to [a / b], ties to the even one ([0 <= a], [0 < b]). *)
Definition rne (a b : Z) : Z :=
  let '(q, r) := Z.div_eucl a b in
  match 2 * r ?= b with
  | Lt => q
  | Gt => q + 1
  | Eq => if Z.even q then q else q + 1
  end.

(** The exponent of the last place of the double nearest to [a / b]
    ([0 < a], [0 < b]), counted from the subnormal spacing [2^-1074]: the
    value keeps 53 significant bits, so it is [floor (log2 (a / b)) - 52],
    and never below [-1074].  Shifted by 1074 that is the binary logarithm
    of the integer part of [a / b * 2^1022], or 0 when it has none. *)
Definition ulp_shift (a b : Z) : Z := Z.log2 (Z.shiftl a 1022 / b).

(** How many times 2 divides a number. *)
Fixpoint trailing_zeros (p : positive) : Z :=
  match p with
  | xO q => Z.succ (trailing_zeros q)
  | _ => 0
  end.

Definition tz (a : Z) : Z :=
  match a with
  | Z0 => 0
  | Zpos p | Zneg p => trailing_zeros p
  end.

(** Round the exact magnitude [a / b] ([0 <= a], [0 < b]) to a double of
    sign [neg]: the nearest multiple [m * 2^t / W] of the last place, or
    an infinity when that reaches [2^1024].  The fraction is first reduced
    by the power of two that [a] and [b] share, and the significand [m] is
    the rounded quotient [a * W / (b * 2^t)] with the powers of two of [W]
    and [2^t] cancelled. *)
Definition round_ratio (neg : bool) (a b : Z) : number :=
  if a =? 0 then Fin neg 0
  else
    let j := Z.min (tz a) (tz b) in
    let a' := Z.shiftr a j in
    let b' := Z.shiftr b j in
    let t := ulp_shift a' b' in
    let m := if t <=? 1074 then rne (Z.shiftl a' (1074 - t)) b'
             else rne a' (Z.shiftl b' (t - 1074)) in
    let k := Z.shiftl m t in
    if OVERFLOW <=? k then Inf neg else Fin neg k.

(** The Number of a mathematical integer (an integer literal, [ToNumber] of digits). *)
Definition of_Z (n : Z) : number := round_ratio (n <? 0) (Z.abs n) 1.

(** The Number of the non-negative decimal literal [a / b]. *)
Definition of_ratio (a b : Z) : number := round_ratio false a b.

Definition opp (x : number) : number :=
  match x with
  | NaN => NaN
  | Inf s => Inf (negb s)
  | Fin s k => Fin (negb s) k
  end.

(** [Math.abs]. *)
Definition abs (x : number) : number :=
  match x with
  | NaN => NaN
  | Inf _ => Inf false
  | Fin _ k => Fin false k
  end.

(** The signed numerator of a finite value. *)
Definition signed (s : bool) (k : Z) : Z := if s then - k else k.

(** [x + y]. *)
Definition add (x y : number) : number :=
  match x, y with
  | NaN, _ | _, NaN => NaN
  | Inf s, Inf t => if Bool.eqb s t then Inf s else NaN
  | Inf s, Fin _ _ | Fin _ _, Inf s => Inf s
  | Fin s a, Fin t b =>
      let v := signed s a + signed t b in
      if v =? 0 then Fin (s && t) 0 else round_ratio (v <? 0) (Z.abs v) W
  end.

(** [x - y]. *)
Definition sub (x y : number) : number := add x (opp y).

(** [x * y]. *)
Definition mul (x y : number) : number :=
  match x, y with
  | NaN, _ | _, NaN => NaN
  | Inf s, Inf t => Inf (xorb s t)
  | Inf s, Fin t k | Fin t k, Inf s => if k =? 0 then NaN else Inf (xorb s t)
  | Fin s a, Fin t b => round_ratio (xorb s t) (a * b) (W * W)
  end.

(** [x / y]. *)
Definition div (x y : number) : number :=
  match x, y with
  | NaN, _ | _, NaN => NaN
  | Inf _, Inf _ => NaN
  | Inf s, Fin t _ => Inf (xorb s t)
  | Fin s _, Inf t => Fin (xorb s t) 0
  | Fin s a, Fin t b =>
      if b =? 0 then (if a =? 0 then NaN else Inf (xorb s t))
      else round_ratio (xorb s t) a b
  end.

(** [x % y]: the remainder of the truncated quotient, with the dividend's
    sign; it is always exact. *)
Definition rem (x y : number) : number :=
  match x, y with
  | NaN, _ | _, NaN => NaN
  | Inf _, _ => NaN
  | Fin s a, Inf _ => Fin s a
  | Fin s a, Fin _ b =>
      if b =? 0 then NaN
      else
        let j := Z.min (tz a) (tz b) in
        Fin s (Z.shiftl (Z.shiftr a j mod Z.shiftr b j) j)
  end.

(** [Math.floor]. *)
Definition floor (x : number) : number :=
  match x with
  | NaN => NaN
  | Inf s => Inf s
  | Fin false k => Fin false (scaled (whole k))
  | Fin true k => Fin true (scaled (whole (k + W - 1)))
  end.

(** [Math.round]: the nearest integer, a tie going towards +Infinity;
    values in [[-0.5, -0]] give [-0]. *)
Definition round (x : number) : number :=
  match x with
  | NaN => NaN
  | Inf s => Inf s
  | Fin false k => Fin false (scaled (Z.shiftr (2 * k + W) 1075))
  | Fin true k => Fin true (if 2 * k <=? W then 0 else scaled (Z.shiftr (2 * k + W - 1) 1075))
  end.

(** Numeric comparison; [None] when an operand is NaN. *)
Definition compare (x y : number) : option comparison :=
  match x, y with
  | NaN, _ | _, NaN => None
  | Inf s, Inf t => Some (if s then (if t then Eq else Lt) else (if t then Gt else Eq))
  | Inf s, Fin _ _ => Some (if s then Lt else Gt)
  | Fin _ _, Inf t => Some (if t then Gt else Lt)
  | Fin s a, Fin t b => Some (signed s a ?= signed t b)
  end.

(** [x < y]. *)
Definition ltb (x y : number) : bool :=
  match compare x y with Some Lt => true | _ => false end.

(** [x > y]. *)
Definition gtb (x y : number) : bool := ltb y x.

(** [x <= y]. *)
Definition leb (x y : number) : bool :=
  match compare x y with Some Lt | Some Eq => true | _ => false end.

(** [x === y] on Numbers. *)
Definition eqb (x y : number) : bool :=
  match compare x y with Some Eq => true | _ => false end.

(** [isNaN] on a Number. *)
Definition isNaN (x : number) : bool :=
  match x with NaN => true | _ => false end.

(** [Number.isFinite]. *)
Definition isFinite (x : number) : bool :=
  match x with Fin _ _ => true | _ => false end.

(** The test of [Number.isInteger] on a Number: finite with no fraction. *)
Definition isIntegral (x : number) : bool :=
  match x with Fin _ k => scaled (whole k) =? k | _ => false end.

(** [Math.PI], the double nearest to pi. *)
Definition PI : number := Fin false (Z.shiftl 7074237752028440 1023).

End JSNumber.

(** ** Text: decimal digits, the helpers' regular expressions, and the
    conversions between Strings and Numbers

    A String is a sequence of code units; the helpers only inspect ASCII
    ones, so code units are 8-bit characters here. *)

Module Text.
Import JSNumber.

Definition code (c : ascii) : Z := Z.of_nat (nat_of_ascii c).

Definition is_digit (c : ascii) : bool := (48 <=? code c) && (code c <=? 57).

Definition digit_value (c : ascii) : Z := code c - 48.

Definition digit_char (d : Z) : ascii := ascii_of_nat (Z.to_nat (48 + d)).

(** The value of a string of decimal digits, most significant first. *)
Fixpoint digits_value_from (acc : Z) (s : string) : Z :=
  match s with
  | EmptyString => acc
  | String c r => digits_value_from (10 * acc + digit_value c) r
  end.

Definition digits_value (s : string) : Z := digits_value_from 0 s.

(** The last [w] decimal digits of [n], most significant first. *)
Fixpoint fixed_digits (w : nat) (n : Z) : string :=
  match w with
  | O => EmptyString
  | S w' => fixed_digits w' (n / 10) +:+ String (digit_char (n mod 10)) EmptyString
  end.

Fixpoint count_digits (fuel : nat) (n : Z) : nat :=
  match fuel with
  | O => 1
  | S f => if n <? 10 then 1%nat else S (count_digits f (n / 10))
  end.

(** How many decimal digits [n >= 0] has (one for [0]). *)
Definition num_digits (n : Z) : nat := count_digits (Z.to_nat (Z.log2 n)) n.

(** The decimal representation of [n >= 0], without leading zeros. *)
Definition decimal (n : Z) : string := fixed_digits (num_digits n) n.

Fixpoint zeros (n : nat) : string :=
  match n with
  | O => EmptyString
  | S m => String "0" (zeros m)
  end.

Definition is_empty (s : string) : bool :=
  match s with EmptyString => true | _ => false end.

(** Every character of [s] passes the test [p]. *)
Fixpoint all_chars (p : ascii -> bool) (s : string) : bool :=
  match s with
  | EmptyString => true
  | String c r => p c && all_chars p r
  end.

(** A digit or the decimal point. *)
Definition plain (c : ascii) : bool := is_digit c || Ascii.eqb c ".".

(** The rest of [s] after its longest prefix of digits: [[0-9]*]. *)
Fixpoint skip_digits (s : string) : string :=
  match s with
  | EmptyString => EmptyString
  | String c r => if is_digit c then skip_digits r else s
  end.

(** The longest prefix of digits of [s]. *)
Fixpoint take_digits (s : string) : string :=
  match s with
  | EmptyString => EmptyString
  | String c r => if is_digit c then String c (take_digits r) else EmptyString
  end.

(** [/^[0-9]*[.]?[0-9]*$/.test(s)].  The classes are disjoint, so the
    greedy left-to-right match decides the expression. *)
Definition decimal_pattern (s : string) : bool :=
  let r := skip_digits s in
  let r' := match r with
            | String c t => if Ascii.eqb c "." then t else r
            | EmptyString => r
            end in
  is_empty (skip_digits r').

(** The expression [0[,.]0{2}] matched at the start of [s]. *)
Definition zero_fraction_here (s : string) : bool :=
  match s with
  | String c0 (String c1 (String c2 (String c3 _))) =>
      Ascii.eqb c0 "0" && (Ascii.eqb c1 "," || Ascii.eqb c1 ".") &&
      Ascii.eqb c2 "0" && Ascii.eqb c3 "0"
  | _ => false
  end.

(** [/0[,.]0{2}/.test(s)]: the expression matches somewhere in [s]. *)
Fixpoint zero_fraction_pattern (s : string) : bool :=
  zero_fraction_here s ||
  match s with
  | EmptyString => false
  | String _ r => zero_fraction_pattern r
  end.

(** White space and line terminators among the 8-bit code units. *)
Definition is_space (c : ascii) : bool :=
  ((9 <=? code c) && (code c <=? 13)) || (code c =? 32) || (code c =? 160).

Fixpoint trim_left (s : string) : string :=
  match s with
  | EmptyString => EmptyString
  | String c r => if is_space c then trim_left r else s
  end.

Fixpoint trim_right (s : string) : string :=
  match s with
  | EmptyString => EmptyString
  | String c r =>
      let r' := trim_right r in
      if is_space c && is_empty r' then EmptyString else String c r'
  end.

Definition trim (s : string) : string := trim_right (trim_left s).

(** The value of a digit in a radix up to 16, if it is one. *)
Definition radix_digit (radix : Z) (c : ascii) : option Z :=
  let n := code c in
  let d := if (48 <=? n) && (n <=? 57) then n - 48
           else if (97 <=? n) && (n <=? 102) then n - 87
           else if (65 <=? n) && (n <=? 70) then n - 55
           else 16 in
  if d <? radix then Some d else None.

Fixpoint radix_value_from (radix acc : Z) (s : string) : option Z :=
  match s with
  | EmptyString => Some acc
  | String c r =>
      match radix_digit radix c with
      | Some d => radix_value_from radix (radix * acc + d) r
      | None => None
      end
  end.

(** A non-decimal integer literal's digits: at least one, all in the radix. *)
Definition radix_literal (radix : Z) (s : string) : number :=
  match s with
  | EmptyString => NaN
  | _ => match radix_value_from radix 0 s with
         | Some n => of_Z n
         | None => NaN
         end
  end.

(** An optional sign: whether it is a minus, and what follows it. *)
Definition take_sign (s : string) : bool * string :=
  match s with
  | String c r => if Ascii.eqb c "+" then (false, r)
                  else if Ascii.eqb c "-" then (true, r)
                  else (false, s)
  | EmptyString => (false, s)
  end.

(** The exponent part after [e]/[E]: an optional sign and at least one digit. *)
Definition parse_exponent (s : string) : option Z :=
  let '(neg, r) := take_sign s in
  if is_empty r || negb (is_empty (skip_digits r)) then None
  else Some (signed neg (digits_value r)).

(** An unsigned decimal literal as [(m, e)], standing for [m * 10^e]:
    digits, an optional point and more digits (one of the two digit runs
    non-empty), an optional exponent; nothing may follow. *)
Definition parse_decimal (s : string) : option (Z * Z) :=
  let ip := take_digits s in
  let r1 := skip_digits s in
  let '(fp, r2) := match r1 with
                   | String c t => if Ascii.eqb c "." then (take_digits t, skip_digits t)
                                   else (EmptyString, r1)
                   | EmptyString => (EmptyString, r1)
                   end in
  if is_empty ip && is_empty fp then None
  else
    let m := digits_value (ip +:+ fp) in
    let e := - Z.of_nat (String.length fp) in
    match r2 with
    | EmptyString => Some (m, e)
    | String c t =>
        if Ascii.eqb c "e" || Ascii.eqb c "E" then
          match parse_exponent t with
          | Some x => Some (m, x + e)
          | None => None
          end
        else None
    end.

(** The Number nearest to [m * 10^e], with sign [neg]. *)
Definition of_decimal (neg : bool) (m e : Z) : number :=
  round_ratio neg (m * 10 ^ Z.max e 0) (10 ^ Z.max (- e) 0).

(** A signed decimal literal or [Infinity]. *)
Definition signed_literal (t : string) : number :=
  let '(neg, r) := take_sign t in
  if String.eqb r "Infinity" then Inf neg
  else match parse_decimal r with
       | Some (m, e) => of_decimal neg m e
       | None => NaN
       end.

(** [StringToNumber]: the Number a String converts to ([Number(s)]). *)
Definition StringToNumber (s : string) : number :=
  let t := trim s in
  match t with
  | EmptyString => Fin false 0
  | String c EmptyString => signed_literal t
  | String c (String x r) =>
      if Ascii.eqb c "0" && (Ascii.eqb x "x" || Ascii.eqb x "X") then radix_literal 16 r
      else if Ascii.eqb c "0" && (Ascii.eqb x "o" || Ascii.eqb x "O") then radix_literal 8 r
      else if Ascii.eqb c "0" && (Ascii.eqb x "b" || Ascii.eqb x "B") then radix_literal 2 r
      else signed_literal t
  end.

(** *** Number::toString (radix 10)

    The digits are the shortest decimal [s * 10^p] that converts back to
    the Number; among several of that length, the one nearest to it. *)

Fixpoint leading_shift (fuel : nat) (k j : Z) : Z :=
  match fuel with
  | O => j
  | S f => if W <=? k * 10 then j else leading_shift f (k * 10) (j + 1)
  end.

(** The [n] with [10^(n-1) <= k / W < 10^n], for [0 < k]. *)
Definition decimal_exponent (k : Z) : Z :=
  if W <=? k then Z.of_nat (num_digits (whole k))
  else 1 - leading_shift 400 k 1.

Definition converts_back (k s p : Z) : bool :=
  match of_decimal false s p with
  | Fin _ k' => k' =? k
  | _ => false
  end.

(** The [kd]-digit candidates around [k / W]: the one below and the one above. *)
Definition digits_at (k n0 kd : Z) : option (Z * Z) :=
  let p := n0 - kd in
  let lo := if 0 <=? p then whole k / 10 ^ p else whole (k * 10 ^ (- p)) in
  let hi := lo + 1 in
  let '(dl, dh) := if 0 <=? p then (k - lo * 10 ^ p * W, hi * 10 ^ p * W - k)
                   else (k * 10 ^ (- p) - lo * W, hi * W - k * 10 ^ (- p)) in
  match converts_back k lo p, converts_back k hi p with
  | true, true =>
      Some (match dl ?= dh with
            | Lt => lo
            | Gt => hi
            | Eq => if Z.even lo then lo else hi
            end, p)
  | true, false => Some (lo, p)
  | false, true => Some (hi, p)
  | false, false => None
  end.

(** The search for the shortest digits, from [kd] digits on.  Seventeen
    digits always tell a double from its neighbours, so a candidate is
    found at that length at the latest; the last case (the decimal below
    the value, with the digits the search has run out at) is not
    reached. *)
Fixpoint shortest_from (fuel : nat) (k n0 kd : Z) : Z * Z :=
  match fuel with
  | O => (if 0 <=? n0 - kd then whole k / 10 ^ (n0 - kd) else whole (k * 10 ^ (kd - n0)),
          n0 - kd)
  | S f => match digits_at k n0 kd with
           | Some r => r
           | None => shortest_from f k n0 (kd + 1)
           end
  end.

Fixpoint strip_tens (fuel : nat) (s p : Z) : Z * Z :=
  match fuel with
  | O => (s, p)
  | S f => if (s mod 10 =? 0) && (0 <? s) then strip_tens f (s / 10) (p + 1) else (s, p)
  end.

(** The shortest decimal [s * 10^p] that converts back to the magnitude
    [k / W], [0 < k]; [s] does not end in a zero. *)
Definition shortest_decimal (k : Z) : Z * Z :=
  let '(s, p) := shortest_from 17 k (decimal_exponent k) 1 in
  strip_tens 17 s p.

(** The digits and the decimal exponent of the magnitude [k / W], [0 < k]. *)
Definition shortest_digits (k : Z) : string * Z :=
  let '(s, p) := shortest_decimal k in
  let d := decimal s in
  (d, p + Z.of_nat (String.length d)).

Definition magnitude_to_string (k : Z) : string :=
  let '(d, n) := shortest_digits k in
  let kd := Z.of_nat (String.length d) in
  if (kd <=? n) && (n <=? 21) then d +:+ zeros (Z.to_nat (n - kd))
  else if (0 <? n) && (n <=? 21) then
    substring 0 (Z.to_nat n) d +:+ "." +:+ substring (Z.to_nat n) (Z.to_nat (kd - n)) d
  else if (-6 <? n) && (n <=? 0) then "0." +:+ zeros (Z.to_nat (- n)) +:+ d
  else
    let e := n - 1 in
    let es := (if e <? 0 then "-" else "+") +:+ decimal (Z.abs e) in
    if kd =? 1 then d +:+ "e" +:+ es
    else substring 0 1 d +:+ "." +:+ substring 1 (Z.to_nat (kd - 1)) d +:+ "e" +:+ es.

(** [String(x)], [`${x}`] for a Number. *)
Definition NumberToString (x : number) : string :=
  match x with
  | NaN => "NaN"
  | Inf false => "Infinity"
  | Inf true => "-Infinity"
  | Fin s k => if k =? 0 then "0"
               else (if s then "-" else "") +:+ magnitude_to_string k
  end.

End Text.

(** ** JavaScript values, exceptions and property access *)

Module JSValue.
Import JSNumber Text.

(** The values the helpers receive: primitives and plain objects.  An
    object is the finite map of its own properties; its prototype is
    [Object.prototype], whose conversion methods it keeps.  The functions
    a property read finds on a prototype are values too: a built-in
    function is known by its name. *)
#[warnings="-register-all"]
Inductive value : Type :=
| Undefined
| Null
| Bool (b : bool)
| Num (x : number)
| Str (s : string)
| Obj (fields : gmap string value)
| Builtin (name : string).

(** What a [throw] carries: an [Error] with its message, or one of the
    platform's own exceptions. *)
Inductive error : Type :=
| Error (message : string)
| TypeError
| RangeError.

(** A computation that returns or throws. *)
Inductive result (A : Type) : Type :=
| Ok (a : A)
| Throw (e : error).

Arguments Ok {A} a.
Arguments Throw {A} e.

(** Sequencing: an exception ends the computation. *)
#[global] Instance result_ret : MRet result := fun A a => Ok a.

#[global] Instance result_bind : MBind result :=
  fun A B k r =>
    match r with
    | Ok a => k a
    | Throw e => Throw e
    end.

(** [typeof v]. *)
Definition typeof (v : value) : string :=
  match v with
  | Undefined => "undefined"
  | Null => "object"
  | Bool _ => "boolean"
  | Num _ => "number"
  | Str _ => "string"
  | Obj _ => "object"
  | Builtin _ => "function"
  end.

(** [ToBoolean]: what [!v], [v || w] and [while (v)] test. *)
Definition truthy (v : value) : bool :=
  match v with
  | Undefined | Null => false
  | Bool b => b
  | Num NaN => false
  | Num (Inf _) => true
  | Num (Fin _ k) => negb (k =? 0)
  | Str s => negb (is_empty s)
  | Obj _ | Builtin _ => true
  end.

(** [Number(v)], and the coercion of an arithmetic operand. *)
Definition ToNumber (v : value) : number :=
  match v with
  | Undefined => NaN
  | Null => Fin false 0
  | Bool b => if b then of_Z 1 else Fin false 0
  | Num x => x
  | Str s => StringToNumber s
  | Obj _ | Builtin _ => NaN
  end.

(** [String(v)], also the property key a value indexes with. *)
Definition ToString (v : value) : string :=
  match v with
  | Undefined => "undefined"
  | Null => "null"
  | Bool b => if b then "true" else "false"
  | Num x => NumberToString x
  | Str s => s
  | Obj _ => "[object Object]"
  | Builtin name => "function " +:+ name +:+ "() { [native code] }"
  end.

(** The methods of [Object.prototype], which every object and every
    primitive but [undefined] and [null] inherits. *)
Definition Object_prototype_methods : list string :=
  [ "__defineGetter__"; "__defineSetter__"; "hasOwnProperty"; "__lookupGetter__";
    "__lookupSetter__"; "isPrototypeOf"; "propertyIsEnumerable"; "toString";
    "valueOf"; "toLocaleString" ].

(** The methods the prototype of a primitive or of a function has of its
    own, by the name of the constructor (ECMAScript 2017, the edition of
    the source, with its Annex B; later editions add to them). *)
Definition own_prototype_methods (constructor : string) : list string :=
  if String.eqb constructor "String" then
    [ "anchor"; "big"; "blink"; "bold"; "charAt"; "charCodeAt"; "codePointAt"; "concat";
      "endsWith"; "fixed"; "fontcolor"; "fontsize"; "includes"; "indexOf"; "italics";
      "lastIndexOf"; "link"; "localeCompare"; "match"; "normalize"; "padEnd"; "padStart";
      "repeat"; "replace"; "search"; "slice"; "small"; "split"; "startsWith"; "strike";
      "sub"; "substr"; "substring"; "sup"; "toLocaleLowerCase"; "toLocaleUpperCase";
      "toLowerCase"; "toString"; "toUpperCase"; "trim"; "trimLeft"; "trimRight";
      "valueOf" ]
  else if String.eqb constructor "Number" then
    [ "toExponential"; "toFixed"; "toLocaleString"; "toPrecision"; "toString"; "valueOf" ]
  else if String.eqb constructor "Boolean" then [ "toString"; "valueOf" ]
  else if String.eqb constructor "Function" then [ "apply"; "bind"; "call"; "toString" ]
  else Object_prototype_methods.

(** A prototype as an object: its methods and [constructor];
    [Object.prototype] ends the chain. *)
Definition prototype (constructor : string) : value :=
  Obj (list_to_map
         (("constructor", Builtin constructor) ::
          (if String.eqb constructor "Object" then [("__proto__", Null)] else []) ++
          map (fun name => (name, Builtin name)) (own_prototype_methods constructor))).

(** What a property read finds on the prototype chain of a value made by
    [constructor] when the value has no such property of its own: the
    constructor, the prototype for [__proto__], a method of the value's
    prototype or of [Object.prototype], and [undefined] for any other
    key. *)
Definition inherited (constructor key : string) : value :=
  if String.eqb key "constructor" then Builtin constructor
  else if String.eqb key "__proto__" then prototype constructor
  else if existsb (String.eqb key)
            (own_prototype_methods constructor ++ Object_prototype_methods)
       then Builtin key
  else Undefined.

(** The property [key] of a plain object: its own, or else the one it
    inherits. *)
Definition property (fields : gmap string value) (key : string) : value :=
  match fields !! key with
  | Some own => own
  | None => inherited "Object" key
  end.

(** The character of [s] at position [i], as a String. *)
Fixpoint char_at (s : string) (i : nat) : option string :=
  match s, i with
  | EmptyString, _ => None
  | String c _, O => Some (String c EmptyString)
  | String _ r, S j => char_at r j
  end.

(** [v.key]: a TypeError on [undefined] and [null]; otherwise the
    value's own property of that name, or else the inherited one.  A
    String has its [length] and its characters, a function its [name]
    (the [length] of a function, and its [caller] and [arguments], which
    no helper reads, are not modelled). *)
Definition get (v : value) (key : string) : result value :=
  match v with
  | Undefined | Null => Throw TypeError
  | Obj fields => Ok (property fields key)
  | Str s =>
      Ok (if String.eqb key "length" then Num (of_Z (Z.of_nat (String.length s)))
          else if all_chars is_digit key && negb (is_empty key) &&
                  String.eqb (decimal (digits_value key)) key
               then match char_at s (Z.to_nat (digits_value key)) with
                    | Some c => Str c
                    | None => inherited "String" key
                    end
               else inherited "String" key)
  | Num _ => Ok (inherited "Number" key)
  | Bool _ => Ok (inherited "Boolean" key)
  | Builtin name =>
      Ok (if String.eqb key "name" then Str name else inherited "Function" key)
  end.

(** [v[k]]. *)
Definition index (v k : value) : result value := get v (ToString k).

(** [a || b]. *)
Definition or_else (a b : value) : value := if truthy a then a else b.

(** [Number.isInteger(v)]: no coercion, only an integral Number passes. *)
Definition isInteger (v : value) : bool :=
  match v with
  | Num x => isIntegral x
  | _ => false
  end.

(** An object literal. *)
Definition object (fields : list (string * value)) : value :=
  Obj (list_to_map fields).

End JSValue.

(** ** [Intl.NumberFormat]

    The constructor resolves the fraction-digit options as ECMA-402's
    SetNumberFormatDigitOptions does; [format] renders the sign, the
    integer digits and the fraction digits of the Number's shortest
    decimal rounded to the maximum number of fraction digits (a tie going
    away from zero), with trailing zeros dropped down to the minimum.  The 'en-US' decimal
    rendering is fixed; the rendering in the host's default locale and of
    currencies is locale data, a parameter of the development. *)

Module Intl.
Import JSNumber Text JSValue.

Inductive locale : Type :=
| HostDefault
| EnUS.

Inductive style : Type :=
| Decimal
| Currency.

(** The options bag; a field left out is [Undefined] (or the style's and
    grouping's defaults). *)
Record options : Type := mkOptions {
  opt_style : style;
  opt_currency : value;
  opt_useGrouping : bool;
  opt_minimumFractionDigits : value;
  opt_maximumFractionDigits : value
}.

(** A constructed formatter: its resolved options. *)
Record NumberFormat : Type := mkNumberFormat {
  nf_locale : locale;
  nf_style : style;
  nf_currency : string;
  nf_useGrouping : bool;
  nf_minimumFractionDigits : Z;
  nf_maximumFractionDigits : Z
}.

(** What the platform supplies besides the language: locale data, the
    ISO 4217 minor-unit table, and the approximations of [Math]. *)
Record Host : Type := mkHost {
  host_format : NumberFormat -> number -> string;
  currency_digits : string -> Z;
  Math_cos : number -> number;
  Math_sin : number -> number
}.

Definition is_letter (c : ascii) : bool :=
  ((65 <=? code c) && (code c <=? 90)) || ((97 <=? code c) && (code c <=? 122)).

Definition upper (c : ascii) : ascii :=
  if (97 <=? code c) && (code c <=? 122) then ascii_of_nat (nat_of_ascii c - 32) else c.

Fixpoint uppercase (s : string) : string :=
  match s with
  | EmptyString => EmptyString
  | String c r => String (upper c) (uppercase r)
  end.

(** IsWellFormedCurrencyCode: three ASCII letters. *)
Definition well_formed_currency (s : string) : bool :=
  match s with
  | String a (String b (String c EmptyString)) => is_letter a && is_letter b && is_letter c
  | _ => false
  end.

(** DefaultNumberOption for a fraction-digit count in [0, 100]. *)
Definition digit_option (v : value) : result (option Z) :=
  match v with
  | Undefined => Ok None
  | _ => match ToNumber v with
         | Fin false k =>
             if k <=? 100 * W then Ok (Some (whole k)) else Throw RangeError
         | Fin true k => if k =? 0 then Ok (Some 0) else Throw RangeError
         | _ => Throw RangeError
         end
  end.

(** [new Intl.NumberFormat(locale, options)]. *)
Definition construct (host : Host) (l : locale) (o : options) : result NumberFormat :=
  cur ← match opt_style o with
         | Decimal => Ok EmptyString
         | Currency =>
             match opt_currency o with
             | Undefined => Throw TypeError
             | c => if well_formed_currency (ToString c)
                    then Ok (uppercase (ToString c)) else Throw RangeError
             end
         end;
  let '(mnfd_default, mxfd_default) :=
    match opt_style o with
    | Decimal => (0, 3)
    | Currency => (currency_digits host cur, currency_digits host cur)
    end in
  mnfd ← digit_option (opt_minimumFractionDigits o);
  mxfd ← digit_option (opt_maximumFractionDigits o);
  digits ← match mnfd, mxfd with
            | None, None => Ok (mnfd_default, mxfd_default)
            | None, Some mx => Ok (Z.min mnfd_default mx, mx)
            | Some mn, None => Ok (mn, Z.max mxfd_default mn)
            | Some mn, Some mx => if mx <? mn then Throw RangeError else Ok (mn, mx)
            end;
  Ok (mkNumberFormat l (opt_style o) cur (opt_useGrouping o) (fst digits) (snd digits)).

(** Drop up to [cut] trailing zeros of the [f]-digit fraction of [n / 10^f]. *)
Fixpoint trim_fraction (cut : nat) (n f : Z) : Z * Z :=
  match cut with
  | O => (n, f)
  | S c => if n mod 10 =? 0 then trim_fraction c (n / 10) (f - 1) else (n, f)
  end.

(** The magnitude [k / W] in fixed-point notation with between [mn] and
    [mx] fraction digits, as [(n, f)] for [n / 10^f].  The formatter
    starts from the shortest decimal of the Number (the digits
    [NumberToString] shows) and rounds that to [mx] fraction digits, a
    tie going away from zero: [1.005] with two digits is [1.01], although
    the double lies below [1.005]. *)
Definition raw_fixed (k mn mx : Z) : Z * Z :=
  let '(s, p) := if k =? 0 then (0, 0) else shortest_decimal k in
  let e := p + mx in
  let n := if 0 <=? e then s * 10 ^ e
           else (2 * s + 10 ^ (- e)) / (2 * 10 ^ (- e)) in
  trim_fraction (Z.to_nat (mx - mn)) n mx.

(** The digits of [n / 10^f]: the integer part, a point and [f] fraction
    digits when there are any. *)
Definition fixed_point (n f : Z) : string :=
  let int := decimal (n / 10 ^ f) in
  if f <=? 0 then int
  else int +:+ "." +:+ fixed_digits (Z.to_nat f) (n mod 10 ^ f).

(** Groups of three integer digits, separated by commas. *)
Fixpoint group3 (fuel : nat) (n : Z) : string :=
  match fuel with
  | O => decimal n
  | S f => if n <? 1000 then decimal n
           else group3 f (n / 1000) +:+ "," +:+ fixed_digits 3 (n mod 1000)
  end.

Definition fixed_point_grouped (n f : Z) : string :=
  let int := n / 10 ^ f in
  let ints := group3 (Z.to_nat (Z.log2 int)) int in
  if f <=? 0 then ints
  else ints +:+ "." +:+ fixed_digits (Z.to_nat f) (n mod 10 ^ f).

(** The infinity sign, U+221E, in UTF-8. *)
Definition infinity_sign : string :=
  String (ascii_of_nat 226) (String (ascii_of_nat 136) (String (ascii_of_nat 158) EmptyString)).

(** The 'en-US' rendering of a Number in decimal style. *)
Definition en_US_decimal (nf : NumberFormat) (x : number) : string :=
  match x with
  | NaN => "NaN"
  | Inf s => (if s then "-" else "") +:+ infinity_sign
  | Fin s k =>
      let '(n, f) := raw_fixed k (nf_minimumFractionDigits nf) (nf_maximumFractionDigits nf) in
      (if s then "-" else "") +:+
      (if nf_useGrouping nf then fixed_point_grouped n f else fixed_point n f)
  end.

(** The formatter [toAmount] constructs in unit mode: 'en-US', no
    grouping, 0 to 8 fraction digits. *)
Definition unit_format : NumberFormat := mkNumberFormat EnUS Decimal EmptyString false 0 8.

(** [nf.format(x)]. *)
Definition format (host : Host) (nf : NumberFormat) (x : number) : string :=
  match nf_locale nf, nf_style nf with
  | EnUS, Decimal => en_US_decimal nf x
  | _, _ => host_format host nf x
  end.

(** *** A sample host

    Its default locale is 'en-US', it renders every currency the way
    'en-US' renders US dollars, and its [Math.cos] and [Math.sin] sum the
    Taylor series in fixed point with 160 fraction bits, which is accurate
    to about [2^-150] for arguments up to 8 in magnitude (the angles of
    the spinner's arcs).  It instantiates the platform in examples. *)

(** [1 - x2/(c(c+1)) (1 - x2/((c+2)(c+3)) (...))] with [terms] factors,
    in units of [2^-160]; [x2] is the square of the argument in the same
    units.  With [c = 1] it is [cos x], with [c = 2] it is [sin x / x]. *)
Fixpoint alternating_series (terms : nat) (x2 c : Z) : Z :=
  match terms with
  | O => Z.shiftl 1 160
  | S n =>
      Z.shiftl 1 160 - Z.shiftr (x2 * alternating_series n x2 (c + 2)) 160 / (c * (c + 1))
  end.

(** The magnitude [k / W] in units of [2^-160]. *)
Definition to_fixed (k : Z) : Z := Z.shiftr (Z.shiftl k 160) 1074.

Definition of_fixed (neg : bool) (v : Z) : number :=
  round_ratio (xorb neg (v <? 0)) (Z.abs v) (Z.shiftl 1 160).

Definition series_cos (x : number) : number :=
  match x with
  | Fin _ k =>
      let xf := to_fixed k in
      of_fixed false (alternating_series 40 (Z.shiftr (xf * xf) 160) 1)
  | _ => NaN
  end.

Definition series_sin (x : number) : number :=
  match x with
  | Fin s k =>
      let xf := to_fixed k in
      if xf <? Z.shiftl 1 100 then x
      else of_fixed s (Z.shiftr (xf * alternating_series 40 (Z.shiftr (xf * xf) 160) 2) 160)
  | _ => NaN
  end.

Definition dollar_format (nf : NumberFormat) (x : number) : string :=
  match nf_style nf with
  | Decimal => en_US_decimal nf x
  | Currency =>
      match x with
      | NaN => "NaN"
      | Inf s => (if s then "-$" else "$") +:+ infinity_sign
      | Fin s k =>
          let '(n, f) := raw_fixed k (nf_minimumFractionDigits nf)
                           (nf_maximumFractionDigits nf) in
          (if s then "-$" else "$") +:+ fixed_point_grouped n f
      end
  end.

Definition dollar_host : Host :=
  mkHost dollar_format (fun _ => 2) series_cos series_sin.

(** *** A sample host with the minor units of ISO 4217

    A second host, for currencies that are not divided in hundredths: it
    takes the number of fraction digits of a currency from (a part of) the
    ISO 4217 table, and shows US dollars with the dollar sign and any
    other currency by its code and a no-break space, as 'en-US' shows the
    Kuwaiti dinar. *)

Definition minor_units (code : string) : Z :=
  if existsb (String.eqb code) ["BHD"; "IQD"; "JOD"; "KWD"; "LYD"; "OMR"; "TND"] then 3
  else if existsb (String.eqb code) ["CLP"; "ISK"; "JPY"; "KRW"; "PYG"; "UGX"; "VND"] then 0
  else 2.

(** The no-break space, U+00A0, in UTF-8. *)
Definition no_break_space : string :=
  String (ascii_of_nat 194) (String (ascii_of_nat 160) EmptyString).

Definition currency_sign (code : string) : string :=
  if String.eqb code "USD" then "$" else code +:+ no_break_space.

Definition code_format (nf : NumberFormat) (x : number) : string :=
  match nf_style nf with
  | Decimal => en_US_decimal nf x
  | Currency =>
      let sign := currency_sign (nf_currency nf) in
      match x with
      | NaN => "NaN"
      | Inf s => (if s then "-" else "") +:+ sign +:+ infinity_sign
      | Fin s k =>
          let '(n, f) := raw_fixed k (nf_minimumFractionDigits nf)
                           (nf_maximumFractionDigits nf) in
          (if s then "-" else "") +:+ sign +:+ fixed_point_grouped n f
      end
  end.

Definition code_host : Host :=
  mkHost code_format minor_units series_cos series_sin.

End Intl.

(** ** [src/helper.js] *)

Module Helper.
Import JSNumber Text JSValue Intl.

(** [new Error('Invalid input!')], the helpers' rejection of an argument. *)
Definition InvalidInput : error := Error "Invalid input!".

(** The error [poll] ends with when its budget is spent. *)
Definition MaxRetriesExceeded : error := Error "Maximum retries for polling reached".

Section Conversion.

(** The platform. *)
Variable host : Host.

(** [UNITS], imported from [./config]: the table of display units, each
    entry an object with a [denominator]. *)
Variable UNITS : value.

(** [formatNumber(val)] *)
Definition formatNumber (val : value) : result string :=
  let num := ToNumber val in
  let num := if isNaN num then of_Z 0 else num in
  let options := mkOptions Decimal Undefined true Undefined (Num (of_Z 8)) in
  intl ← construct host HostDefault options;
  Ok (format host intl num).

(** [formatFiat(val, currency)] *)
Definition formatFiat (val currency : value) : result string :=
  let num := ToNumber val in
  let num := if isNaN num then of_Z 0 else num in
  let options := mkOptions Currency currency true Undefined Undefined in
  intl ← construct host HostDefault options;
  let str := format host intl num in
  if ltb num (of_Z 1) && gtb num (of_Z 0) && zero_fraction_pattern str then
    Ok ("< " +:+ format host intl (of_ratio 1 100))
  else if ltb (abs num) (of_Z 1) && gtb (abs num) (of_Z 0) && zero_fraction_pattern str then
    Ok ("< " +:+ format host intl (opp (of_ratio 1 100)))
  else Ok str.

(** [UNITS[unit].denominator] *)
Definition denominator_of (unit : value) : result value :=
  entry ← index UNITS unit;
  get entry "denominator".

(** [settings.exchangeRate[settings.fiat] || 0] *)
Definition rate_of (settings : value) : result value :=
  exchangeRate ← get settings "exchangeRate";
  fiat ← get settings "fiat";
  rate ← index exchangeRate fiat;
  Ok (or_else rate (Num (of_Z 0))).

(** [toSatoshis(amount, settings)] *)
Definition toSatoshis (amount settings : value) : result value :=
  invalid ←
    (if negb (String.eqb (typeof amount) "string") then Ok true
     else if negb (decimal_pattern (ToString amount)) then Ok true
     else if negb (truthy settings) then Ok true
     else displayFiat ← get settings "displayFiat";
          Ok (negb (String.eqb (typeof displayFiat) "boolean")));
  if invalid : bool then Throw InvalidInput
  else
    displayFiat ← get settings "displayFiat";
    if truthy displayFiat then
      rate ← rate_of settings;
      btc ← denominator_of (Str "btc");
      Ok (Num (round (mul (mul (ToNumber amount) (ToNumber rate)) (ToNumber btc))))
    else
      unit ← get settings "unit";
      denominator ← denominator_of unit;
      Ok (Num (round (mul (ToNumber amount) (ToNumber denominator)))).

(** [calculateExchangeRate(satoshis, settings)] *)
Definition calculateExchangeRate (satoshis settings : value) : result value :=
  invalid ←
    (if negb (isInteger satoshis) then Ok true
     else displayFiat ← get settings "displayFiat";
          Ok (negb (String.eqb (typeof displayFiat) "boolean")));
  if invalid : bool then Throw InvalidInput
  else
    rate ← rate_of settings;
    btc ← denominator_of (Str "btc");
    Ok (Num (div (div (ToNumber satoshis) (ToNumber rate)) (ToNumber btc))).

(** [toAmount(satoshis, settings, fiatPrecision = 8)]; an [Undefined]
    third argument takes the default. *)
Definition toAmount (satoshis settings fiatPrecision : value) : result string :=
  let fiatPrecision := match fiatPrecision with
                       | Undefined => Num (of_Z 8)
                       | v => v
                       end in
  invalid ←
    (if negb (isInteger satoshis) then Ok true
     else if negb (truthy settings) then Ok true
     else displayFiat ← get settings "displayFiat";
          Ok (negb (String.eqb (typeof displayFiat) "boolean")));
  if invalid : bool then Throw InvalidInput
  else
    displayFiat ← get settings "displayFiat";
    num ← (if truthy displayFiat then calculateExchangeRate satoshis settings
           else unit ← get settings "unit";
                denominator ← denominator_of unit;
                Ok (Num (div (ToNumber satoshis) (ToNumber denominator))));
    let options :=
      mkOptions Decimal Undefined false
        (Num (if truthy displayFiat then of_Z 2 else of_Z 0))
        (if truthy displayFiat then fiatPrecision else Num (of_Z 8)) in
    intl ← construct host EnUS options;
    Ok (format host intl (ToNumber num)).

(** [toAmountLabel(satoshis, settings)] *)
Definition toAmountLabel (satoshis settings : value) : result string :=
  invalid ←
    (if negb (isInteger satoshis) then Ok true
     else displayFiat ← get settings "displayFiat";
          Ok (negb (String.eqb (typeof displayFiat) "boolean")));
  if invalid : bool then Throw InvalidInput
  else
    displayFiat ← get settings "displayFiat";
    if truthy displayFiat then
      rate ← calculateExchangeRate satoshis settings;
      fiat ← get settings "fiat";
      formatFiat rate fiat
    else
      amount ← toAmount satoshis settings Undefined;
      formatNumber (Str amount).

(** [toLabel(amount, settings)] *)
Definition toLabel (amount settings : value) : result string :=
  satoshis ← toSatoshis amount settings;
  toAmountLabel satoshis settings.

(** [getTimeTilAvailable(numBlocks)] *)
Definition getTimeTilAvailable (numBlocks : value) : result string :=
  if negb (isInteger numBlocks) then Throw InvalidInput
  else
    let n := ToNumber numBlocks in
    let days := floor (div n (mul (of_Z 24) (of_Z 6))) in
    let hours := floor (div (rem n (mul (of_Z 24) (of_Z 6))) (of_Z 6)) in
    let daysString := if eqb days (of_Z 1) then "day" else "days" in
    let hoursString := if eqb hours (of_Z 1) then "hour" else "hours" in
    Ok (NumberToString days +:+ " " +:+ daysString +:+ " and " +:+
        NumberToString hours +:+ " " +:+ hoursString).

(** A point of the plane. *)
Record Point : Type := mkPoint { px : number; py : number }.

(** [polarToCartesian(centerX, centerY, radius, angleInDegrees)] *)
Definition polarToCartesian (centerX centerY radius angleInDegrees : number) : Point :=
  let angleInRadians := div (mul (sub angleInDegrees (of_Z 90)) PI) (of_Z 180) in
  mkPoint (add centerX (mul radius (Math_cos host angleInRadians)))
          (add centerY (mul radius (Math_sin host angleInRadians))).

(** [Array.prototype.join] on strings. *)
Fixpoint join (sep : string) (parts : list string) : string :=
  match parts with
  | nil => EmptyString
  | p :: nil => p
  | p :: rest => p +:+ sep +:+ join sep rest
  end.

(** [generateArc(x, y, radius, startAngle, endAngle)] *)
Definition generateArc (x y radius startAngle endAngle : number) : string :=
  let start := polarToCartesian x y radius endAngle in
  let end_ := polarToCartesian x y radius startAngle in
  let largeArcFlag := if leb (sub endAngle startAngle) (of_Z 180) then "0" else "1" in
  let sweepFlag := if eqb endAngle (of_Z 360) then "1" else "0" in
  let end_ := mkPoint (if eqb endAngle (of_Z 360) then sub (px end_) (of_ratio 1 100)
                       else px end_)
                      (py end_) in
  join " "
    [ "M " +:+ NumberToString x +:+ " " +:+ NumberToString y;
      "L " +:+ NumberToString (px start) +:+ " " +:+ NumberToString (py start);
      "A " +:+ NumberToString radius +:+ " " +:+ NumberToString radius +:+ " 0 " +:+
        largeArcFlag +:+ " " +:+ sweepFlag +:+ " " +:+
        NumberToString (px end_) +:+ " " +:+ NumberToString (py end_);
      "Z" ].

End Conversion.

(** *** The asynchronous utilities

    The operation acts on a state of the outside world; one invocation
    returns a value or throws, and leaves a new state.  A run of [poll]
    or [retry] is sequential, so it is a function of the initial state: it
    yields how the run ended, how many times the operation was invoked,
    the intervals slept, and the final state.  The loops are not bounded
    by their own text ([retries] may be [Infinity], or never reach zero),
    so they take fuel: [None] means the fuel ran out first. *)

Section Async.

Context {World : Type}.

(** [RETRY_DELAY], imported from [./config]: [poll]'s default interval. *)
Variable RETRY_DELAY : value.

Definition operation : Type := World -> result value * World.

(** How a run ended. *)
Inductive exit : Type :=
| Returned (v : value)      (* [return] of the operation's result *)
| Propagated (e : error)    (* the operation's exception reaches the caller *)
| Exhausted                 (* [throw new Error('Maximum retries ...')] *)
| Fallback.                 (* [return null] after the loop *)

Record run : Type := mkRun {
  ending : exit;
  invocations : nat;
  sleeps : list value;
  world : World
}.

(** What the caller of the promise observes. *)
Definition settle (r : run) : result value :=
  match ending r with
  | Returned v => Ok v
  | Propagated e => Throw e
  | Exhausted => Throw MaxRetriesExceeded
  | Fallback => Ok Null
  end.

(** [poll]'s loop, with [retries] the counter's current value:
    [while (retries--) { ... }]. *)
Fixpoint poll_loop (fuel : nat) (api : operation) (interval : value) (retries : number)
    (calls : nat) (slept : list value) (w : World) : option run :=
  match fuel with
  | O => None
  | S fuel' =>
      if truthy (Num retries) then
        let retries := sub retries (of_Z 1) in
        match api w with
        | (Ok response, w') =>
            if truthy response then Some (mkRun (Returned response) (S calls) slept w')
            else poll_loop fuel' api interval retries (S calls) (slept ++ [interval]) w'
        | (Throw e, w') => Some (mkRun (Propagated e) (S calls) slept w')
        end
      else Some (mkRun Exhausted calls slept w)
  end.

(** A parameter's default, taken when the argument is [undefined]. *)
Definition or_default (v d : value) : value :=
  match v with
  | Undefined => d
  | _ => v
  end.

(** [poll(api, interval = RETRY_DELAY, retries = Infinity)] *)
Definition poll (fuel : nat) (api : operation) (interval retries : value)
    (w : World) : option run :=
  let interval := or_default interval RETRY_DELAY in
  let retries := or_default retries (Num (Inf false)) in
  poll_loop fuel api interval (ToNumber retries) 0 [] w.

(** [retry]'s loop. *)
Fixpoint retry_loop (fuel : nat) (api : operation) (interval : value) (retries : number)
    (calls : nat) (slept : list value) (w : World) : option run :=
  match fuel with
  | O => None
  | S fuel' =>
      if truthy (Num retries) then
        let retries := sub retries (of_Z 1) in
        match api w with
        | (Ok response, w') => Some (mkRun (Returned response) (S calls) slept w')
        | (Throw err, w') =>
            if negb (truthy (Num retries)) then Some (mkRun (Propagated err) (S calls) slept w')
            else retry_loop fuel' api interval retries (S calls) (slept ++ [interval]) w'
        end
      else Some (mkRun Fallback calls slept w)
  end.

(** [retry(api, interval = 100, retries = 1000)] *)
Definition retry (fuel : nat) (api : operation) (interval retries : value)
    (w : World) : option run :=
  let interval := or_default interval (Num (of_Z 100)) in
  let retries := or_default retries (Num (of_Z 1000)) in
  retry_loop fuel api interval (ToNumber retries) 0 [] w.

(** The state in which the [i]-th invocation (from 0) takes place, when
    the operation is invoked again and again from [w]. *)
Fixpoint world_at (api : operation) (w : World) (i : nat) : World :=
  match i with
  | O => w
  | S j => snd (api (world_at api w j))
  end.

(** The outcome of the [i]-th invocation. *)
Definition outcome_at (api : operation) (w : World) (i : nat) : result value :=
  fst (api (world_at api w i)).

End Async.

End Helper.

(** ** Sample data for the examples *)

Module Sample.
Import JSNumber Text JSValue Intl Helper.

(** Modelled from the spec: the units table of [./config], which is not
    among the sources.  The spec requires a [btc] entry with denominator
    [10^8] and names [sat], the base unit, as another key. *)
Definition UNITS : value :=
  object [ ("sat", object [("denominator", Num (of_Z 1))]);
           ("btc", object [("denominator", Num (of_Z 100000000))]) ].

(** A table of two units that the 8 fraction digits of an amount do not
    suit: one of [10^9] satoshis, and one of 99999999. *)
Definition other_UNITS : value :=
  object [ ("coarse", object [("denominator", Num (of_Z 1000000000))]);
           ("odd", object [("denominator", Num (of_Z 99999999))]) ].

(** [{ displayFiat: false, unit }] *)
Definition unit_settings (unit : string) : value :=
  object [ ("displayFiat", Bool false); ("unit", Str unit) ].

(** [{ displayFiat: true, fiat: 'usd', exchangeRate: { usd: rate } }] *)
Definition fiat_settings (rate : number) : value :=
  object [ ("displayFiat", Bool true); ("fiat", Str "usd");
           ("exchangeRate", object [("usd", Num rate)]) ].

(** [{ displayFiat: true, fiat: 'usd', exchangeRate: {} }]: no rate yet. *)
Definition no_rate_settings : value :=
  object [ ("displayFiat", Bool true); ("fiat", Str "usd");
           ("exchangeRate", object []) ].

(** An operation that fails every time, each failure naming its attempt;
    the state of the world counts the invocations. *)
Definition always_fails : @operation nat :=
  fun w => (Throw (Error ("attempt " +:+ decimal (Z.of_nat w))), S w).

(** An operation that never has a result yet. *)
Definition always_falsy : @operation nat :=
  fun w => (Ok (Num (of_Z 0)), S w).

(** An operation that fails twice and then returns a falsy result. *)
Definition third_time_null : @operation nat :=
  fun w => (if (w <? 2)%nat then Throw (Error "not yet") else Ok Null, S w).

(** An operation that is not ready twice, then yields a result. *)
Definition third_time_ready : @operation nat :=
  fun w => (if (w <? 2)%nat then Ok (Bool false) else Ok (Str "ready"), S w).

(** An operation that is not ready once, then fails. *)
Definition second_time_fails : @operation nat :=
  fun w => (if (w <? 1)%nat then Ok Undefined else Throw (Error "connection lost"), S w).

End Sample.

(** ** The spec's formula for [getTimeTilAvailable]

    Following the spec's words, not the code: [days = floor (numBlocks /
    144)] and [hours = floor ((numBlocks mod 144) / 6)] on the integers,
    each written out in full, with the singular at exactly 1.  It is what
    the code's result is compared with. *)

Module Stated.
Import Text.

Definition integer_text (z : Z) : string :=
  if z <? 0 then "-" +:+ decimal (- z) else decimal z.

Definition time_til_available (numBlocks : Z) : string :=
  let days := numBlocks / 144 in
  let hours := numBlocks mod 144 / 6 in
  integer_text days +:+ " " +:+ (if days =? 1 then "day" else "days") +:+ " and " +:+
  integer_text hours +:+ " " +:+ (if hours =? 1 then "hour" else "hours").

End Stated.

(** ** The size of a Number *)

Module Magnitude.
Import JSNumber.

(** The magnitude of a Number in units of [2^-1074]; an infinity counts
    as the first magnitude that overflows. *)
Definition magnitude (x : number) : Z :=
  match x with
  | NaN => 0
  | Inf _ => OVERFLOW
  | Fin _ k => k
  end.

End Magnitude.

(** ** Regular expressions

    The patterns of the helpers' validators are built from character
    classes, literal text, sequence, [*] and [{m,n}], between [^] and [$]:
    [test] asks whether the whole string belongs to the pattern.  The
    matcher consumes the string one character at a time, keeping the
    pattern of what may follow. *)

Module RegExp.
Import Text.

Inductive regex : Type :=
| Void                          (* matches nothing *)
| Eps                           (* matches the empty string *)
| Chars (p : ascii -> bool)     (* a character class *)
| Alt (r1 r2 : regex)
| Seq (r1 r2 : regex)
| Star (r : regex).

(** Literal text. *)
Fixpoint literal (s : string) : regex :=
  match s with
  | EmptyString => Eps
  | String c rest => Seq (Chars (Ascii.eqb c)) (literal rest)
  end.

(** [r{n}] *)
Fixpoint power (r : regex) (n : nat) : regex :=
  match n with
  | O => Eps
  | S k => Seq r (power r k)
  end.

(** [r{0,n}] *)
Fixpoint upto (r : regex) (n : nat) : regex :=
  match n with
  | O => Eps
  | S k => Alt Eps (Seq r (upto r k))
  end.

(** [r{min,max}] *)
Definition bounded (r : regex) (min max : nat) : regex :=
  Seq (power r min) (upto r (max - min)).

(** What a pattern means: the strings it matches. *)
Inductive lang : regex -> string -> Prop :=
| lang_eps : lang Eps EmptyString
| lang_chars (p : ascii -> bool) (c : ascii) :
    p c = true -> lang (Chars p) (String c EmptyString)
| lang_alt_l (r1 r2 : regex) (s : string) : lang r1 s -> lang (Alt r1 r2) s
| lang_alt_r (r1 r2 : regex) (s : string) : lang r2 s -> lang (Alt r1 r2) s
| lang_seq (r1 r2 : regex) (s1 s2 : string) :
    lang r1 s1 -> lang r2 s2 -> lang (Seq r1 r2) (s1 +:+ s2)
| lang_star_nil (r : regex) : lang (Star r) EmptyString
| lang_star_cons (r : regex) (s1 s2 : string) :
    lang r s1 -> lang (Star r) s2 -> lang (Star r) (s1 +:+ s2).

(** Does the pattern match the empty string? *)
Fixpoint nullable (r : regex) : bool :=
  match r with
  | Void => false
  | Eps => true
  | Chars _ => false
  | Alt a b => nullable a || nullable b
  | Seq a b => nullable a && nullable b
  | Star _ => true
  end.

(** Sequence and alternative, without their trivial cases. *)
Definition seq (r1 r2 : regex) : regex :=
  match r1 with
  | Void => Void
  | Eps => r2
  | _ => match r2 with
         | Void => Void
         | Eps => r1
         | _ => Seq r1 r2
         end
  end.

Definition alt (r1 r2 : regex) : regex :=
  match r1 with
  | Void => r2
  | _ => match r2 with
         | Void => r1
         | _ => Alt r1 r2
         end
  end.

(** The pattern of what may follow the character [c]. *)
Fixpoint deriv (c : ascii) (r : regex) : regex :=
  match r with
  | Void | Eps => Void
  | Chars p => if p c then Eps else Void
  | Alt a b => alt (deriv c a) (deriv c b)
  | Seq a b => alt (seq (deriv c a) b) (if nullable a then deriv c b else Void)
  | Star a => seq (deriv c a) (Star a)
  end.

(** [/^r$/.test(s)] *)
Fixpoint test (r : regex) (s : string) : bool :=
  match s with
  | EmptyString => nullable r
  | String c rest => test (deriv c r) rest
  end.

(** The class [[a-zA-Z0-9]]. *)
Definition alphanumeric (c : ascii) : bool :=
  ((97 <=? code c) && (code c <=? 122)) ||
  ((65 <=? code c) && (code c <=? 90)) ||
  is_digit c.

(** [/^[0-9]*[.]?[0-9]*$/], the pattern of [toSatoshis]. *)
Definition decimal_regex : regex :=
  Seq (Star (Chars is_digit))
      (Seq (Alt Eps (Chars (Ascii.eqb ".")))
           (Star (Chars is_digit))).

(** A pattern without anchors matches when some part of the string does. *)
Definition somewhere (r : regex) : regex :=
  Seq (Star (Chars (fun _ => true))) (Seq r (Star (Chars (fun _ => true)))).

(** [0[,.]0{2}] *)
Definition zero_fraction : regex :=
  Seq (Chars (Ascii.eqb "0"))
      (Seq (Chars (fun c => Ascii.eqb c "," || Ascii.eqb c "."))
           (power (Chars (Ascii.eqb "0")) 2)).

(** [/0[,.]0{2}/], the pattern of [formatFiat]. *)
Definition zero_fraction_regex : regex := somewhere zero_fraction.

End RegExp.

(** ** The other helpers of [src/helper.js]

    Dates, capitalised labels, buffers and their hexadecimal rendering,
    the validators of payment requests and addresses, and the check of an
    HTTP response. *)

Module Utilities.
Import JSNumber Text JSValue Intl Helper RegExp.

(** *** Dates *)

(** A Date, that is its time value: milliseconds since the epoch, or NaN
    for an invalid date. *)
Record Date : Type := mkDate { time_value : number }.

(** The integral part of a Number, towards zero. *)
Definition trunc (x : number) : number :=
  match x with
  | Fin s k => Fin s (scaled (whole k))
  | _ => x
  end.

(** TimeClip: a time value is an integral number of milliseconds within
    [8.64e15] of the epoch, and never a negative zero. *)
Definition TimeClip (time : number) : number :=
  if negb (isFinite time) then NaN
  else if gtb (abs time) (of_Z 8640000000000000) then NaN
  else match trunc time with
       | Fin _ 0 => Fin false 0
       | t => t
       end.

(** [new Date(value)] on a Number. *)
Definition new_Date (value : number) : Date := mkDate (TimeClip value).

(** [parseDate(timeStamp)] *)
Definition parseDate (timeStamp : value) : result Date :=
  if negb (isInteger timeStamp) then Throw InvalidInput
  else Ok (new_Date (mul (ToNumber timeStamp) (of_Z 1000))).

(** *** Capitalised labels *)

(** [s.startsWith(r)] *)
Fixpoint starts_with (r s : string) : bool :=
  match r, s with
  | EmptyString, _ => true
  | String a r', String b s' => Ascii.eqb a b && starts_with r' s'
  | String _ _, EmptyString => false
  end.

(** The pieces of [s] between the occurrences of a non-empty separator
    [r], found from left to right: [cur] is the piece being read, [skip]
    the number of characters of a separator just found still to pass. *)
Fixpoint split_from (r : string) (skip : nat) (cur : string) (s : string) : list string :=
  match s with
  | EmptyString => [cur]
  | String c rest =>
      match skip with
      | S k => split_from r k cur rest
      | O =>
          if starts_with r s then cur :: split_from r (String.length r - 1) EmptyString rest
          else split_from r 0 (cur +:+ String c EmptyString) rest
      end
  end.

(** The characters of a string, one by one. *)
Fixpoint code_units (s : string) : list string :=
  match s with
  | EmptyString => []
  | String c rest => String c EmptyString :: code_units rest
  end.

(** [s.split(r)] with a string separator: an empty separator splits
    between all characters (and the empty string into no piece at all). *)
Definition split (s r : string) : list string :=
  if is_empty r then code_units s else split_from r 0 EmptyString s.

(** A string without the character [c]. *)
Definition free (c : ascii) (w : string) : bool :=
  all_chars (fun d => negb (Ascii.eqb c d)) w.

(** [s.charAt(0)] *)
Definition charAt0 (s : string) : string :=
  match s with
  | EmptyString => EmptyString
  | String c _ => String c EmptyString
  end.

(** [s.substring(1)] *)
Definition substring1 (s : string) : string :=
  match s with
  | EmptyString => EmptyString
  | String _ rest => rest
  end.

(** [array.reduce(f)] on strings, without an initial value: a TypeError
    on the empty array. *)
Definition reduce (f : string -> string -> string) (array : list string) : result string :=
  match array with
  | [] => Throw TypeError
  | first :: rest => Ok (fold_left f rest first)
  end.

Section Caps.

(** [String.prototype.toUpperCase], the platform's case mapping. *)
Variable toUpperCase : string -> string.

(** [v => v.charAt(0).toUpperCase() + v.substring(1)] *)
Definition capitalize (v : string) : string :=
  toUpperCase (charAt0 v) +:+ substring1 v.

(** [toCaps(value = '', separator = ' ', split = '-')]: a [value] that is
    not a String has no [split] method to call. *)
Definition toCaps (value separator split_ : value) : result string :=
  let value := or_default value (Str EmptyString) in
  let separator := or_default separator (Str " ") in
  let split_ := or_default split_ (Str "-") in
  match value with
  | Str s =>
      reduce (fun a b => a +:+ ToString separator +:+ b)
             (map capitalize (split s (ToString split_)))
  | _ => Throw TypeError
  end.

End Caps.

(** *** Buffers *)

(** What the buffer helpers are handed: a value of the language, or a
    [Buffer] (a [Uint8Array]), that is a sequence of bytes. *)
Inductive data : Type :=
| Plain (v : value)
| Binary (bytes : list Byte.byte).

(** [typeof] on these. *)
Definition typeof_data (d : data) : string :=
  match d with
  | Plain v => typeof v
  | Binary _ => "object"
  end.

(** A byte from its number. *)
Definition byte_of (n : Z) : Byte.byte := default Byte.x00 (Byte.of_N (Z.to_N n)).

Definition byte_value (b : Byte.byte) : Z := Z.of_N (Byte.to_N b).

(** The character codes of a string. *)
Fixpoint codes (s : string) : list Z :=
  match s with
  | EmptyString => []
  | String c rest => code c :: codes rest
  end.

(** UTF-8: a character below 128 is one byte, one below 256 two bytes.
    (The strings of this development have their characters below 256.) *)
Fixpoint utf8 (s : string) : list Byte.byte :=
  match s with
  | EmptyString => []
  | String c rest =>
      if code c <? 128 then byte_of (code c) :: utf8 rest
      else byte_of (192 + code c / 64) :: byte_of (128 + code c mod 64) :: utf8 rest
  end.

(** [toBuffer(str)] *)
Definition toBuffer (str : data) : result (list Byte.byte) :=
  if negb (String.eqb (typeof_data str) "string") then Throw InvalidInput
  else match str with
       | Plain v => Ok (utf8 (ToString v))
       | Binary bytes => Ok bytes
       end.

(** A hexadecimal digit, in lower case. *)
Definition hex_digit (d : Z) : ascii :=
  if d <? 10 then ascii_of_nat (Z.to_nat (48 + d)) else ascii_of_nat (Z.to_nat (87 + d)).

(** The hexadecimal digits, in lower case. *)
Definition is_hex (c : ascii) : bool :=
  is_digit c || ((97 <=? code c) && (code c <=? 102)).

(** [buf.toString('hex')] *)
Fixpoint hex (bytes : list Byte.byte) : string :=
  match bytes with
  | [] => EmptyString
  | b :: rest =>
      String (hex_digit (byte_value b / 16)) (String (hex_digit (byte_value b mod 16)) (hex rest))
  end.

(** [toHex(buf)] *)
Definition toHex (buf : data) : result string :=
  match buf with
  | Binary bytes => Ok (hex bytes)
  | Plain _ => Throw InvalidInput
  end.

(** The loop of [reverse]: [buffer[i] = src[j]; buffer[j] = src[i]] while
    [i <= j].  A read outside the source would give [undefined], stored
    as 0; a write outside the buffer would be dropped. *)
Fixpoint reverse_loop (fuel : nat) (src buffer : list Byte.byte) (i j : Z) : list Byte.byte :=
  match fuel with
  | O => buffer
  | S fuel' =>
      if i <=? j then
        let buffer := <[Z.to_nat i := default Byte.x00 (src !! Z.to_nat j)]> buffer in
        let buffer := <[Z.to_nat j := default Byte.x00 (src !! Z.to_nat i)]> buffer in
        reverse_loop fuel' src buffer (i + 1) (j - 1)
      else buffer
  end.

(** [reverse(src)]: the loop makes at most [src.length] rounds. *)
Definition reverse (src : list Byte.byte) : list Byte.byte :=
  let buffer := replicate (List.length src) Byte.x00 in
  reverse_loop (List.length src) src buffer 0 (Z.of_nat (List.length src) - 1).

(** *** Validators *)

(** [isLnUri(str)]: [/^lightning:ln[a-zA-Z0-9]*$/.test(str)] *)
Definition isLnUri (str : value) : bool :=
  test (Seq (literal "lightning:ln") (Star (Chars alphanumeric))) (ToString str).

(** [isAddress(str)]: [/^[a-zA-Z0-9]{26,90}$/.test(str)] *)
Definition isAddress (str : value) : bool :=
  test (bounded (Chars alphanumeric) 26 90) (ToString str).

(** *** HTTP responses *)

(** [x >= y] *)
Definition geb (x y : number) : bool :=
  match compare x y with Some Gt | Some Eq => true | _ => false end.

(** [new Error(message)]: an absent message leaves the empty one. *)
Definition new_Error (message : value) : error :=
  match message with
  | Undefined => Error EmptyString
  | v => Error (ToString v)
  end.

(** [checkHttpStatus(response)] *)
Definition checkHttpStatus (response : value) : result value :=
  status ← get response "status";
  if geb (ToNumber status) (of_Z 200) && ltb (ToNumber status) (of_Z 300) then Ok response
  else
    statusText ← get response "statusText";
    Throw (new_Error statusText).

End Utilities.

(** ** The spinner ([src/component/spinner.js])

    The progress path of the spinner is an arc of [generateArc]; the
    continuous spinner advances its percentage on every tick. *)

Module Spinner.
Import JSNumber Text JSValue Intl Helper.

Section Paths.

Variable host : Host.

(** The [d] attribute of [SpinnerProgress]'s path. *)
Definition SpinnerProgress (continuous : value) (width percentage : number) : string :=
  generateArc host
    (div width (of_Z 2))
    (div width (of_Z 2))
    (div width (of_Z 2))
    (if truthy continuous then mul percentage (of_Z 360) else of_Z 0)
    (if truthy continuous then mul (add percentage (of_ratio 2 5)) (of_Z 360)
     else mul percentage (of_Z 360)).

End Paths.

(** The radius of [SpinnerFill]'s circle. *)
Definition SpinnerFill_radius (spinnerWidth progressWidth : number) : number :=
  sub (div spinnerWidth (of_Z 2)) progressWidth.

(** [increasePercentage]: the next state of the continuous spinner,
    [(percentage + 0.01) % 1]. *)
Definition increasePercentage (percentage : number) : number :=
  rem (add percentage (of_ratio 1 100)) (of_Z 1).

End Spinner.

(** * Properties

    First the facts about rounding, text and values that the properties of
    the helpers rest on, then the properties themselves, module by module. *)

Module NumberFacts.
Import JSNumber.

Lemma W_eq : W = 2 ^ 1074.
Proof. unfold W. rewrite Z.shiftl_1_l. reflexivity. Qed.

Lemma OVERFLOW_eq : OVERFLOW = 2 ^ 2098.
Proof. unfold OVERFLOW. rewrite Z.shiftl_1_l. reflexivity. Qed.

Lemma W_pos : 0 < W.
Proof. rewrite W_eq. apply Z.pow_pos_nonneg; lia. Qed.

Lemma scaled_eq (n : Z) : scaled n = n * W.
Proof. unfold scaled. rewrite Z.shiftl_mul_pow2 by lia. rewrite W_eq. reflexivity. Qed.

Lemma whole_eq (k : Z) : whole k = k / W.
Proof. unfold whole. rewrite Z.shiftr_div_pow2 by lia. rewrite W_eq. reflexivity. Qed.

Lemma trailing_zeros_nonneg (p : positive) : 0 <= trailing_zeros p.
Proof. induction p; simpl; lia. Qed.

Lemma trailing_zeros_divide (p : positive) : (2 ^ trailing_zeros p | Zpos p).
Proof.
  induction p as [p _|p [q Hq]|].
  - exists (Zpos p~1). simpl. lia.
  - exists q. cbn [trailing_zeros]. pose proof (trailing_zeros_nonneg p).
    rewrite Z.pow_succ_r by assumption. lia.
  - exists 1. reflexivity.
Qed.

Lemma tz_nonneg (a : Z) : 0 <= tz a.
Proof. destruct a; simpl; try apply trailing_zeros_nonneg. lia. Qed.

Lemma tz_divide (a : Z) : (2 ^ tz a | a).
Proof.
  destruct a as [|p|p]; simpl.
  - apply Z.divide_0_r.
  - apply trailing_zeros_divide.
  - destruct (trailing_zeros_divide p) as [q Hq]. exists (- q). lia.
Qed.

(** Numerator and denominator without the power of two they share. *)
Lemma common_shift (a b : Z) :
  let j := Z.min (tz a) (tz b) in
  0 <= j /\ a = Z.shiftr a j * 2 ^ j /\ b = Z.shiftr b j * 2 ^ j.
Proof.
  intros j.
  pose proof (tz_nonneg a). pose proof (tz_nonneg b).
  assert (0 <= j) as Hj by (unfold j; lia).
  assert (forall x, j <= tz x -> x = Z.shiftr x j * 2 ^ j) as Hx.
  { intros x Hle. rewrite Z.shiftr_div_pow2 by assumption.
    assert (2 ^ j | x) as [q Hq].
    { apply Z.divide_trans with (2 ^ tz x); [|apply tz_divide].
      exists (2 ^ (tz x - j)). rewrite <- Z.pow_add_r by lia. f_equal. lia. }
    assert (0 < 2 ^ j) by (apply Z.pow_pos_nonneg; lia).
    rewrite Hq at 2. rewrite Z.div_mul by lia. exact Hq. }
  split; [assumption|]. split; apply Hx; unfold j; lia.
Qed.

(** [rne] in terms of the quotient and the remainder. *)
Lemma rne_unfold (a b : Z) :
  rne a b = match 2 * (a mod b) ?= b with
            | Lt => a / b
            | Gt => a / b + 1
            | Eq => if Z.even (a / b) then a / b else a / b + 1
            end.
Proof. unfold rne, Z.div, Z.modulo. destruct (Z.div_eucl a b). reflexivity. Qed.

(** [rne a b] is within half a unit of [a / b]. *)
Lemma rne_bounds (a b : Z) :
  0 <= a -> 0 < b ->
  2 * rne a b * b - b <= 2 * a <= 2 * rne a b * b + b.
Proof.
  intros Ha Hb. rewrite ?rne_unfold.
  pose proof (Z.div_mod a b ltac:(lia)) as Hdm.
  pose proof (Z.mod_pos_bound a b Hb) as Hm.
  destruct (Z.compare_spec (2 * (a mod b)) b) as [He|Hl|Hg].
  - destruct (Z.even (a / b)); nia.
  - nia.
  - nia.
Qed.

Lemma rne_nonneg (a b : Z) : 0 <= a -> 0 < b -> 0 <= rne a b.
Proof.
  intros Ha Hb. rewrite ?rne_unfold.
  pose proof (Z.div_pos a b Ha Hb).
  destruct (2 * (a mod b) ?= b); [destruct (Z.even (a / b))| |]; lia.
Qed.

(** An exact quotient is its own rounding. *)
Lemma rne_exact (m b : Z) : 0 < b -> rne (m * b) b = m.
Proof.
  intros Hb. rewrite ?rne_unfold.
  rewrite Z.mod_mul by lia. rewrite Z.div_mul by lia.
  assert ((2 * 0 ?= b) = Lt) as -> by (apply Z.compare_lt_iff; lia).
  reflexivity.
Qed.

(** Rounding depends on the ratio only. *)
Lemma rne_scale (a b c : Z) : 0 < b -> 0 < c -> rne (a * c) (b * c) = rne a b.
Proof.
  intros Hb Hc. rewrite ?rne_unfold.
  rewrite Z.div_mul_cancel_r by lia.
  rewrite Z.mul_mod_distr_r by lia.
  replace (2 * (a mod b * c)) with (2 * (a mod b) * c) by lia.
  rewrite <- (Zmult_compare_compat_r (2 * (a mod b)) b c) by lia. reflexivity.
Qed.

(** Rounding is monotone in the numerator. *)
Lemma rne_mono (a a' b : Z) : 0 <= a -> a <= a' -> 0 < b -> rne a b <= rne a' b.
Proof.
  intros Ha Hle Hb.
  destruct (Z.eq_dec (a / b) (a' / b)) as [Heq|Hne].
  - rewrite ?rne_unfold. rewrite <- Heq.
    pose proof (Z.div_mod a b ltac:(lia)). pose proof (Z.div_mod a' b ltac:(lia)).
    assert (a mod b <= a' mod b) by nia.
    destruct (Z.compare_spec (2 * (a mod b)) b), (Z.compare_spec (2 * (a' mod b)) b);
      try destruct (Z.even (a / b)); lia.
  - assert (a / b < a' / b).
    { pose proof (Z.div_le_mono a a' b Hb Hle). lia. }
    assert (rne a b <= a / b + 1).
    { rewrite ?rne_unfold. destruct (2 * (a mod b) ?= b); [destruct (Z.even (a / b))| |]; lia. }
    assert (a' / b <= rne a' b).
    { rewrite ?rne_unfold. destruct (2 * (a' mod b) ?= b); [destruct (Z.even (a' / b))| |]; lia. }
    lia.
Qed.

Lemma ulp_shift_eq (a b : Z) : ulp_shift a b = Z.log2 (a * 2 ^ 1022 / b).
Proof. unfold ulp_shift. rewrite Z.shiftl_mul_pow2 by lia. reflexivity. Qed.

Lemma ulp_shift_scale (a b c : Z) : 0 < b -> 0 < c -> ulp_shift (a * c) (b * c) = ulp_shift a b.
Proof.
  intros Hb Hc. rewrite !ulp_shift_eq. generalize (2 ^ 1022). intros E.
  replace (a * c * E) with (a * E * c) by lia.
  rewrite Z.div_mul_cancel_r by lia. reflexivity.
Qed.

Lemma ulp_shift_nonneg (a b : Z) : 0 <= ulp_shift a b.
Proof. apply Z.log2_nonneg. Qed.

(** [round_ratio] without the cancellations: the significand is the
    rounded quotient of [a * W] by [b * 2^t]. *)
Lemma round_ratio_unfold (s : bool) (a b : Z) :
  0 < b ->
  round_ratio s a b =
    if a =? 0 then Fin s 0
    else
      let t := ulp_shift a b in
      let k := rne (a * W) (b * 2 ^ t) * 2 ^ t in
      if OVERFLOW <=? k then Inf s else Fin s k.
Proof.
  intros Hb. unfold round_ratio.
  destruct (a =? 0); [reflexivity|]. cbv zeta.
  destruct (common_shift a b) as (Hj & Ha & Hb').
  set (j := Z.min (tz a) (tz b)) in *.
  set (a' := Z.shiftr a j) in *. set (b' := Z.shiftr b j) in *.
  clearbody a' b' j. subst a b.
  assert (0 < 2 ^ j) as Hpj by (apply Z.pow_pos_nonneg; lia).
  assert (0 < b') as Hb0 by nia.
  rewrite (ulp_shift_scale a' b' (2 ^ j)) by assumption.
  set (t := ulp_shift a' b').
  pose proof (ulp_shift_nonneg a' b') as Ht0. fold t in Ht0.
  assert (0 < 2 ^ t) as Hpt by (apply Z.pow_pos_nonneg; lia).
  pose proof W_pos as HW.
  rewrite Z.shiftl_mul_pow2 by assumption.
  assert ((if t <=? 1074 then rne (Z.shiftl a' (1074 - t)) b'
           else rne a' (Z.shiftl b' (t - 1074))) =
          rne (a' * 2 ^ j * W) (b' * 2 ^ j * 2 ^ t)) as ->;
    [|reflexivity].
  destruct (Z.leb_spec t 1074) as [Hle|Hgt].
  - rewrite Z.shiftl_mul_pow2 by lia.
    rewrite <- (rne_scale (a' * 2 ^ (1074 - t)) b' (2 ^ t * 2 ^ j)) by nia.
    f_equal; [|lia].
    rewrite W_eq.
    replace (2 ^ 1074) with (2 ^ (1074 - t) * 2 ^ t); [lia|].
    rewrite <- Z.pow_add_r by lia. f_equal. lia.
  - rewrite Z.shiftl_mul_pow2 by lia.
    rewrite <- (rne_scale a' (b' * 2 ^ (t - 1074)) (2 ^ j * W)) by nia.
    f_equal; [lia|].
    rewrite W_eq.
    replace (2 ^ t) with (2 ^ (t - 1074) * 2 ^ 1074); [lia|].
    rewrite <- Z.pow_add_r by lia. f_equal. lia.
Qed.

(** The rounding of a magnitude depends on the ratio only. *)
Lemma round_ratio_scale (s : bool) (a b c : Z) :
  0 < b -> 0 < c -> round_ratio s (a * c) (b * c) = round_ratio s a b.
Proof.
  intros Hb Hc. rewrite !round_ratio_unfold by nia. cbv zeta.
  rewrite ulp_shift_scale by assumption.
  assert ((a * c =? 0) = (a =? 0)) as ->.
  { destruct (Z.eqb_spec a 0), (Z.eqb_spec (a * c) 0); try reflexivity; nia. }
  replace (a * c * W) with (a * W * c) by lia.
  replace (b * c * 2 ^ ulp_shift a b) with (b * 2 ^ ulp_shift a b * c) by lia.
  rewrite rne_scale; try assumption.
  - reflexivity.
  - pose proof (ulp_shift_nonneg a b). assert (0 < 2 ^ ulp_shift a b) by (apply Z.pow_pos_nonneg; lia). nia.
Qed.

(** The last place of a value [k / W] already on the grid. *)
Lemma ulp_shift_grid (m e : Z) :
  0 < m < 2 ^ 53 -> 0 <= e ->
  ulp_shift (m * 2 ^ e) W = Z.max 0 (Z.log2 m + e - 52).
Proof.
  intros Hm He. rewrite ulp_shift_eq, W_eq.
  rewrite <- Z.mul_assoc, <- Z.pow_add_r by lia.
  rewrite <- Z.shiftr_div_pow2 by lia.
  rewrite Z.log2_shiftr by (assert (0 < 2 ^ (e + 1022)) by (apply Z.pow_pos_nonneg; lia); nia).
  rewrite Z.log2_mul_pow2 by lia. f_equal. lia.
Qed.

(** Every value of the grid (at most 53 significant bits, below the
    overflow threshold) is its own rounding. *)
Lemma round_ratio_grid (s : bool) (m e : Z) :
  0 < m < 2 ^ 53 -> 0 <= e -> m * 2 ^ e < OVERFLOW ->
  round_ratio s (m * 2 ^ e) W = Fin s (m * 2 ^ e).
Proof.
  intros Hm He Hov. rewrite round_ratio_unfold by apply W_pos. cbv zeta.
  assert (0 < 2 ^ e) as Hpe by (apply Z.pow_pos_nonneg; lia).
  destruct (Z.eqb_spec (m * 2 ^ e) 0) as [H0|_]; [nia|].
  rewrite ulp_shift_grid by assumption.
  set (t := Z.max 0 (Z.log2 m + e - 52)).
  assert (0 <= t <= e) as Ht.
  { unfold t. assert (Z.log2 m < 53) by (apply Z.log2_lt_pow2; lia). lia. }
  assert (0 < 2 ^ t) as Hpt by (apply Z.pow_pos_nonneg; lia).
  pose proof W_pos.
  replace (m * 2 ^ e * W) with (m * 2 ^ (e - t) * (W * 2 ^ t)).
  2:{ replace e with ((e - t) + t) at 2 by lia. rewrite Z.pow_add_r by lia. lia. }
  rewrite rne_exact by nia.
  replace (m * 2 ^ (e - t) * 2 ^ t) with (m * 2 ^ e).
  2:{ replace e with ((e - t) + t) at 1 by lia. rewrite Z.pow_add_r by lia. lia. }
  destruct (Z.leb_spec OVERFLOW (m * 2 ^ e)); [lia|reflexivity].
Qed.

(** Integers up to [2^53] are Numbers. *)
Lemma round_ratio_int (s : bool) (n : Z) :
  0 <= n <= 2 ^ 53 -> round_ratio s (n * W) W = Fin s (n * W).
Proof.
  intros Hn.
  destruct (Z.eq_dec n 0) as [->|Hn0]; [reflexivity|].
  destruct (Z.eq_dec n (2 ^ 53)) as [->|Hn53].
  - assert (2 ^ 53 * W = 1 * 2 ^ (53 + 1074)) as ->
      by (rewrite W_eq, Z.pow_add_r, Z.mul_1_l by lia; reflexivity).
    apply round_ratio_grid; [lia|lia|].
    rewrite OVERFLOW_eq, Z.mul_1_l. apply Z.pow_lt_mono_r; lia.
  - pose proof W_pos as HW. rewrite W_eq in HW.
    rewrite W_eq at 1 3. apply (round_ratio_grid s n 1074); [lia|lia|].
    rewrite OVERFLOW_eq. replace 2098 with (1024 + 1074) by lia. rewrite Z.pow_add_r by lia.
    assert (2 ^ 53 < 2 ^ 1024) as Hlt by (apply Z.pow_lt_mono_r; lia).
    revert HW Hlt. generalize (2 ^ 1074) (2 ^ 1024). intros A B HW Hlt. nia.
Qed.

Lemma of_Z_exact (n : Z) :
  Z.abs n <= 2 ^ 53 -> of_Z n = Fin (n <? 0) (Z.abs n * W).
Proof.
  intros Hn. unfold of_Z.
  rewrite <- (round_ratio_scale _ (Z.abs n) 1 W) by (pose proof W_pos; lia).
  rewrite Z.mul_1_l. apply round_ratio_int. lia.
Qed.

Lemma of_Z_nonneg (n : Z) : 0 <= n <= 2 ^ 53 -> of_Z n = Fin false (n * W).
Proof.
  intros Hn. rewrite of_Z_exact by lia.
  destruct (Z.ltb_spec n 0); [lia|]. rewrite Z.abs_eq by lia. reflexivity.
Qed.

(** Counting down by one is exact on the integers up to [2^53]. *)
Lemma sub_one (n : Z) : 1 <= n <= 2 ^ 53 -> sub (of_Z n) (of_Z 1) = of_Z (n - 1).
Proof.
  intros Hn. rewrite !of_Z_nonneg by lia.
  unfold sub, opp, add, signed. cbn [negb andb].
  pose proof W_pos.
  destruct (Z.eqb_spec (n * W + - (1 * W)) 0) as [H0|H0].
  - assert (n = 1) as -> by nia. reflexivity.
  - destruct (Z.ltb_spec (n * W + - (1 * W)) 0); [nia|].
    rewrite Z.abs_eq by lia.
    replace (n * W + - (1 * W)) with ((n - 1) * W) by lia.
    apply round_ratio_int. lia.
Qed.

(** [Math.floor], [Math.round], [%] and [Number.isInteger] on the
    magnitudes, with the shifts written as quotients. *)
Lemma floor_unfold (s : bool) (k : Z) :
  floor (Fin s k) = Fin s (if s then (k + W - 1) / W * W else k / W * W).
Proof. destruct s; cbn [floor]; rewrite scaled_eq, whole_eq; reflexivity. Qed.

Lemma half_shift (k : Z) : Z.shiftr k 1075 = k / (2 * W).
Proof.
  rewrite Z.shiftr_div_pow2 by lia. rewrite W_eq.
  replace 1075 with (1 + 1074) by lia. rewrite Z.pow_add_r by lia. reflexivity.
Qed.

Lemma round_unfold (s : bool) (k : Z) :
  round (Fin s k) =
    Fin s (if s then if 2 * k <=? W then 0 else (2 * k - W + 2 * W - 1) / (2 * W) * W
           else (2 * k + W) / (2 * W) * W).
Proof.
  destruct s; cbn [round]; [destruct (2 * k <=? W); [reflexivity|]|];
    rewrite scaled_eq, half_shift; [|reflexivity].
  replace (2 * k - W + 2 * W - 1) with (2 * k + W - 1) by lia. reflexivity.
Qed.

Lemma isIntegral_unfold (s : bool) (k : Z) : isIntegral (Fin s k) = (k mod W =? 0).
Proof.
  pose proof W_pos. cbn [isIntegral]. rewrite scaled_eq, whole_eq.
  pose proof (Z.div_mod k W ltac:(lia)).
  destruct (Z.eqb_spec (k / W * W) k), (Z.eqb_spec (k mod W) 0); try reflexivity; lia.
Qed.

Lemma rem_unfold (s t : bool) (a b : Z) :
  0 < b -> rem (Fin s a) (Fin t b) = Fin s (a mod b).
Proof.
  intros Hb. cbn [rem]. destruct (Z.eqb_spec b 0); [lia|]. cbv zeta.
  destruct (common_shift a b) as (Hj & Ha & Hb').
  set (j := Z.min (tz a) (tz b)) in *.
  set (a' := Z.shiftr a j) in *. set (b' := Z.shiftr b j) in *.
  clearbody a' b' j. subst a b.
  assert (0 < 2 ^ j) by (apply Z.pow_pos_nonneg; lia).
  assert (0 < b') by nia.
  rewrite Z.shiftl_mul_pow2 by assumption.
  rewrite Z.mul_mod_distr_r by lia. reflexivity.
Qed.

End NumberFacts.

Module AsyncFacts.
Import JSNumber Text JSValue Intl Helper NumberFacts.

Lemma truthy_count (n : Z) : 0 <= n <= 2 ^ 53 -> truthy (Num (of_Z n)) = negb (n =? 0).
Proof.
  intros Hn. rewrite of_Z_nonneg by assumption. cbn [truthy].
  pose proof W_pos.
  destruct (Z.eqb_spec (n * W) 0), (Z.eqb_spec n 0); try reflexivity; nia.
Qed.

Section Runs.

Context {World : Type}.
Variable api : @operation World.
Variable interval : value.

Lemma world_at_shift (w : World) (i : nat) :
  world_at api w (S i) = world_at api (snd (api w)) i.
Proof.
  induction i as [|i IH]; [reflexivity|].
  change (world_at api w (S (S i))) with (snd (api (world_at api w (S i)))).
  rewrite IH. reflexivity.
Qed.

Lemma outcome_at_shift (w : World) (i : nat) :
  outcome_at api w (S i) = outcome_at api (snd (api w)) i.
Proof. unfold outcome_at. rewrite world_at_shift. reflexivity. Qed.

(** [j] failed attempts within the budget bring [retry]'s loop to its
    [j]-th iteration. *)
Lemma retry_loop_failing (j : nat) :
  forall (n : Z) (fuel calls : nat) (slept : list value) (w : World),
    Z.of_nat j < n <= 2 ^ 53 ->
    (forall i, (i < j)%nat -> exists e, outcome_at api w i = Throw e) ->
    (j <= fuel)%nat ->
    retry_loop fuel api interval (of_Z n) calls slept w =
    retry_loop (fuel - j) api interval (of_Z (n - Z.of_nat j)) (calls + j)
      (slept ++ repeat interval j) (world_at api w j).
Proof.
  induction j as [|j IH]; intros n fuel calls slept w Hn Hfail Hfuel.
  - rewrite Nat.sub_0_r, Nat.add_0_r, Z.sub_0_r, app_nil_r. reflexivity.
  - destruct fuel as [|fuel]; [lia|].
    cbn [retry_loop]. rewrite truthy_count by lia.
    destruct (Z.eqb_spec n 0); [lia|]. cbn [negb].
    rewrite sub_one by lia.
    destruct (Hfail 0%nat ltac:(lia)) as [e He].
    unfold outcome_at in He. cbn [world_at] in He.
    destruct (api w) as [r w'] eqn:Hapi. cbn [fst] in He. subst r.
    rewrite truthy_count by lia.
    destruct (Z.eqb_spec (n - 1) 0); [lia|]. cbn [negb].
    rewrite (IH (n - 1) fuel (S calls) (slept ++ [interval]) w') by
      (try lia; intros i Hi; specialize (Hfail (S i) ltac:(lia));
       rewrite outcome_at_shift, Hapi in Hfail; exact Hfail).
    rewrite world_at_shift, Hapi. cbn [snd].
    replace (n - 1 - Z.of_nat j) with (n - Z.of_nat (S j)) by lia.
    replace (S calls + j)%nat with (calls + S j)%nat by lia.
    rewrite <- app_assoc. reflexivity.
Qed.

(** [j] falsy results within the budget bring [poll]'s loop to its
    [j]-th iteration. *)
Lemma poll_loop_falsy (j : nat) :
  forall (n : Z) (fuel calls : nat) (slept : list value) (w : World),
    Z.of_nat j <= n <= 2 ^ 53 ->
    (forall i, (i < j)%nat -> exists v, outcome_at api w i = Ok v /\ truthy v = false) ->
    (j <= fuel)%nat ->
    poll_loop fuel api interval (of_Z n) calls slept w =
    poll_loop (fuel - j) api interval (of_Z (n - Z.of_nat j)) (calls + j)
      (slept ++ repeat interval j) (world_at api w j).
Proof.
  induction j as [|j IH]; intros n fuel calls slept w Hn Hfalsy Hfuel.
  - rewrite Nat.sub_0_r, Nat.add_0_r, Z.sub_0_r, app_nil_r. reflexivity.
  - destruct fuel as [|fuel]; [lia|].
    cbn [poll_loop]. rewrite truthy_count by lia.
    destruct (Z.eqb_spec n 0); [lia|]. cbn [negb].
    rewrite sub_one by lia.
    destruct (Hfalsy 0%nat ltac:(lia)) as (v & Hv & Hf).
    unfold outcome_at in Hv. cbn [world_at] in Hv.
    destruct (api w) as [r w'] eqn:Hapi. cbn [fst] in Hv. subst r.
    rewrite Hf.
    rewrite (IH (n - 1) fuel (S calls) (slept ++ [interval]) w') by
      (try lia; intros i Hi; specialize (Hfalsy (S i) ltac:(lia));
       rewrite outcome_at_shift, Hapi in Hfalsy; exact Hfalsy).
    rewrite world_at_shift, Hapi. cbn [snd].
    replace (n - 1 - Z.of_nat j) with (n - Z.of_nat (S j)) by lia.
    replace (S calls + j)%nat with (calls + S j)%nat by lia.
    rewrite <- app_assoc. reflexivity.
Qed.

(** Within its budget [retry]'s loop ends with the operation's result or
    with the exception of the operation's last invocation. *)
Lemma retry_loop_ending (fuel : nat) :
  forall (n : Z) (calls : nat) (slept : list value) (w : World) (r : run),
    1 <= n <= 2 ^ 53 ->
    retry_loop fuel api interval (of_Z n) calls slept w = Some r ->
    exists i : nat,
      invocations r = (calls + S i)%nat /\
      ((exists v, ending r = Returned v /\ outcome_at api w i = Ok v) \/
       (exists e, ending r = Propagated e /\ outcome_at api w i = Throw e /\
                  Z.of_nat (S i) = n)).
Proof.
  induction fuel as [|fuel IH]; intros n calls slept w r Hn Hrun; [discriminate|].
  cbn [retry_loop] in Hrun. rewrite truthy_count in Hrun by lia.
  destruct (Z.eqb_spec n 0); [lia|]. cbn [negb] in Hrun.
  rewrite sub_one in Hrun by lia.
  destruct (api w) as [[v|e] w'] eqn:Hapi.
  - injection Hrun as <-. exists 0%nat. cbn. split; [lia|]. left. exists v.
    unfold outcome_at. cbn. rewrite Hapi. auto.
  - rewrite truthy_count in Hrun by lia.
    destruct (Z.eqb_spec (n - 1) 0) as [H1|H1]; cbn [negb] in Hrun.
    + injection Hrun as <-. exists 0%nat. cbn. split; [lia|]. right. exists e.
      unfold outcome_at. cbn. rewrite Hapi. repeat split; auto. lia.
    + apply IH in Hrun; [|lia]. destruct Hrun as (i & Hinv & Hend).
      exists (S i). split; [lia|]. rewrite !outcome_at_shift, Hapi. cbn [snd].
      destruct Hend as [(v & ? & ?)|(e' & ? & ? & ?)]; [left|right]; eauto.
      exists e'. repeat split; auto. lia.
Qed.

End Runs.

End AsyncFacts.

Module AsyncTheorems.
Import JSNumber Text JSValue Intl Helper NumberFacts AsyncFacts Sample.

Section Runs.
Context {World : Type}.
Variable api : @operation World.
Variable interval : value.

Lemma retry_loop_total (fuel : nat) :
  forall (n : Z) (calls : nat) (slept : list value) (w : World),
    1 <= n <= 2 ^ 53 -> n <= Z.of_nat fuel ->
    exists r, retry_loop fuel api interval (of_Z n) calls slept w = Some r.
Proof.
  induction fuel as [|fuel IH]; intros n calls slept w Hn Hfuel; [lia|].
  cbn [retry_loop]. rewrite truthy_count by lia.
  destruct (Z.eqb_spec n 0); [lia|]. cbn [negb].
  rewrite sub_one by lia.
  destruct (api w) as [[v|e] w']; [eauto|].
  rewrite truthy_count by lia.
  destruct (Z.eqb_spec (n - 1) 0); cbn [negb]; [eauto|].
  apply IH; lia.
Qed.

End Runs.

(** C3. [retry] with a budget of [n] attempts (a positive count, exactly
    representable as a Number) and enough fuel for them:
    - if the [j]-th invocation is the first to succeed, the run returns its
      result, whatever its truthiness, after [j + 1] invocations;
    - if all [n] invocations fail, the operation is invoked exactly [n]
      times, the first [n - 1] failures are swallowed (each followed by a
      sleep) and the last one reaches the caller;
    - the run always ends, never with [poll]'s exhaustion error and never
      through the final [return null]: what it raises is what the
      operation's last invocation raised;
    - [retry(always_fails, 1, 3)] invokes the operation 3 times and
      re-raises the third failure. *)
Theorem retry_spec {World : Type} (api : @operation World) (interval : value)
    (n : Z) (fuel : nat) (w : World) :
  1 <= n <= 2 ^ 53 -> n <= Z.of_nat fuel ->
  (forall (j : nat) (v : value),
      Z.of_nat j < n ->
      (forall i, (i < j)%nat -> exists e, outcome_at api w i = Throw e) ->
      outcome_at api w j = Ok v ->
      retry fuel api interval (Num (of_Z n)) w =
      Some (mkRun (Returned v) (S j) (repeat (or_default interval (Num (of_Z 100))) j)
              (world_at api w (S j)))) /\
  (forall e : error,
      (forall i, Z.of_nat i < n -> exists e', outcome_at api w i = Throw e') ->
      outcome_at api w (Z.to_nat (n - 1)) = Throw e ->
      retry fuel api interval (Num (of_Z n)) w =
      Some (mkRun (Propagated e) (Z.to_nat n)
              (repeat (or_default interval (Num (of_Z 100))) (Z.to_nat (n - 1)))
              (world_at api w (Z.to_nat n)))) /\
  (exists r : run,
      retry fuel api interval (Num (of_Z n)) w = Some r /\
      ending r <> Exhausted /\ ending r <> Fallback /\
      (forall e, settle r = Throw e ->
                 outcome_at api w (invocations r - 1) = Throw e /\
                 Z.of_nat (invocations r) = n)) /\
  (retry 3 always_fails (Num (of_Z 1)) (Num (of_Z 3)) 0%nat =
   Some (mkRun (Propagated (Error "attempt 2")) 3 [Num (of_Z 1); Num (of_Z 1)] 3%nat)).
Proof.
  intros Hn Hfuel. unfold retry. cbn [or_default ToNumber].
  set (itv := or_default interval (Num (of_Z 100))).
  split; [|split; [|split]].
  - intros j v Hj Hfail Hok.
    rewrite (retry_loop_failing api itv j) by (try assumption; lia).
    destruct (fuel - j)%nat as [|fuel'] eqn:Hf; [lia|].
    cbn [retry_loop]. rewrite truthy_count by lia.
    destruct (Z.eqb_spec (n - Z.of_nat j) 0); [lia|]. cbn [negb].
    unfold outcome_at in Hok.
    change (world_at api w (S j)) with (snd (api (world_at api w j))).
    destruct (api (world_at api w j)) as [r w']. cbn [fst] in Hok. subst r.
    reflexivity.
  - intros e Hall Hlast.
    assert (exists j : nat, n = Z.of_nat (S j)) as [j ->] by (exists (Z.to_nat (n - 1)); lia).
    replace (Z.to_nat (Z.of_nat (S j) - 1)) with j in * by lia.
    rewrite Nat2Z.id.
    rewrite (retry_loop_failing api itv j) by (try lia; intros i Hi; apply Hall; lia).
    destruct (fuel - j)%nat as [|fuel'] eqn:Hf; [lia|].
    replace (Z.of_nat (S j) - Z.of_nat j) with 1 by lia.
    cbn [retry_loop]. rewrite truthy_count by lia. cbn [Z.eqb negb].
    rewrite sub_one by lia.
    unfold outcome_at in Hlast.
    change (world_at api w (S j)) with (snd (api (world_at api w j))).
    destruct (api (world_at api w j)) as [r w']. cbn [fst] in Hlast. subst r.
    rewrite truthy_count by lia. cbn [Z.eqb negb].
    replace (0 + j)%nat with j by lia. reflexivity.
  - destruct (retry_loop_total api itv fuel n 0%nat [] w Hn Hfuel) as [r Hr].
    exists r. split; [exact Hr|].
    destruct (retry_loop_ending api itv fuel n 0%nat [] w r Hn Hr) as (i & Hinv & Hend).
    unfold settle.
    destruct Hend as [(v & -> & Hv)|(e & -> & He & Hi)];
      (split; [discriminate|]; split; [discriminate|]); intros e' He'.
    + discriminate.
    + injection He' as <-. rewrite Hinv. cbn [Nat.add].
      rewrite Nat.sub_succ, Nat.sub_0_r. split; [exact He|lia].
  - vm_compute. reflexivity.
Qed.

(** An operation that fails twice and then returns [null]: [retry] hands
    the falsy result over after the third invocation. *)
Lemma retry_spec_witness :
  retry 5 third_time_null (Num (of_Z 10)) (Num (of_Z 5)) 0%nat =
  Some (mkRun (Returned Null) 3 [Num (of_Z 10); Num (of_Z 10)] 3%nat).
Proof.
  refine (proj1 (retry_spec third_time_null (Num (of_Z 10)) 5 5 0%nat _ _) 2%nat Null _ _ _).
  - lia.
  - lia.
  - lia.
  - intros [|[|i]] Hi; [eexists; reflexivity|eexists; reflexivity|lia].
  - reflexivity.
Defined.

(** C4. [poll] with a budget of [n] attempts (a positive count, exactly
    representable as a Number) and enough fuel for them:
    - if the [j]-th invocation is the first with a truthy result, the run
      returns it after [j + 1] invocations;
    - if the [j]-th invocation is the first to fail, after falsy results,
      its exception reaches the caller at once: [j + 1] invocations and no
      more;
    - if all [n] invocations give falsy results, the operation is invoked
      exactly [n] times and the caller gets [MaxRetriesExceeded];
    - [poll(always_falsy, 1, 3)] fails with it after 3 invocations. *)
Theorem poll_spec {World : Type} (RETRY_DELAY : value) (api : @operation World)
    (interval : value) (n : Z) (fuel : nat) (w : World) :
  1 <= n <= 2 ^ 53 -> n < Z.of_nat fuel ->
  (forall (j : nat) (v : value),
      Z.of_nat j < n ->
      (forall i, (i < j)%nat -> exists u, outcome_at api w i = Ok u /\ truthy u = false) ->
      outcome_at api w j = Ok v -> truthy v = true ->
      poll RETRY_DELAY fuel api interval (Num (of_Z n)) w =
      Some (mkRun (Returned v) (S j) (repeat (or_default interval RETRY_DELAY) j)
              (world_at api w (S j)))) /\
  (forall (j : nat) (e : error),
      Z.of_nat j < n ->
      (forall i, (i < j)%nat -> exists u, outcome_at api w i = Ok u /\ truthy u = false) ->
      outcome_at api w j = Throw e ->
      poll RETRY_DELAY fuel api interval (Num (of_Z n)) w =
      Some (mkRun (Propagated e) (S j) (repeat (or_default interval RETRY_DELAY) j)
              (world_at api w (S j)))) /\
  ((forall i, Z.of_nat i < n -> exists u, outcome_at api w i = Ok u /\ truthy u = false) ->
   exists r : run,
     poll RETRY_DELAY fuel api interval (Num (of_Z n)) w = Some r /\
     ending r = Exhausted /\ settle r = Throw MaxRetriesExceeded /\
     Z.of_nat (invocations r) = n /\
     world r = world_at api w (Z.to_nat n)) /\
  (option_map (fun r => (settle r, invocations r))
     (poll RETRY_DELAY 4 always_falsy (Num (of_Z 1)) (Num (of_Z 3)) 0%nat) =
   Some (Throw MaxRetriesExceeded, 3%nat)).
Proof.
  intros Hn Hfuel. unfold poll. cbn [or_default ToNumber].
  set (itv := or_default interval RETRY_DELAY).
  split; [|split; [|split]].
  - intros j v Hj Hfalsy Hok Htrue.
    rewrite (poll_loop_falsy api itv j) by (try assumption; lia).
    destruct (fuel - j)%nat as [|fuel'] eqn:Hf; [lia|].
    cbn [poll_loop]. rewrite truthy_count by lia.
    destruct (Z.eqb_spec (n - Z.of_nat j) 0); [lia|]. cbn [negb].
    unfold outcome_at in Hok.
    change (world_at api w (S j)) with (snd (api (world_at api w j))).
    destruct (api (world_at api w j)) as [r w']. cbn [fst] in Hok. subst r.
    rewrite Htrue. reflexivity.
  - intros j e Hj Hfalsy Hthrow.
    rewrite (poll_loop_falsy api itv j) by (try assumption; lia).
    destruct (fuel - j)%nat as [|fuel'] eqn:Hf; [lia|].
    cbn [poll_loop]. rewrite truthy_count by lia.
    destruct (Z.eqb_spec (n - Z.of_nat j) 0); [lia|]. cbn [negb].
    unfold outcome_at in Hthrow.
    change (world_at api w (S j)) with (snd (api (world_at api w j))).
    destruct (api (world_at api w j)) as [r w']. cbn [fst] in Hthrow. subst r.
    reflexivity.
  - intros Hall.
    rewrite (poll_loop_falsy api itv (Z.to_nat n)) by (try lia; intros i Hi; apply Hall; lia).
    destruct (fuel - Z.to_nat n)%nat as [|fuel'] eqn:Hf; [lia|].
    rewrite Z2Nat.id by lia. rewrite Z.sub_diag.
    cbn [poll_loop]. rewrite truthy_count by lia. cbn [Z.eqb negb].
    eexists. split; [reflexivity|]. cbn [ending settle invocations world].
    repeat split. lia.
  - vm_compute. reflexivity.
Qed.

(** An operation that is not ready twice: [poll] returns what the third
    invocation yields. *)
Lemma poll_spec_witness :
  poll Undefined 4 third_time_ready (Num (of_Z 250)) (Num (of_Z 3)) 0%nat =
  Some (mkRun (Returned (Str "ready")) 3 [Num (of_Z 250); Num (of_Z 250)] 3%nat).
Proof.
  refine (proj1 (poll_spec Undefined third_time_ready (Num (of_Z 250)) 3 4 0%nat _ _)
            2%nat (Str "ready") _ _ _ _).
  - lia.
  - lia.
  - lia.
  - intros [|[|i]] Hi; [eexists; split; reflexivity|eexists; split; reflexivity|lia].
  - reflexivity.
  - reflexivity.
Defined.

End AsyncTheorems.

Module ValueFacts.
Import JSNumber Text JSValue Intl Helper NumberFacts.



Lemma get_truthy (v : value) (k : string) : truthy v = true -> exists u, get v k = Ok u.
Proof. destruct v; cbn; try discriminate; eauto. Qed.

(** A key that no object inherits is looked up among the object's own
    properties only. *)
Lemma get_object (fields : gmap string value) (k : string) :
  inherited "Object" k = Undefined ->
  get (Obj fields) k = Ok (default Undefined (fields !! k)).
Proof.
  intros Hk. cbn [get]. unfold property. destruct (fields !! k); [reflexivity|].
  rewrite Hk. reflexivity.
Qed.

(** An own property is what the object shows under its key. *)
Lemma property_own (fields : gmap string value) (k : string) (v : value) :
  fields !! k = Some v -> property fields k = v.
Proof. intros H. unfold property. rewrite H. reflexivity. Qed.

Lemma typeof_boolean (v : value) :
  String.eqb (typeof v) "boolean" = true <-> exists b, v = Bool b.
Proof.
  split.
  - destruct v; cbn; try discriminate. eauto.
  - intros [b ->]. reflexivity.
Qed.

Lemma typeof_not_boolean (v : value) :
  String.eqb (typeof v) "boolean" = false <-> forall b, v <> Bool b.
Proof.
  split.
  - intros H b ->. discriminate.
  - intros H. destruct v; try reflexivity. exfalso. eapply H. reflexivity.
Qed.

Section Table.
Variable UNITS : value.



(** The rate of a settings object whose [exchangeRate] is an object. *)
Lemma rate_of_object (fields rates : gmap string value) :
  fields !! "exchangeRate" = Some (Obj rates) ->
  rate_of (Obj fields) =
  Ok (or_else (property rates (ToString (default Undefined (fields !! "fiat"))))
        (Num (of_Z 0))).
Proof.
  intros Hr. unfold rate_of, mbind, result_bind.
  rewrite !get_object by reflexivity. rewrite Hr. reflexivity.
Qed.

(** [toSatoshis] in unit mode. *)
Lemma toSatoshis_unit (amount : string) (fields : gmap string value) (denominator : value) :
  fields !! "displayFiat" = Some (Bool false) ->
  denominator_of UNITS (default Undefined (fields !! "unit")) = Ok denominator ->
  toSatoshis UNITS (Str amount) (Obj fields) =
  if decimal_pattern amount
  then Ok (Num (round (mul (StringToNumber amount) (ToNumber denominator))))
  else Throw InvalidInput.
Proof.
  intros Hdf Hden. unfold toSatoshis, mbind, result_bind.
  cbn [typeof ToString truthy negb].
  change (String.eqb "string" "string") with true. cbn [negb].
  destruct (decimal_pattern amount); cbn [negb]; [|reflexivity].
  rewrite !get_object by reflexivity. rewrite Hdf. cbn [default typeof truthy].
  change (String.eqb "boolean" "boolean") with true. cbn [negb].
  rewrite Hden. reflexivity.
Qed.

End Table.

Lemma of_Z_0 : of_Z 0 = Fin false 0.
Proof. reflexivity. Qed.

Lemma round_zero : round (Fin false 0) = Fin false 0.
Proof.
  rewrite round_unfold. pose proof W_pos.
  rewrite Z.mul_0_r, Z.add_0_l, Z.div_small by lia. reflexivity.
Qed.

End ValueFacts.

Module ConversionTheorems.
Import JSNumber Text JSValue Intl Helper NumberFacts ValueFacts Sample.

Local Ltac binds := unfold mbind, result_bind, mret, result_ret in *.



(** C10. The strings [""] and ["."] both match [toSatoshis]'s pattern.
    With [displayFiat] false and a unit whose denominator is a finite,
    non-negative Number, [toSatoshis("", settings)] returns [0] and
    [toSatoshis(".", settings)] returns [NaN], which is not an integer and
    not an [InvalidInput] error. *)
Theorem toSatoshis_empty_and_point (UNITS : value) (fields : gmap string value) (k : Z) :
  fields !! "displayFiat" = Some (Bool false) ->
  denominator_of UNITS (default Undefined (fields !! "unit")) = Ok (Num (Fin false k)) ->
  decimal_pattern "" = true /\ decimal_pattern "." = true /\
  toSatoshis UNITS (Str "") (Obj fields) = Ok (Num (Fin false 0)) /\
  toSatoshis UNITS (Str ".") (Obj fields) = Ok (Num NaN) /\
  isInteger (Num NaN) = false.
Proof.
  intros Hdf Hden.
  split; [reflexivity|]. split; [reflexivity|].
  pose proof (fun a => toSatoshis_unit UNITS a fields _ Hdf Hden) as Hrun.
  cbn [ToNumber] in Hrun.
  split; [|split; [|reflexivity]].
  - rewrite Hrun. change (decimal_pattern "") with true. cbn iota.
    change (StringToNumber "") with (Fin false 0).
    unfold mul. cbn [xorb]. rewrite Z.mul_0_l.
    change (round_ratio false 0 (W * W)) with (Fin false 0).
    rewrite round_zero. reflexivity.
  - rewrite Hrun. change (decimal_pattern ".") with true. cbn iota.
    assert (StringToNumber "." = NaN) as -> by (vm_compute; reflexivity).
    reflexivity.
Qed.

(** In BTC, [toSatoshis(".", settings)] is [NaN]. *)
Lemma toSatoshis_empty_and_point_witness :
  toSatoshis Sample.UNITS (Str ".") (unit_settings "btc") = Ok (Num NaN).
Proof.
  refine (proj1 (proj2 (proj2 (proj2
    (toSatoshis_empty_and_point Sample.UNITS
       (list_to_map [("displayFiat", Bool false); ("unit", Str "btc")])
       (100000000 * W) _ _))))).
  - vm_compute. reflexivity.
  - vm_compute. reflexivity.
Defined.

End ConversionTheorems.

Module FormatFacts.
Import JSNumber Text JSValue Intl Helper NumberFacts ValueFacts.

Lemma digit_option_8 : digit_option (Num (of_Z 8)) = Ok (Some 8).
Proof. vm_compute. reflexivity. Qed.

Section Host.
Variable host : Host.

(** The formatter [formatNumber] builds. *)
Lemma construct_decimal_8 :
  construct host HostDefault (mkOptions Decimal Undefined true Undefined (Num (of_Z 8))) =
  Ok (mkNumberFormat HostDefault Decimal EmptyString true 0 8).
Proof.
  unfold construct, mbind, result_bind.
  cbn [opt_style opt_minimumFractionDigits opt_maximumFractionDigits opt_useGrouping].
  rewrite digit_option_8. reflexivity.
Qed.




End Host.

(** Comparisons with 0 and 1. *)
Lemma of_Z_1 : of_Z 1 = Fin false W.
Proof. rewrite of_Z_nonneg by lia. rewrite Z.mul_1_l. reflexivity. Qed.

Lemma gtb_zero (x : number) :
  gtb x (of_Z 0) = true <->
  x = Inf false \/ exists s k, x = Fin s k /\ 0 < signed s k.
Proof.
  unfold gtb, ltb, compare. rewrite of_Z_0. cbn [signed].
  destruct x as [|[]|s k]; split; try discriminate; auto.
  - intros [H|(s & k & H & _)]; discriminate.
  - intros [H|(s & k & H & _)]; discriminate.
  - destruct (Z.compare_spec 0 (signed s k)); try discriminate. eauto 6.
  - intros [H|(s' & k' & [= <- <-] & Hk)]; [discriminate|].
    destruct (Z.compare_spec 0 (signed s k)); auto; lia.
Qed.

Lemma ltb_zero (x : number) :
  ltb x (of_Z 0) = true <->
  x = Inf true \/ exists s k, x = Fin s k /\ signed s k < 0.
Proof.
  unfold ltb, compare. rewrite of_Z_0. cbn [signed].
  destruct x as [|[]|s k]; split; try discriminate; auto.
  - intros [H|(s & k & H & _)]; discriminate.
  - intros [H|(s & k & H & _)]; discriminate.
  - destruct (Z.compare_spec (signed s k) 0); try discriminate. eauto 6.
  - intros [H|(s' & k' & [= <- <-] & Hk)]; [discriminate|].
    destruct (Z.compare_spec (signed s k) 0); auto; lia.
Qed.

Lemma ltb_one (x : number) :
  ltb x (of_Z 1) = true <->
  x = Inf true \/ exists s k, x = Fin s k /\ signed s k < W.
Proof.
  unfold ltb, compare. rewrite of_Z_1. cbn [signed].
  destruct x as [|[]|s k]; split; try discriminate; auto.
  - intros [H|(s & k & H & _)]; discriminate.
  - intros [H|(s & k & H & _)]; discriminate.
  - destruct (Z.compare_spec (signed s k) W); try discriminate. eauto 6.
  - intros [H|(s' & k' & [= <- <-] & Hk)]; [discriminate|].
    destruct (Z.compare_spec (signed s k) W); auto; lia.
Qed.

End FormatFacts.

Module FormatTheorems.
Import JSNumber Text JSValue Intl Helper NumberFacts ValueFacts FormatFacts Sample.




(** C6. When the currency rendering of a value [v] with [0 < |v| < 1]
    shows a zero followed by the decimal mark and two zeros (as ["$0.00"]
    does), [formatFiat] returns ["< "] followed by the rendering of the
    unit [0.01] with the sign of [v]; with a host that renders US dollars,
    [formatFiat(0.001, 'usd')] is ["< $0.01"] and [formatFiat(-0.001,
    'usd')] is ["< -$0.01"]. *)
Theorem formatFiat_below_one_cent (host : Host) (v : number) (currency : value)
    (intl : NumberFormat) :
  construct host HostDefault (mkOptions Currency currency true Undefined Undefined) = Ok intl ->
  gtb (abs v) (of_Z 0) = true -> ltb (abs v) (of_Z 1) = true ->
  zero_fraction_pattern (format host intl v) = true ->
  (gtb v (of_Z 0) = true ->
   formatFiat host (Num v) currency = Ok ("< " +:+ format host intl (of_ratio 1 100))) /\
  (ltb v (of_Z 0) = true ->
   formatFiat host (Num v) currency = Ok ("< " +:+ format host intl (opp (of_ratio 1 100)))) /\
  formatFiat dollar_host (Num (of_ratio 1 1000)) (Str "usd") = Ok "< $0.01" /\
  formatFiat dollar_host (Num (opp (of_ratio 1 1000))) (Str "usd") = Ok "< -$0.01".
Proof.
  intros Hc Hpos Hlt Hzero.
  assert (isNaN v = false) as Hnan by (destruct v; [discriminate| |]; reflexivity).
  apply gtb_zero in Hpos. apply ltb_one in Hlt.
  destruct Hlt as [Hlt|(s1 & k1 & Hv1 & Hlt)]; [destruct v; discriminate|].
  destruct Hpos as [Hpos|(s0 & k0 & Hv0 & Hpos)]; [destruct v; discriminate|].
  destruct v as [| |s k]; try discriminate.
  cbn [abs] in Hv0, Hv1. injection Hv0 as <- <-. injection Hv1 as <- <-.
  cbn [signed] in Hpos, Hlt.
  split; [|split; [|split]].
  - intros Hg. unfold formatFiat, mbind, result_bind. cbn [ToNumber]. rewrite Hnan, Hc.
    rewrite Hg, Hzero.
    assert (ltb (Fin s k) (of_Z 1) = true) as ->.
    { apply ltb_one. right. exists s, k. split; [reflexivity|]. destruct s; cbn [signed]; lia. }
    reflexivity.
  - intros Hl. unfold formatFiat, mbind, result_bind. cbn [ToNumber]. rewrite Hnan, Hc.
    rewrite Hzero.
    assert (gtb (Fin s k) (of_Z 0) = false) as ->.
    { apply ltb_zero in Hl as [Hl|(s' & k' & [= <- <-] & Hl)]; [discriminate|].
      destruct (gtb (Fin s k) (of_Z 0)) eqn:Hg; [|reflexivity].
      apply gtb_zero in Hg as [Hg|(s' & k' & [= <- <-] & Hg)]; [discriminate|lia]. }
    rewrite andb_false_r. cbn [andb abs].
    assert (ltb (Fin false k) (of_Z 1) = true) as ->.
    { apply ltb_one. right. exists false, k. cbn [signed]. split; [reflexivity|lia]. }
    assert (gtb (Fin false k) (of_Z 0) = true) as ->.
    { apply gtb_zero. right. exists false, k. cbn [signed]. split; [reflexivity|lia]. }
    reflexivity.
  - vm_compute. reflexivity.
  - vm_compute. reflexivity.
Qed.

(** A tenth of a cent, rendered by the sample host. *)
Lemma formatFiat_below_one_cent_witness :
  formatFiat dollar_host (Num (of_ratio 1 1000)) (Str "usd") =
  Ok ("< " +:+ format dollar_host
                 (mkNumberFormat HostDefault Currency "USD" true 2 2) (of_ratio 1 100)).
Proof.
  refine (proj1 (formatFiat_below_one_cent dollar_host (of_ratio 1 1000) (Str "usd")
                   (mkNumberFormat HostDefault Currency "USD" true 2 2) _ _ _ _) _).
  - reflexivity.
  - vm_compute. reflexivity.
  - vm_compute. reflexivity.
  - vm_compute. reflexivity.
  - vm_compute. reflexivity.
Defined.

(** C6, as stated, fails for a currency with three fraction digits: a
    host with the ISO 4217 table renders 0.0004 Kuwaiti dinars as
    ["KWD 0.000"], and [formatFiat(0.0004, 'kwd')] is ["< KWD 0.010"], ten
    times the smallest unit of the currency, which is rendered
    ["KWD 0.001"]. *)
Lemma formatFiat_three_fraction_digits :
  construct code_host HostDefault (mkOptions Currency (Str "kwd") true Undefined Undefined) =
    Ok (mkNumberFormat HostDefault Currency "KWD" true 3 3) /\
  format code_host (mkNumberFormat HostDefault Currency "KWD" true 3 3) (of_ratio 4 10000) =
    "KWD" +:+ no_break_space +:+ "0.000" /\
  formatFiat code_host (Num (of_ratio 4 10000)) (Str "kwd") =
    Ok ("< KWD" +:+ no_break_space +:+ "0.010") /\
  format code_host (mkNumberFormat HostDefault Currency "KWD" true 3 3) (of_ratio 1 1000) =
    "KWD" +:+ no_break_space +:+ "0.001" /\
  formatFiat code_host (Num (of_ratio 4 10000)) (Str "kwd") <>
    Ok ("< " +:+ format code_host (mkNumberFormat HostDefault Currency "KWD" true 3 3)
                   (of_ratio 1 1000)).
Proof.
  split; [reflexivity|]. split; [vm_compute; reflexivity|].
  split; [vm_compute; reflexivity|]. split; [vm_compute; reflexivity|].
  intros H. vm_compute in H. discriminate.
Qed.

End FormatTheorems.

Module DivisionFacts.
Import JSNumber Text JSValue Intl Helper NumberFacts ValueFacts FormatFacts.

(** The last place of a quotient below [2^j]. *)
Lemma ulp_shift_bound (a b j : Z) :
  0 <= a -> 0 < b -> 0 <= j -> a < b * 2 ^ j -> ulp_shift a b < j + 1022.
Proof.
  intros Ha Hb Hj Hlt. rewrite ulp_shift_eq.
  assert (0 < 2 ^ 1022) as HE by (apply Z.pow_pos_nonneg; lia).
  assert (2 ^ (j + 1022) = 2 ^ j * 2 ^ 1022) as Hp by (apply Z.pow_add_r; lia).
  set (E := 2 ^ 1022) in *. clearbody E.
  assert (0 <= a * E / b) as Hq by (apply Z.div_pos; nia).
  destruct (Z.eq_dec (a * E / b) 0) as [->|Hne]; [rewrite Z.log2_nonpos; lia|].
  apply Z.log2_lt_pow2; [lia|].
  apply Z.div_lt_upper_bound; [lia|].
  rewrite Hp. assert (0 < 2 ^ j) by (apply Z.pow_pos_nonneg; lia). nia.
Qed.

(** A quotient whose last place is at most one is below [2^53]. *)
Lemma ulp_shift_small (a b : Z) :
  0 <= a -> 0 < b -> ulp_shift a b <= 1074 -> a < b * 2 ^ 53.
Proof.
  intros Ha Hb Ht. rewrite ulp_shift_eq in Ht.
  destruct (Z.lt_ge_cases a (b * 2 ^ 53)) as [|Hge]; [assumption|exfalso].
  assert (2 ^ 1075 <= a * 2 ^ 1022 / b) as Hq.
  { apply Z.div_le_lower_bound; [lia|].
    replace (2 ^ 1075) with (2 ^ 53 * 2 ^ 1022) by (rewrite <- Z.pow_add_r by lia; reflexivity).
    assert (0 < 2 ^ 1022) as HE by (apply Z.pow_pos_nonneg; lia).
    revert HE. generalize (2 ^ 1022). intros E HE. nia. }
  apply Z.log2_le_mono in Hq. rewrite Z.log2_pow2 in Hq by lia. lia.
Qed.

(** Division of integers held exactly. *)
Lemma div_ints (s : bool) (a b : Z) :
  0 < b -> div (Fin s (a * W)) (Fin false (b * W)) = round_ratio s a b.
Proof.
  intros Hb. pose proof W_pos. unfold div.
  destruct (Z.eqb_spec (b * W) 0); [nia|].
  rewrite xorb_false_r. apply round_ratio_scale; lia.
Qed.

(** The remainder of integers held exactly. *)
Lemma rem_ints (s : bool) (a b : Z) :
  0 < b -> rem (Fin s (a * W)) (Fin false (b * W)) = Fin s (a mod b * W).
Proof.
  intros Hb. pose proof W_pos. rewrite rem_unfold by nia.
  rewrite Z.mul_mod_distr_r by lia. reflexivity.
Qed.

(** The integer part of the rounded quotient [a / b] is the integer part
    of the exact one, when the last place of the quotient is finer than
    [2 / b]: rounding cannot reach the next integer. *)
Lemma floor_round_ratio (s : bool) (a b : Z) :
  0 <= a -> 0 < b -> ulp_shift a b <= 1074 ->
  b < 2 * 2 ^ (1074 - ulp_shift a b) ->
  floor (round_ratio s a b) = Fin s ((if s then (a + b - 1) / b else a / b) * W).
Proof.
  intros Ha Hb Ht Hfine. pose proof W_pos as HW.
  rewrite round_ratio_unfold by assumption. cbv zeta.
  destruct (Z.eqb_spec a 0) as [->|Ha0].
  { rewrite floor_unfold. destruct s.
    - rewrite !Z.add_0_l. rewrite (Z.div_small (W - 1) W) by lia.
      rewrite (Z.div_small (b - 1) b) by lia. reflexivity.
    - rewrite Z.div_0_l by lia. rewrite Z.div_0_l by lia. reflexivity. }
  pose proof (ulp_shift_nonneg a b) as Ht0.
  set (t := ulp_shift a b) in *.
  set (R := 2 ^ (1074 - t)) in *.
  assert (0 < R) as HR by (apply Z.pow_pos_nonneg; lia).
  assert (0 < 2 ^ t) as HP by (apply Z.pow_pos_nonneg; lia).
  assert (W = R * 2 ^ t) as HWR.
  { unfold R. rewrite <- Z.pow_add_r by lia. rewrite W_eq. f_equal. lia. }
  replace (a * W) with (a * R * 2 ^ t) by (rewrite HWR; lia).
  rewrite rne_scale by lia.
  set (m := rne (a * R) b).
  pose proof (rne_bounds (a * R) b ltac:(nia) Hb) as Hm. fold m in Hm.
  pose proof (Z.div_mod a b ltac:(lia)) as Hdm.
  pose proof (Z.mod_pos_bound a b Hb) as Hr.
  set (d := a / b) in *. set (r := a mod b) in *.
  assert (0 <= d) as Hd by (apply Z.div_pos; lia).
  assert (d * R <= m) as Hlo.
  { unfold m. rewrite <- (rne_exact (d * R) b Hb). apply rne_mono; nia. }
  assert (m <= (d + 1) * R) as Hhi.
  { unfold m. rewrite <- (rne_exact ((d + 1) * R) b Hb). apply rne_mono; nia. }
  assert (m * 2 ^ t < OVERFLOW) as Hov.
  { assert (d < 2 ^ 53) as Hd53.
    { apply Z.div_lt_upper_bound; [lia|]. apply ulp_shift_small; assumption. }
    assert (m * 2 ^ t <= (d + 1) * W) as Hle by (rewrite HWR; nia).
    rewrite OVERFLOW_eq. replace 2098 with (1024 + 1074) by lia. rewrite Z.pow_add_r by lia.
    rewrite <- W_eq.
    assert (2 ^ 53 < 2 ^ 1024) as Hlt by (apply Z.pow_lt_mono_r; lia).
    revert Hlt. generalize (2 ^ 1024). intros B Hlt.
    clear - Hd53 Hle Hlt HW Hd. nia. }
  destruct (Z.leb_spec OVERFLOW (m * 2 ^ t)); [lia|].
  rewrite floor_unfold. destruct s; f_equal; f_equal.
  - (* the ceiling *)
    rewrite HWR.
    replace (m * 2 ^ t + R * 2 ^ t - 1) with ((m + R - 1) * 2 ^ t + (2 ^ t - 1)) by lia.
    assert (((m + R - 1) * 2 ^ t + (2 ^ t - 1)) / (R * 2 ^ t) = (m + R - 1) / R) as ->.
    { rewrite (Z.mul_comm R), <- Z.div_div by lia.
      rewrite Z.div_add_l by lia. rewrite (Z.div_small (2 ^ t - 1)) by lia.
      rewrite Z.add_0_r. reflexivity. }
    destruct (Z.eq_dec r 0) as [Hr0|Hr0].
    + assert (m = d * R) as ->.
      { unfold m. replace (a * R) with (d * R * b) by nia. apply rne_exact; lia. }
      replace (a + b - 1) with (d * b + (b - 1)) by lia.
      rewrite Z.div_add_l by lia. rewrite (Z.div_small (b - 1)) by lia.
      replace (d * R + R - 1) with (d * R + (R - 1)) by lia.
      rewrite Z.div_add_l by lia. rewrite (Z.div_small (R - 1)) by lia. reflexivity.
    + assert (d * R < m) by nia.
      assert ((m + R - 1) / R = d + 1) as ->.
      { symmetry. apply Z.div_unique with (r := m + R - 1 - R * (d + 1)); lia. }
      apply Z.div_unique with (r := r - 1); lia.
  - (* the floor *)
    rewrite HWR.
    rewrite (Z.div_mul_cancel_r m R (2 ^ t)) by lia.
    assert (m < (d + 1) * R) by nia.
    symmetry. apply Z.div_unique with (r := m - R * d); lia.
Qed.

(** A Number is an integer when it holds one exactly. *)
Lemma isIntegral_int (s : bool) (n : Z) : isIntegral (Fin s (n * W)) = true.
Proof. pose proof W_pos. rewrite isIntegral_unfold. rewrite Z.mod_mul by lia. reflexivity. Qed.

(** [x === 1] on an integer held exactly. *)
Lemma eqb_one (s : bool) (n : Z) : eqb (Fin s (n * W)) (of_Z 1) = (signed s n =? 1).
Proof.
  pose proof W_pos. rewrite of_Z_1. unfold eqb, compare. cbn [signed].
  destruct (Z.compare_spec (signed s (n * W)) W), (Z.eqb_spec (signed s n) 1);
    try reflexivity; destruct s; cbn [signed] in *; nia.
Qed.

Lemma const_144 : mul (of_Z 24) (of_Z 6) = Fin false (144 * W).
Proof. vm_compute. reflexivity. Qed.

Lemma const_6 : of_Z 6 = Fin false (6 * W).
Proof. apply of_Z_nonneg. lia. Qed.

End DivisionFacts.

Module TimeTheorems.
Import JSNumber Text JSValue Intl Helper NumberFacts ValueFacts FormatFacts DivisionFacts.

(** The rendering of an integer held exactly does not depend on how a
    zero is signed. *)
Lemma NumberToString_signed (s : bool) (q : Z) :
  0 <= q <= 2 ^ 53 ->
  NumberToString (Fin s (q * W)) = NumberToString (of_Z (signed s q)).
Proof.
  intros Hq. pose proof W_pos.
  destruct (Z.eq_dec q 0) as [->|Hq0].
  - destruct s; reflexivity.
  - rewrite of_Z_exact by (destruct s; cbn [signed]; lia).
    destruct s; cbn [signed].
    + destruct (Z.ltb_spec (- q) 0); [|lia]. rewrite Z.abs_neq by lia.
      rewrite Z.opp_involutive. reflexivity.
    + destruct (Z.ltb_spec q 0); [lia|]. rewrite Z.abs_eq by lia. reflexivity.
Qed.

(** The whole days and hours of [a] blocks, computed in Numbers. *)
Lemma days_and_hours (s : bool) (a : Z) :
  0 <= a <= 2 ^ 53 ->
  floor (div (Fin s (a * W)) (Fin false (144 * W))) =
    Fin s ((if s then (a + 144 - 1) / 144 else a / 144) * W) /\
  floor (div (rem (Fin s (a * W)) (Fin false (144 * W))) (Fin false (6 * W))) =
    Fin s ((if s then (a mod 144 + 6 - 1) / 6 else a mod 144 / 6) * W).
Proof.
  intros Ha. split.
  - rewrite div_ints by lia.
    pose proof (ulp_shift_bound a 144 46 ltac:(lia) ltac:(lia) ltac:(lia) ltac:(lia)) as Ht.
    apply floor_round_ratio; try lia.
    assert (2 ^ 7 <= 2 ^ (1074 - ulp_shift a 144)) by (apply Z.pow_le_mono_r; lia).
    lia.
  - rewrite rem_ints, div_ints by lia.
    pose proof (Z.mod_pos_bound a 144 ltac:(lia)) as Hr.
    pose proof (ulp_shift_bound (a mod 144) 6 5 ltac:(lia) ltac:(lia) ltac:(lia) ltac:(lia))
      as Ht.
    apply floor_round_ratio; try lia.
    assert (2 ^ 7 <= 2 ^ (1074 - ulp_shift (a mod 144) 6)) by (apply Z.pow_le_mono_r; lia).
    lia.
Qed.

(** C8. [getTimeTilAvailable] fails with [InvalidInput] exactly on what is
    not an integer Number.  For an integer [n] (of magnitude up to [2^53],
    where Numbers hold integers exactly) it returns ["<days> day(s) and
    <hours> hour(s)"] with [days = floor (n / 144)] and [hours = floor ((n
    % 144) / 6)], [%] being the remainder with the sign of [n]; the
    singular is used exactly at 1.  [getTimeTilAvailable(150)] is ["1 day
    and 1 hour"]. *)
Theorem getTimeTilAvailable_spec (v : value) (n : Z) :
  (getTimeTilAvailable v = Throw InvalidInput <-> isInteger v = false) /\
  (isInteger v = true -> exists s, getTimeTilAvailable v = Ok s) /\
  (Z.abs n <= 2 ^ 53 ->
   let days := n / 144 in
   let hours := Z.rem n 144 / 6 in
   getTimeTilAvailable (Num (of_Z n)) =
   Ok (NumberToString (of_Z days) +:+ " " +:+ (if days =? 1 then "day" else "days") +:+
       " and " +:+
       NumberToString (of_Z hours) +:+ " " +:+ (if hours =? 1 then "hour" else "hours"))) /\
  getTimeTilAvailable (Num (of_Z 150)) = Ok "1 day and 1 hour".
Proof.
  split; [|split; [|split]].
  - unfold getTimeTilAvailable. destruct (isInteger v); cbn [negb]; split; congruence.
  - intros Hi. unfold getTimeTilAvailable. rewrite Hi. cbn [negb]. eauto.
  - intros Hn days hours. unfold getTimeTilAvailable.
    rewrite of_Z_exact by assumption. cbn [isInteger ToNumber].
    rewrite isIntegral_int. cbn [negb].
    rewrite const_144, const_6.
    set (s := n <? 0). set (a := Z.abs n).
    destruct (days_and_hours s a ltac:(lia)) as [-> ->].
    assert (signed s (if s then (a + 144 - 1) / 144 else a / 144) = days) as Hdays.
    { unfold days, s, a. destruct (Z.ltb_spec n 0); cbn [signed].
      - rewrite Z.abs_neq by lia.
        apply Z.div_unique with (r := 144 * ((- n + 144 - 1) / 144) + n);
          pose proof (Z.div_mod (- n + 144 - 1) 144 ltac:(lia));
          pose proof (Z.mod_pos_bound (- n + 144 - 1) 144 ltac:(lia)); lia.
      - rewrite Z.abs_eq by lia. reflexivity. }
    assert (signed s (if s then (a mod 144 + 6 - 1) / 6 else a mod 144 / 6) = hours) as Hhours.
    { unfold hours, s, a. destruct (Z.ltb_spec n 0); cbn [signed].
      - rewrite Z.abs_neq by lia.
        replace (Z.rem n 144) with (- (- n mod 144)).
        2:{ rewrite <- (Z.opp_involutive n) at 2. rewrite Z.rem_opp_l by lia.
            rewrite Z.rem_mod_nonneg by lia. reflexivity. }
        pose proof (Z.mod_pos_bound (- n) 144 ltac:(lia)).
        apply Z.div_unique with (r := 6 * ((- n mod 144 + 6 - 1) / 6) - (- n mod 144));
          pose proof (Z.div_mod (- n mod 144 + 6 - 1) 6 ltac:(lia));
          pose proof (Z.mod_pos_bound (- n mod 144 + 6 - 1) 6 ltac:(lia)); lia.
      - rewrite Z.abs_eq by lia. rewrite Z.rem_mod_nonneg by lia. reflexivity. }
    assert (0 <= (if s then (a + 144 - 1) / 144 else a / 144) <= 2 ^ 53) as Hdr.
    { unfold a. destruct s.
      - split; [apply Z.div_pos; lia|]. apply Z.div_le_upper_bound; lia.
      - split; [apply Z.div_pos; lia|]. apply Z.div_le_upper_bound; lia. }
    assert (0 <= (if s then (a mod 144 + 6 - 1) / 6 else a mod 144 / 6) <= 2 ^ 53) as Hhr.
    { pose proof (Z.mod_pos_bound a 144 ltac:(lia)). destruct s.
      - split; [apply Z.div_pos; lia|]. apply Z.div_le_upper_bound; lia.
      - split; [apply Z.div_pos; lia|]. apply Z.div_le_upper_bound; lia. }
    rewrite !eqb_one, !NumberToString_signed by assumption.
    rewrite Hdays, Hhours. reflexivity.
  - vm_compute. reflexivity.
Qed.

(** 150 blocks in the past: the quotient and the remainder keep the
    sign, and the plural is used. *)
Lemma getTimeTilAvailable_spec_witness :
  getTimeTilAvailable (Num (of_Z (-150))) =
  Ok (NumberToString (of_Z (-2)) +:+ " days and " +:+ NumberToString (of_Z (-1)) +:+ " hours").
Proof.
  refine (proj1 (proj2 (proj2 (getTimeTilAvailable_spec Undefined (-150)))) _).
  lia.
Defined.

(** C8, as stated, fails for negative and for large block counts.  For
    [-150] the code's remainder keeps the sign of the count, so the hours
    are [-1], where the floor of [(-150 mod 144) / 6] is 23.  For [2^64]
    the days, [128102389400760775], are beyond what a Number holds, and
    are shown rounded.  The integer [2^53 + 3] is not a Number itself: the
    count the code receives is [2^53 + 4], an hour later. *)
Lemma getTimeTilAvailable_differs :
  (getTimeTilAvailable (Num (of_Z (-150))) = Ok "-2 days and -1 hours" /\
   Stated.time_til_available (-150) = "-2 days and 23 hours") /\
  (getTimeTilAvailable (Num (of_Z (2 ^ 64))) = Ok "128102389400760770 days and 2 hours" /\
   Stated.time_til_available (2 ^ 64) = "128102389400760775 days and 2 hours") /\
  (getTimeTilAvailable (Num (of_Z (2 ^ 53 + 3))) = Ok "62549994824590 days and 6 hours" /\
   Stated.time_til_available (2 ^ 53 + 3) = "62549994824590 days and 5 hours").
Proof. repeat split; vm_compute; reflexivity. Qed.

End TimeTheorems.

Module ArcFacts.
Import JSNumber Text JSValue Intl Helper NumberFacts ValueFacts FormatFacts.

Lemma round_ratio_not_NaN (s : bool) (a b : Z) : isNaN (round_ratio s a b) = false.
Proof.
  unfold round_ratio. destruct (a =? 0); [reflexivity|]. cbv zeta.
  match goal with |- context [OVERFLOW <=? ?k] => destruct (OVERFLOW <=? k) end; reflexivity.
Qed.

(** The difference of two finite Numbers is a Number or an infinity. *)
Lemma sub_not_NaN (x y : number) :
  isFinite x = true -> isFinite y = true -> isNaN (sub x y) = false.
Proof.
  destruct x as [| |s a], y as [| |t b]; try discriminate. intros _ _.
  unfold sub, opp, add.
  match goal with |- context [if ?c then _ else _] => destruct c end;
    [reflexivity|apply round_ratio_not_NaN].
Qed.

(** Apart from NaN, [x <= c] fails exactly when [x > c]. *)
Lemma leb_gtb (x c : number) :
  isNaN x = false -> isNaN c = false -> leb x c = negb (gtb x c).
Proof.
  unfold leb, gtb, ltb, compare.
  destruct x as [|[]|s a], c as [|[]|t b]; try discriminate; intros _ _; try reflexivity.
  rewrite (Z.compare_antisym (signed s a) (signed t b)).
  destruct (signed s a ?= signed t b); reflexivity.
Qed.

End ArcFacts.

Module ArcTheorems.
Import JSNumber Text JSValue Intl Helper NumberFacts ValueFacts FormatFacts ArcFacts Sample.

(** C5 (amended).  The path is the four commands below.  For finite
    angles the large-arc flag is ['1'] exactly when [endAngle - startAngle]
    exceeds 180.  The sweep flag is ['1'] exactly when [endAngle] is 360,
    whatever the start angle; exactly then the final x-coordinate is the
    un-nudged point's minus [0.01].  [generateArc(50, 50, 50, 0, 360)] has
    sweep flag ['1'] and ends at x = 49.99. *)
Theorem generateArc_flags (host : Host) (x y radius startAngle endAngle : number) :
  let start := polarToCartesian host x y radius endAngle in
  let end_ := polarToCartesian host x y radius startAngle in
  let span := sub endAngle startAngle in
  exists (largeArcFlag sweepFlag : string) (endX : number),
    generateArc host x y radius startAngle endAngle =
    join " "
      [ "M " +:+ NumberToString x +:+ " " +:+ NumberToString y;
        "L " +:+ NumberToString (px start) +:+ " " +:+ NumberToString (py start);
        "A " +:+ NumberToString radius +:+ " " +:+ NumberToString radius +:+ " 0 " +:+
          largeArcFlag +:+ " " +:+ sweepFlag +:+ " " +:+
          NumberToString endX +:+ " " +:+ NumberToString (py end_);
        "Z" ] /\
    (largeArcFlag = "1" \/ largeArcFlag = "0") /\
    (isFinite startAngle = true -> isFinite endAngle = true ->
     (largeArcFlag = "1" <-> gtb span (of_Z 180) = true)) /\
    (sweepFlag = "1" \/ sweepFlag = "0") /\
    (sweepFlag = "1" <-> eqb endAngle (of_Z 360) = true) /\
    (eqb endAngle (of_Z 360) = true -> endX = sub (px end_) (of_ratio 1 100)) /\
    (eqb endAngle (of_Z 360) = false -> endX = px end_) /\
    generateArc dollar_host (of_Z 50) (of_Z 50) (of_Z 50) (of_Z 0) (of_Z 360) =
    "M 50 50 L 49.99999999999999 0 A 50 50 0 1 1 49.99 0 Z".
Proof.
  intros start end_ span.
  exists (if leb span (of_Z 180) then "0" else "1"),
         (if eqb endAngle (of_Z 360) then "1" else "0"),
         (if eqb endAngle (of_Z 360) then sub (px end_) (of_ratio 1 100) else px end_).
  split; [reflexivity|].
  split; [destruct (leb span (of_Z 180)); auto|].
  split.
  { intros Hs He.
    rewrite (leb_gtb span (of_Z 180)) by
      (try reflexivity; apply sub_not_NaN; assumption).
    destruct (gtb span (of_Z 180)); cbn [negb]; split; congruence. }
  split; [destruct (eqb endAngle (of_Z 360)); auto|].
  split; [destruct (eqb endAngle (of_Z 360)); split; congruence|].
  split; [intros ->; reflexivity|].
  split; [intros ->; reflexivity|].
  vm_compute. reflexivity.
Qed.

(** The full circle of the spinner: both flags are set and the end point
    is nudged. *)
Lemma generateArc_flags_witness :
  exists (largeArcFlag sweepFlag : string) (endX : number),
    generateArc dollar_host (of_Z 50) (of_Z 50) (of_Z 50) (of_Z 0) (of_Z 360) =
    join " "
      [ "M " +:+ NumberToString (of_Z 50) +:+ " " +:+ NumberToString (of_Z 50);
        "L " +:+
          NumberToString (px (polarToCartesian dollar_host (of_Z 50) (of_Z 50) (of_Z 50)
                                (of_Z 360))) +:+ " " +:+
          NumberToString (py (polarToCartesian dollar_host (of_Z 50) (of_Z 50) (of_Z 50)
                                (of_Z 360)));
        "A " +:+ NumberToString (of_Z 50) +:+ " " +:+ NumberToString (of_Z 50) +:+ " 0 " +:+
          largeArcFlag +:+ " " +:+ sweepFlag +:+ " " +:+
          NumberToString endX +:+ " " +:+
          NumberToString (py (polarToCartesian dollar_host (of_Z 50) (of_Z 50) (of_Z 50)
                                (of_Z 0)));
        "Z" ] /\
    largeArcFlag = "1" /\ sweepFlag = "1" /\
    endX = sub (px (polarToCartesian dollar_host (of_Z 50) (of_Z 50) (of_Z 50) (of_Z 0)))
             (of_ratio 1 100).
Proof.
  destruct (generateArc_flags dollar_host (of_Z 50) (of_Z 50) (of_Z 50) (of_Z 0) (of_Z 360))
    as (l & sw & ex & Hpath & _ & Hlarge & _ & Hsweep & Hnudge & _).
  exists l, sw, ex.
  split; [exact Hpath|].
  split; [apply Hlarge; vm_compute; reflexivity|].
  split; [apply Hsweep; vm_compute; reflexivity|].
  apply Hnudge. vm_compute. reflexivity.
Defined.

(** C5, as stated, fails.  With a start angle of 90 and an end angle of
    360 the span is 270, yet the sweep flag is ['1'] and the final x is
    nudged (99.99 for 100); with a start angle of 90 and an end angle of
    450 the span is exactly 360, yet the sweep flag is ['0'] and nothing is
    nudged. *)
Lemma generateArc_sweep_follows_endAngle :
  generateArc dollar_host (of_Z 50) (of_Z 50) (of_Z 50) (of_Z 90) (of_Z 360) =
    "M 50 50 L 49.99999999999999 0 A 50 50 0 1 1 99.99 50 Z" /\
  eqb (sub (of_Z 360) (of_Z 90)) (of_Z 360) = false /\
  generateArc dollar_host (of_Z 50) (of_Z 50) (of_Z 50) (of_Z 90) (of_Z 450) =
    "M 50 50 L 100 49.999999999999986 A 50 50 0 1 0 100 50 Z" /\
  eqb (sub (of_Z 450) (of_Z 90)) (of_Z 360) = true.
Proof.
  split; [vm_compute; reflexivity|].
  split; [vm_compute; reflexivity|].
  split; vm_compute; reflexivity.
Qed.

End ArcTheorems.

Module RateTheorems.
Import JSNumber Text JSValue Intl Helper NumberFacts ValueFacts FormatFacts Sample.

Local Ltac binds := unfold mbind, result_bind, mret, result_ret in *.

(** What [calculateExchangeRate] does on well-formed arguments: the
    quotient [satoshis / rate / 10^8], the rate being [0] when
    [exchangeRate[fiat]] finds nothing, which makes the result an infinity or
    NaN; and [InvalidInput] for a non-integer, or a [displayFiat] that is
    not a boolean. *)
Lemma calculateExchangeRate_spec (UNITS satoshis settings : value) :
  denominator_of UNITS (Str "btc") = Ok (Num (of_Z 100000000)) ->
  (isInteger satoshis = false ->
   calculateExchangeRate UNITS satoshis settings = Throw InvalidInput) /\
  (isInteger satoshis = true -> truthy settings = true ->
   (forall b, get settings "displayFiat" <> Ok (Bool b)) ->
   calculateExchangeRate UNITS satoshis settings = Throw InvalidInput) /\
  (forall (fields rates : gmap string value) (b : bool),
      isInteger satoshis = true ->
      settings = Obj fields ->
      fields !! "displayFiat" = Some (Bool b) ->
      fields !! "exchangeRate" = Some (Obj rates) ->
      let entry := property rates (ToString (default Undefined (fields !! "fiat"))) in
      calculateExchangeRate UNITS satoshis settings =
      Ok (Num (div (div (ToNumber satoshis)
                      (ToNumber (or_else entry (Num (of_Z 0)))))
                 (of_Z 100000000))) /\
      (entry = Undefined ->
       exists x, calculateExchangeRate UNITS satoshis settings = Ok (Num x) /\
                 isFinite x = false)).
Proof.
  intros Hbtc. split; [|split].
  - intros Hi. unfold calculateExchangeRate. rewrite Hi. reflexivity.
  - intros Hi Ht Hdf. unfold calculateExchangeRate. rewrite Hi. cbn [negb]. binds.
    destruct (get_truthy settings "displayFiat" Ht) as [df Hget]. rewrite Hget.
    destruct (String.eqb (typeof df) "boolean") eqn:Hty; [|reflexivity].
    apply typeof_boolean in Hty as [b ->]. exfalso. eapply Hdf, Hget.
  - intros fields rates b Hi -> Hdf Hrates entry.
    assert (calculateExchangeRate UNITS satoshis (Obj fields) =
            Ok (Num (div (div (ToNumber satoshis)
                      (ToNumber (or_else entry (Num (of_Z 0)))))
                 (of_Z 100000000)))) as Hmain.
    { unfold calculateExchangeRate. rewrite Hi. cbn [negb]. binds.
      rewrite get_object by reflexivity. rewrite Hdf. cbn [default typeof].
      change (String.eqb "boolean" "boolean") with true. cbn [negb].
      pose proof (rate_of_object fields rates Hrates) as Hr. binds.
      rewrite Hr, Hbtc. reflexivity. }
    split; [exact Hmain|].
    intros Hnone. rewrite Hmain, Hnone. eexists. split; [reflexivity|].
    unfold or_else. cbn [truthy ToNumber]. rewrite of_Z_0. cbn [Z.eqb negb ToNumber].
    destruct satoshis as [| | |x| | |]; try discriminate. cbn [ToNumber].
    rewrite (of_Z_nonneg 100000000) by lia.
    destruct x as [|s|s k]; try reflexivity.
    unfold div at 2. cbn [Z.eqb]. destruct (k =? 0); reflexivity.
Qed.

(** C7, the defect.  With an integer amount and no settings object,
    [calculateExchangeRate] reads [displayFiat] off [undefined]: the
    caller gets a TypeError, not [InvalidInput].  Its siblings [toAmount]
    and [toSatoshis] test [!settings] first and raise [InvalidInput]. *)
Theorem calculateExchangeRate_absent_settings (host : Host) (UNITS : value) :
  calculateExchangeRate UNITS (Num (of_Z 1)) Undefined = Throw TypeError /\
  calculateExchangeRate UNITS (Num (of_Z 1)) Null = Throw TypeError /\
  TypeError <> InvalidInput /\
  toAmount host UNITS (Num (of_Z 1)) Undefined Undefined = Throw InvalidInput /\
  toSatoshis UNITS (Str "1") Undefined = Throw InvalidInput.
Proof.
  assert (isInteger (Num (of_Z 1)) = true) as Hi by (vm_compute; reflexivity).
  split; [unfold calculateExchangeRate; rewrite Hi; reflexivity|].
  split; [unfold calculateExchangeRate; rewrite Hi; reflexivity|].
  split; [discriminate|].
  split; [unfold toAmount; rewrite Hi; reflexivity|].
  vm_compute. reflexivity.
Qed.

End RateTheorems.

Module TextFacts.
Import JSNumber Text NumberFacts.

Lemma digit_char_spec (d : Z) :
  0 <= d <= 9 -> is_digit (digit_char d) = true /\ digit_value (digit_char d) = d.
Proof.
  intros Hd.
  assert (d = 0 \/ d = 1 \/ d = 2 \/ d = 3 \/ d = 4 \/ d = 5 \/ d = 6 \/ d = 7 \/
          d = 8 \/ d = 9) as Hc by lia.
  repeat (destruct Hc as [->|Hc]; [split; reflexivity|]). subst. split; reflexivity.
Qed.

Lemma all_chars_app (p : ascii -> bool) (a b : string) :
  all_chars p (a +:+ b) = all_chars p a && all_chars p b.
Proof.
  induction a as [|c a IH]; simpl; [reflexivity|]. rewrite IH, andb_assoc. reflexivity.
Qed.

Lemma all_chars_impl (p q : ascii -> bool) (s : string) :
  (forall c, p c = true -> q c = true) -> all_chars p s = true -> all_chars q s = true.
Proof.
  intros Hpq. induction s as [|c s IH]; cbn; [reflexivity|].
  intros [Hc Hs]%andb_prop. rewrite (Hpq c Hc), (IH Hs). reflexivity.
Qed.

Lemma all_digits_fixed (w : nat) : forall n, all_chars is_digit (fixed_digits w n) = true.
Proof.
  induction w as [|w IH]; intros n; cbn [fixed_digits]; [reflexivity|].
  rewrite all_chars_app, IH. cbn.
  destruct (digit_char_spec (n mod 10)) as [-> _]; [|reflexivity].
  pose proof (Z.mod_pos_bound n 10). lia.
Qed.

Lemma skip_digits_app (ds rest : string) :
  all_chars is_digit ds = true -> skip_digits (ds +:+ rest) = skip_digits rest.
Proof.
  induction ds as [|c ds IH]; simpl; [reflexivity|].
  intros [Hc Hs]%andb_prop. rewrite Hc. auto.
Qed.

Lemma take_digits_app (ds rest : string) :
  all_chars is_digit ds = true -> take_digits (ds +:+ rest) = ds +:+ take_digits rest.
Proof.
  induction ds as [|c ds IH]; simpl; [reflexivity|].
  intros [Hc Hs]%andb_prop. rewrite Hc, IH by assumption. reflexivity.
Qed.

Lemma app_empty_r (s : string) : s +:+ EmptyString = s.
Proof.
  induction s as [|c s IH]; [reflexivity|].
  change (String c (s +:+ EmptyString) = String c s). rewrite IH. reflexivity.
Qed.

Lemma skip_digits_all (ds : string) : all_chars is_digit ds = true -> skip_digits ds = EmptyString.
Proof.
  intros H. rewrite <- (app_empty_r ds). rewrite skip_digits_app by assumption. reflexivity.
Qed.

Lemma take_digits_all (ds : string) : all_chars is_digit ds = true -> take_digits ds = ds.
Proof.
  intros H. rewrite <- (app_empty_r ds) at 1. rewrite take_digits_app by assumption.
  cbn [take_digits]. apply app_empty_r.
Qed.

Lemma digits_value_from_app (a b : string) :
  forall acc, digits_value_from acc (a +:+ b) = digits_value_from (digits_value_from acc a) b.
Proof. induction a as [|c a IH]; intros acc; simpl; [reflexivity|]. apply IH. Qed.

Lemma digits_value_from_fixed (w : nat) :
  forall n acc,
    digits_value_from acc (fixed_digits w n) = acc * 10 ^ Z.of_nat w + n mod 10 ^ Z.of_nat w.
Proof.
  induction w as [|w IH]; intros n acc.
  - cbn [fixed_digits digits_value_from Z.of_nat]. rewrite Z.pow_0_r, Z.mod_1_r. lia.
  - cbn [fixed_digits]. rewrite digits_value_from_app, IH. cbn [digits_value_from].
    destruct (digit_char_spec (n mod 10)) as [_ ->];
      [pose proof (Z.mod_pos_bound n 10); lia|].
    rewrite Nat2Z.inj_succ, Z.pow_succ_r by lia.
    assert (0 < 10 ^ Z.of_nat w) by (apply Z.pow_pos_nonneg; lia).
    rewrite (Z.rem_mul_r n 10 (10 ^ Z.of_nat w)) by lia. lia.
Qed.

Lemma length_app (a b : string) :
  String.length (a +:+ b) = (String.length a + String.length b)%nat.
Proof. induction a as [|c a IH]; simpl; [reflexivity|]. rewrite IH. reflexivity. Qed.

Lemma length_fixed (w : nat) : forall n, String.length (fixed_digits w n) = w.
Proof.
  induction w as [|w IH]; intros n; cbn [fixed_digits]; [reflexivity|].
  rewrite length_app, IH. cbn. lia.
Qed.

Lemma count_digits_bound (fuel : nat) :
  forall n, 0 <= n -> Z.log2 n <= Z.of_nat fuel ->
            n < 10 ^ Z.of_nat (count_digits fuel n).
Proof.
  induction fuel as [|fuel IH]; intros n Hn Hlog.
  - cbn [count_digits]. destruct (Z.eq_dec n 0) as [->|]; [reflexivity|].
    assert (n < 2 ^ 1) by (apply Z.log2_lt_pow2; lia). cbn. lia.
  - cbn [count_digits]. destruct (Z.ltb_spec n 10) as [Hlt|Hge]; [cbn; lia|].
    rewrite Nat2Z.inj_succ, Z.pow_succ_r by lia.
    assert (n / 10 < 10 ^ Z.of_nat (count_digits fuel (n / 10))) as Hrec.
    { apply IH; [apply Z.div_pos; lia|].
      assert (Z.log2 (n / 10) <= Z.log2 (n / 2 ^ 3)).
      { apply Z.log2_le_mono. apply Z.div_le_compat_l; lia. }
      assert (Z.log2 (n / 2 ^ 3) = Z.log2 n - 3).
      { rewrite <- Z.shiftr_div_pow2 by lia. rewrite Z.log2_shiftr by lia.
        assert (3 <= Z.log2 n) by (apply Z.log2_le_pow2; lia). lia. }
      lia. }
    pose proof (Z.div_mod n 10 ltac:(lia)). pose proof (Z.mod_pos_bound n 10 ltac:(lia)).
    lia.
Qed.

Lemma decimal_digits (n : Z) : all_chars is_digit (decimal n) = true.
Proof. apply all_digits_fixed. Qed.

Lemma decimal_value (n : Z) : 0 <= n -> digits_value_from 0 (decimal n) = n.
Proof.
  intros Hn. unfold decimal. rewrite digits_value_from_fixed.
  rewrite Z.mod_small; [lia|]. split; [lia|].
  apply count_digits_bound; [lia|]. rewrite Z2Nat.id by apply Z.log2_nonneg. lia.
Qed.

Lemma count_digits_pos (fuel : nat) (n : Z) : (1 <= count_digits fuel n)%nat.
Proof. destruct fuel; cbn; [lia|]. destruct (n <? 10); lia. Qed.

(** A decimal representation starts with a digit. *)
Lemma decimal_head (n : Z) :
  exists c r, decimal n = String c r /\ is_digit c = true /\ all_chars is_digit r = true.
Proof.
  pose proof (decimal_digits n) as Hd. unfold decimal in *.
  pose proof (count_digits_pos (Z.to_nat (Z.log2 n)) n) as Hpos. fold (num_digits n) in Hpos.
  pose proof (length_fixed (num_digits n) n) as Hlen.
  destruct (fixed_digits (num_digits n) n) as [|c r]; [cbn in Hlen; lia|].
  cbn in Hd. apply andb_prop in Hd as [Hc Hr]. eauto.
Qed.

End TextFacts.

Module FixedPointFacts.
Import JSNumber Text JSValue Intl NumberFacts TextFacts.

Lemma digit_plain (c : ascii) : is_digit c = true -> plain c = true.
Proof. unfold plain. intros ->. reflexivity. Qed.

Lemma plain_not (c x : ascii) : plain c = true -> plain x = false -> Ascii.eqb c x = false.
Proof. intros Hc Hx. destruct (Ascii.eqb_spec c x); [congruence|reflexivity]. Qed.

Lemma digit_not (c x : ascii) : is_digit c = true -> is_digit x = false -> Ascii.eqb c x = false.
Proof. intros Hc Hx. destruct (Ascii.eqb_spec c x); [congruence|reflexivity]. Qed.

Lemma plain_not_space (c : ascii) : plain c = true -> negb (is_space c) = true.
Proof.
  unfold plain, is_digit, is_space. intros H.
  destruct (Ascii.eqb_spec c "."); [subst; reflexivity|].
  rewrite orb_false_r in H. apply andb_prop in H as [H1 H2].
  apply Z.leb_le in H1, H2.
  destruct (Z.leb_spec (code c) 13), (Z.eqb_spec (code c) 32), (Z.eqb_spec (code c) 160);
    try lia; rewrite ?andb_false_r; reflexivity.
Qed.

Lemma trim_right_id (s : string) :
  all_chars (fun c => negb (is_space c)) s = true -> trim_right s = s.
Proof.
  induction s as [|c s IH]; [reflexivity|]. cbn [all_chars trim_right].
  intros [Hc Hs]%andb_prop. rewrite IH by assumption.
  apply negb_true_iff in Hc. rewrite Hc. reflexivity.
Qed.

(** A string of digits and points that starts with a digit is read as a
    decimal literal. *)
Lemma StringToNumber_plain (c : ascii) (r : string) :
  is_digit c = true -> all_chars plain r = true ->
  StringToNumber (String c r) =
  match parse_decimal (String c r) with
  | Some (m, e) => of_decimal false m e
  | None => NaN
  end.
Proof.
  intros Hc Hr. unfold StringToNumber, trim.
  assert (is_space c = false) as Hsp
    by (apply negb_true_iff, plain_not_space, digit_plain, Hc).
  cbn [trim_left]. rewrite Hsp.
  rewrite trim_right_id.
  2:{ cbn [all_chars]. rewrite Hsp. cbn [negb andb].
      eapply all_chars_impl; [|exact Hr]. apply plain_not_space. }
  assert (signed_literal (String c r) =
          match parse_decimal (String c r) with
          | Some (m, e) => of_decimal false m e
          | None => NaN
          end) as Hlit.
  { unfold signed_literal, take_sign.
    rewrite (digit_not c "+"), (digit_not c "-") by (assumption || reflexivity).
    cbn [String.eqb]. rewrite (digit_not c "I") by (assumption || reflexivity).
    reflexivity. }
  destruct r as [|x r']; [exact Hlit|].
  cbn [all_chars] in Hr. apply andb_prop in Hr as [Hx _].
  rewrite (plain_not x "x"), (plain_not x "X"), (plain_not x "o"), (plain_not x "O"),
    (plain_not x "b"), (plain_not x "B") by (assumption || reflexivity).
  rewrite andb_false_r. exact Hlit.
Qed.

Lemma fixed_point_pattern (n f : Z) : decimal_pattern (fixed_point n f) = true.
Proof.
  unfold fixed_point, decimal_pattern. cbv zeta.
  pose proof (decimal_digits (n / 10 ^ f)) as Hd.
  destruct (f <=? 0).
  - rewrite (skip_digits_all _ Hd). reflexivity.
  - rewrite (skip_digits_app _ _ Hd).
    change ("." +:+ fixed_digits (Z.to_nat f) (n mod 10 ^ f))
      with (String "." (fixed_digits (Z.to_nat f) (n mod 10 ^ f))).
    cbn [skip_digits]. change (is_digit ".") with false. cbn iota.
    change (Ascii.eqb "." ".") with true. cbn iota.
    rewrite (skip_digits_all _ (all_digits_fixed _ _)). reflexivity.
Qed.

(** Reading back a fixed-point rendering gives the Number nearest to the
    rendered decimal. *)
Lemma fixed_point_number (n f : Z) :
  0 <= n -> 0 <= f -> StringToNumber (fixed_point n f) = round_ratio false n (10 ^ f).
Proof.
  intros Hn Hf.
  assert (0 < 10 ^ f) as Hp by (apply Z.pow_pos_nonneg; lia).
  pose proof (decimal_digits (n / 10 ^ f)) as Hd.
  destruct (decimal_head (n / 10 ^ f)) as (c & r & Hhead & Hc & Hr).
  assert (0 <= n / 10 ^ f) as Hi by (apply Z.div_pos; lia).
  unfold fixed_point. cbv zeta. destruct (Z.leb_spec f 0) as [Hf0|Hf0].
  - assert (f = 0) as -> by lia.
    rewrite Hhead, StringToNumber_plain by
      first [assumption | exact (all_chars_impl is_digit plain r digit_plain Hr)].
    rewrite <- Hhead. unfold parse_decimal.
    rewrite (take_digits_all _ Hd), (skip_digits_all _ Hd).
    rewrite Hhead at 1. cbn [is_empty andb]. rewrite app_empty_r.
    fold (digits_value_from 0 (decimal (n / 10 ^ 0))). unfold digits_value.
    rewrite decimal_value by assumption.
    cbn [String.length Z.of_nat Z.opp]. unfold of_decimal.
    cbn [Z.max Z.opp Z.compare]. rewrite Z.pow_0_r, Z.div_1_r, Z.mul_1_r. reflexivity.
  - set (D2 := fixed_digits (Z.to_nat f) (n mod 10 ^ f)).
    assert (all_chars is_digit D2 = true) as HD2 by apply all_digits_fixed.
    change ("." +:+ D2) with (String "." D2).
    assert (decimal (n / 10 ^ f) +:+ String "." D2 = String c (r +:+ String "." D2)) as Hstr
      by (rewrite Hhead; reflexivity).
    rewrite Hstr, StringToNumber_plain.
    2: assumption.
    2:{ rewrite all_chars_app. cbn [all_chars].
        rewrite (all_chars_impl is_digit plain r digit_plain Hr).
        rewrite (all_chars_impl is_digit plain D2 digit_plain HD2). reflexivity. }
    rewrite <- Hstr. unfold parse_decimal.
    rewrite (take_digits_app _ _ Hd), (skip_digits_app _ _ Hd).
    cbn [take_digits skip_digits]. change (is_digit ".") with false. cbn iota.
    rewrite app_empty_r.
    change (Ascii.eqb "." ".") with true. cbn iota.
    rewrite (take_digits_all _ HD2), (skip_digits_all _ HD2).
    rewrite Hhead at 1. cbn [is_empty andb].
    unfold digits_value. rewrite digits_value_from_app.
    rewrite decimal_value by assumption.
    unfold D2. rewrite digits_value_from_fixed, length_fixed.
    rewrite Z2Nat.id by lia.
    rewrite (Z.mod_small (n mod 10 ^ f)) by (apply Z.mod_pos_bound; lia).
    replace (n / 10 ^ f * 10 ^ f + n mod 10 ^ f) with n
      by (pose proof (Z.div_mod n (10 ^ f) ltac:(lia)); lia).
    unfold of_decimal.
    rewrite Z.max_r by lia. rewrite Z.opp_involutive, Z.max_l by lia.
    rewrite Z.pow_0_r, Z.mul_1_r. reflexivity.
Qed.

(** Dropping trailing zeros keeps the decimal's value. *)
Lemma trim_fraction_value (cut : nat) :
  forall n f n' f',
    0 <= n -> Z.of_nat cut <= f ->
    trim_fraction cut n f = (n', f') ->
    0 <= n' /\ 0 <= f' <= f /\ n * 10 ^ f' = n' * 10 ^ f.
Proof.
  induction cut as [|cut IH]; intros n f n' f' Hn Hf Ht; cbn [trim_fraction] in Ht.
  - injection Ht as <- <-. lia.
  - destruct (Z.eqb_spec (n mod 10) 0) as [Hm|Hm].
    + apply IH in Ht; [|apply Z.div_pos; lia|lia].
      destruct Ht as (Hn' & Hf' & Hv). repeat split; try lia.
      pose proof (Z.div_mod n 10 ltac:(lia)) as Hdm. rewrite Hm in Hdm.
      replace (10 ^ f) with (10 * 10 ^ (f - 1))
        by (rewrite <- Z.pow_succ_r by lia; f_equal; lia).
      nia.
    + injection Ht as <- <-. lia.
Qed.

End FixedPointFacts.

Module RoundingFacts.
Import JSNumber Text JSValue Intl Helper NumberFacts ValueFacts FormatFacts DivisionFacts.

(** [Math.round] of a value within half a unit of the integer [n]. *)
Lemma round_near (k n : Z) :
  0 <= n -> - W <= 2 * (k - n * W) < W -> round (Fin false k) = Fin false (n * W).
Proof.
  intros Hn Hk. pose proof W_pos. rewrite round_unfold. cbv iota. f_equal. f_equal.
  symmetry. apply Z.div_unique with (r := 2 * k + W - 2 * W * n); lia.
Qed.

End RoundingFacts.

Module RoundTripFacts.
Import JSNumber Text JSValue Intl Helper NumberFacts ValueFacts FormatFacts DivisionFacts
  TextFacts FixedPointFacts RoundingFacts.

Lemma digit_option_0 : digit_option (Num (of_Z 0)) = Ok (Some 0).
Proof. vm_compute. reflexivity. Qed.

Section Table.
Variable host : Host.
Variable UNITS : value.

(** [toAmount] in unit mode. *)
Lemma toAmount_unit (x : number) (fields : gmap string value) (denominator : value) :
  isIntegral x = true ->
  fields !! "displayFiat" = Some (Bool false) ->
  denominator_of UNITS (default Undefined (fields !! "unit")) = Ok denominator ->
  toAmount host UNITS (Num x) (Obj fields) Undefined =
  Ok (en_US_decimal unit_format (div x (ToNumber denominator))).
Proof.
  intros Hi Hdf Hden. unfold toAmount, mbind, result_bind.
  cbn [isInteger truthy negb]. rewrite Hi. cbn [negb].
  rewrite !get_object by reflexivity. rewrite Hdf. cbn [default from_option id typeof truthy].
  change (String.eqb "boolean" "boolean") with true. cbn [negb].
  rewrite Hden.
  unfold construct, mbind, result_bind.
  cbn [opt_style opt_minimumFractionDigits opt_maximumFractionDigits opt_useGrouping].
  rewrite digit_option_0, digit_option_8. reflexivity.
Qed.

End Table.

(** A rendering with a minus sign does not match [toSatoshis]'s pattern. *)
Lemma signed_rendering_rejected (nf : NumberFormat) (x : number) :
  (exists k, x = Fin true k) \/ x = Inf true ->
  decimal_pattern (en_US_decimal nf x) = false.
Proof.
  intros [[k ->]| ->]; unfold en_US_decimal.
  - destruct (raw_fixed k (nf_minimumFractionDigits nf) (nf_maximumFractionDigits nf))
      as [n f].
    destruct (nf_useGrouping nf); reflexivity.
  - reflexivity.
Qed.

End RoundTripFacts.

(** ** The matcher decides the patterns *)

Module RegExpFacts.
Import Text RegExp TextFacts.

Lemma app_eq_empty (a b : string) :
  a +:+ b = EmptyString -> a = EmptyString /\ b = EmptyString.
Proof. destruct a; simpl; [auto|discriminate]. Qed.

Lemma lang_void (s : string) : ~ lang Void s.
Proof. intros H. inversion H. Qed.

Lemma lang_eps_inv (s : string) : lang Eps s -> s = EmptyString.
Proof. intros H. inversion H. reflexivity. Qed.

Lemma nullable_spec (r : regex) : nullable r = true <-> lang r EmptyString.
Proof.
  split.
  - induction r as [| |p|a IHa b IHb|a IHa b IHb|a _]; cbn [nullable]; intros H;
      try discriminate.
    + constructor.
    + apply orb_true_iff in H as [H|H]; [apply lang_alt_l|apply lang_alt_r]; auto.
    + apply andb_true_iff in H as [Ha Hb].
      change (lang (Seq a b) (EmptyString +:+ EmptyString)). constructor; auto.
    + constructor.
  - intros H. remember EmptyString as e eqn:He.
    induction H as [|p c Hc|a b s _ IH|a b s _ IH|a b s1 s2 _ IH1 _ IH2|a|a s1 s2 _ _ _ _];
      cbn [nullable]; try reflexivity; try discriminate.
    + rewrite (IH He). reflexivity.
    + rewrite (IH He). apply orb_true_r.
    + apply app_eq_empty in He as [-> ->]. rewrite IH1, IH2 by reflexivity. reflexivity.
Qed.

Lemma seq_spec (r1 r2 : regex) (s : string) : lang (seq r1 r2) s <-> lang (Seq r1 r2) s.
Proof.
  assert (forall u, lang (Seq r1 Eps) u <-> lang r1 u) as Heps.
  { intros u. split; intros H.
    - inversion H as [| | | |a b s1 s2 H1 H2| |]; subst.
      apply lang_eps_inv in H2 as ->. rewrite app_empty_r. exact H1.
    - rewrite <- (app_empty_r u). constructor; [exact H|constructor]. }
  assert (forall u, ~ lang (Seq r1 Void) u) as Hvoid.
  { intros u H. inversion H as [| | | |a b s1 s2 H1 H2| |]; subst. inversion H2. }
  destruct r1; cbn [seq].
  - split; intros H; [inversion H|].
    inversion H as [| | | |a b s1 s2 H1 H2| |]; subst. inversion H1.
  - split; intros H.
    + change s with (EmptyString +:+ s). constructor; [constructor|exact H].
    + inversion H as [| | | |a b s1 s2 H1 H2| |]; subst.
      apply lang_eps_inv in H1 as ->. exact H2.
  - destruct r2; try reflexivity;
      [split; intros H; [inversion H|destruct (Hvoid s H)]|symmetry; apply Heps].
  - destruct r2; try reflexivity;
      [split; intros H; [inversion H|destruct (Hvoid s H)]|symmetry; apply Heps].
  - destruct r2; try reflexivity;
      [split; intros H; [inversion H|destruct (Hvoid s H)]|symmetry; apply Heps].
  - destruct r2; try reflexivity;
      [split; intros H; [inversion H|destruct (Hvoid s H)]|symmetry; apply Heps].
Qed.

Lemma alt_spec (r1 r2 : regex) (s : string) : lang (alt r1 r2) s <-> lang (Alt r1 r2) s.
Proof.
  assert (lang (Alt r1 Void) s <-> lang r1 s) as Hr.
  { split; intros H; [|apply lang_alt_l; exact H].
    inversion H as [| |a b u H1|a b u H1| | |]; subst; [exact H1|inversion H1]. }
  assert (lang (Alt Void r2) s <-> lang r2 s) as Hl.
  { split; intros H; [|apply lang_alt_r; exact H].
    inversion H as [| |a b u H1|a b u H1| | |]; subst; [inversion H1|exact H1]. }
  destruct r1; cbn [alt]; try (symmetry; exact Hl);
    destruct r2; try reflexivity; symmetry; exact Hr.
Qed.

(** The pattern left after [c] matches what the pattern matches after
    [c]. *)
Lemma deriv_sound (c : ascii) (r : regex) :
  forall s, lang (deriv c r) s -> lang r (String c s).
Proof.
  induction r as [| |p|a IHa b IHb|a IHa b IHb|a IHa]; intros s H; cbn [deriv] in H.
  - inversion H.
  - inversion H.
  - destruct (p c) eqn:Hp; [|inversion H].
    apply lang_eps_inv in H as ->. constructor. exact Hp.
  - apply alt_spec in H.
    inversion H as [| |x y u H1|x y u H1| | |]; subst;
      [apply lang_alt_l|apply lang_alt_r]; auto.
  - apply alt_spec in H.
    inversion H as [| |x y u H1|x y u H1| | |]; subst.
    + apply seq_spec in H1.
      inversion H1 as [| | | |x' y' s1 s2 H2 H3| |]; subst.
      change (String c (s1 +:+ s2)) with (String c s1 +:+ s2).
      constructor; auto.
    + destruct (nullable a) eqn:Hn; [|inversion H1].
      change (String c s) with (EmptyString +:+ String c s).
      constructor; [apply nullable_spec; exact Hn|auto].
  - apply seq_spec in H.
    inversion H as [| | | |x' y' s1 s2 H2 H3| |]; subst.
    change (String c (s1 +:+ s2)) with (String c s1 +:+ s2).
    constructor; auto.
Qed.

Lemma deriv_complete (c : ascii) (r : regex) (t : string) :
  lang r t -> forall s, t = String c s -> lang (deriv c r) s.
Proof.
  induction 1 as [|p d Hd|a b u _ IH|a b u _ IH|a b s1 s2 H1 IH1 H2 IH2|a
                  |a s1 s2 H1 IH1 H2 IH2]; intros s Heq; cbn [deriv].
  - discriminate.
  - injection Heq as -> <-. rewrite Hd. constructor.
  - apply alt_spec, lang_alt_l. auto.
  - apply alt_spec, lang_alt_r. auto.
  - apply alt_spec. destruct s1 as [|d s1].
    + apply lang_alt_r. simpl in Heq.
      assert (nullable a = true) as -> by (apply nullable_spec; exact H1). auto.
    + apply lang_alt_l, seq_spec.
      change (String d s1 +:+ s2) with (String d (s1 +:+ s2)) in Heq.
      injection Heq as -> <-. constructor; auto.
  - discriminate.
  - destruct s1 as [|d s1].
    + simpl in Heq. apply IH2 in Heq. exact Heq.
    + apply seq_spec.
      change (String d s1 +:+ s2) with (String d (s1 +:+ s2)) in Heq.
      injection Heq as -> <-. constructor; auto.
Qed.

(** The matcher accepts exactly the strings of the pattern. *)
Lemma test_spec (s : string) : forall r, test r s = true <-> lang r s.
Proof.
  induction s as [|c s IH]; intros r; cbn [test].
  - apply nullable_spec.
  - rewrite IH. split; [apply deriv_sound|].
    intros H. exact (deriv_complete c r _ H s eq_refl).
Qed.

(** What the pieces of the validators' patterns match. *)
Lemma lang_literal (w : string) : forall s, lang (literal w) s <-> s = w.
Proof.
  induction w as [|c w IH]; intros s; cbn [literal].
  - split; [apply lang_eps_inv|intros ->; constructor].
  - split.
    + intros H. inversion H as [| | | |a b s1 s2 H1 H2| |]; subst.
      inversion H1 as [|p d Hd| | | | |]; subst.
      apply Ascii.eqb_eq in Hd as <-. apply IH in H2 as ->. reflexivity.
    + intros ->. change (String c w) with (String c EmptyString +:+ w).
      constructor; [constructor; apply Ascii.eqb_refl|apply IH; reflexivity].
Qed.

(** One character in front of a string. *)
Local Ltac cons_app :=
  repeat match goal with
         | |- context [String ?c EmptyString +:+ ?s] =>
             change (String c EmptyString +:+ s) with (String c s)
         end.

Lemma lang_seq_inv (r1 r2 : regex) (s : string) :
  lang (Seq r1 r2) s -> exists s1 s2, s = s1 +:+ s2 /\ lang r1 s1 /\ lang r2 s2.
Proof. intros H. inversion H; subst. eauto. Qed.

Lemma lang_chars_inv (p : ascii -> bool) (s : string) :
  lang (Chars p) s -> exists c, s = String c EmptyString /\ p c = true.
Proof. intros H. inversion H; subst. eauto. Qed.

Lemma lang_star_chars (p : ascii -> bool) (s : string) :
  lang (Star (Chars p)) s <-> all_chars p s = true.
Proof.
  split.
  - intros H. remember (Star (Chars p)) as r eqn:Hr.
    induction H as [| | | | |a|a s1 s2 H1 _ H2 IH2]; try discriminate; [reflexivity|].
    injection Hr as ->. apply lang_chars_inv in H1 as (c & -> & Hc).
    cons_app. cbn [all_chars]. rewrite Hc. apply IH2. reflexivity.
  - induction s as [|c s IH]; cbn [all_chars]; intros H; [constructor|].
    apply andb_true_iff in H as [Hc Hs].
    change (String c s) with (String c EmptyString +:+ s).
    constructor; [constructor; exact Hc|auto].
Qed.

Lemma lang_power_chars (p : ascii -> bool) (n : nat) :
  forall s, lang (power (Chars p) n) s <-> String.length s = n /\ all_chars p s = true.
Proof.
  induction n as [|n IH]; intros s; cbn [power].
  - split.
    + intros H. apply lang_eps_inv in H as ->. auto.
    + intros [Hl _]. destruct s; [constructor|discriminate].
  - split.
    + intros H. inversion H as [| | | |a b s1 s2 H1 H2| |]; subst.
      apply lang_chars_inv in H1 as (c & -> & Hc). apply IH in H2 as [Hl Ha].
      cons_app. cbn [all_chars String.length]. rewrite Hc, Hl. auto.
    + intros [Hl Ha]. destruct s as [|c s]; [discriminate|].
      cbn in Hl, Ha. apply andb_true_iff in Ha as [Hc Ha].
      change (String c s) with (String c EmptyString +:+ s).
      constructor; [constructor; exact Hc|apply IH; split; [lia|exact Ha]].
Qed.

Lemma lang_upto_chars (p : ascii -> bool) (n : nat) :
  forall s, lang (upto (Chars p) n) s <-> (String.length s <= n)%nat /\ all_chars p s = true.
Proof.
  induction n as [|n IH]; intros s; cbn [upto].
  - split.
    + intros H. apply lang_eps_inv in H as ->. auto.
    + intros [Hl _]. destruct s; [constructor|cbn in Hl; lia].
  - split.
    + intros H. inversion H as [| |a b u H1|a b u H1| | |]; subst.
      * apply lang_eps_inv in H1 as ->. cbn. split; [lia|reflexivity].
      * inversion H1 as [| | | |a b s1 s2 H2 H3| |]; subst.
        apply lang_chars_inv in H2 as (c & -> & Hc). apply IH in H3 as [Hl Ha].
        cons_app. cbn [all_chars String.length]. rewrite Hc. split; [lia|exact Ha].
    + intros [Hl Ha]. destruct s as [|c s]; [apply lang_alt_l; constructor|].
      cbn in Hl, Ha. apply andb_true_iff in Ha as [Hc Ha].
      apply lang_alt_r. change (String c s) with (String c EmptyString +:+ s).
      constructor; [constructor; exact Hc|apply IH; split; [lia|exact Ha]].
Qed.

(** A string cut after its first [n] characters. *)
Lemma split_at (n : nat) :
  forall s, (n <= String.length s)%nat ->
            exists a b, s = a +:+ b /\ String.length a = n.
Proof.
  induction n as [|n IH]; intros s Hn.
  - exists EmptyString, s. auto.
  - destruct s as [|c s]; [cbn in Hn; lia|].
    destruct (IH s) as (a & b & -> & Hl); [cbn in Hn; lia|].
    exists (String c a), b. cbn. rewrite Hl. auto.
Qed.

End RegExpFacts.

(** ** The validators *)

Module ValidatorTheorems.
Import Text JSValue RegExp Utilities TextFacts RegExpFacts.

(** X1.  [isLnUri] accepts a String exactly when it is ['lightning:ln']
    followed by letters and digits only; so an accepted String has no
    character other than letters, digits and the colon. *)
Theorem isLnUri_spec (s : string) :
  (isLnUri (Str s) = true <->
   exists rest, s = "lightning:ln" +:+ rest /\ all_chars alphanumeric rest = true) /\
  (isLnUri (Str s) = true ->
   all_chars (fun c => alphanumeric c || Ascii.eqb c ":") s = true).
Proof.
  assert (isLnUri (Str s) = true <->
          exists rest, s = "lightning:ln" +:+ rest /\ all_chars alphanumeric rest = true)
    as Hiff.
  { unfold isLnUri. cbn [ToString]. rewrite test_spec. split.
    - intros H. apply lang_seq_inv in H as (s1 & s2 & -> & H1 & H2).
      apply lang_literal in H1 as ->. apply lang_star_chars in H2. eauto.
    - intros (rest & -> & Hr).
      constructor; [apply lang_literal; reflexivity|apply lang_star_chars; exact Hr]. }
  split; [exact Hiff|].
  intros H. apply Hiff in H as (rest & -> & Hr).
  rewrite all_chars_app. apply andb_true_iff. split; [reflexivity|].
  apply (all_chars_impl alphanumeric); [|exact Hr].
  intros c Hc. rewrite Hc. reflexivity.
Qed.

(** X2.  [isAddress] accepts a String exactly when it has between 26 and
    90 characters, all of them letters or digits. *)
Theorem isAddress_spec (s : string) :
  isAddress (Str s) = true <->
  (26 <= String.length s <= 90)%nat /\ all_chars alphanumeric s = true.
Proof.
  unfold isAddress, bounded. cbn [ToString]. rewrite test_spec. split.
  - intros H. apply lang_seq_inv in H as (s1 & s2 & -> & H1 & H2).
    apply lang_power_chars in H1 as [Hl1 Ha1].
    apply lang_upto_chars in H2 as [Hl2 Ha2].
    rewrite length_app, all_chars_app, Ha1, Ha2, Hl1.
    change (90 - 26)%nat with 64%nat in Hl2. split; [lia|reflexivity].
  - intros [Hl Ha].
    destruct (split_at 26 s ltac:(lia)) as (a & b & -> & Hla).
    rewrite length_app in Hl. rewrite all_chars_app in Ha.
    apply andb_true_iff in Ha as [Ha Hb].
    constructor; [apply lang_power_chars; auto|].
    apply lang_upto_chars. change (90 - 26)%nat with 64%nat. split; [lia|exact Hb].
Qed.

End ValidatorTheorems.

(** ** Buffers *)

Module BufferFacts.
Import Text JSValue Helper Utilities TextFacts.

(** The loop of [reverse], from its [a]-th round on: the entries outside
    [a .. n - 1 - a] are in place, and the rounds left fill the others. *)
Lemma reverse_loop_spec (src : list Byte.byte) (fuel : nat) :
  forall (a : nat) (buffer : list Byte.byte),
    let n := List.length src in
    List.length buffer = n ->
    (n <= 2 * a + 2 * fuel)%nat ->
    (2 * a <= n + 1)%nat ->
    (forall k, (k < n)%nat -> (k < a \/ n - 1 - a < k)%nat ->
               buffer !! k = src !! (n - 1 - k)%nat) ->
    let result := reverse_loop fuel src buffer (Z.of_nat a) (Z.of_nat n - 1 - Z.of_nat a) in
    List.length result = n /\
    forall k, (k < n)%nat -> result !! k = src !! (n - 1 - k)%nat.
Proof.
  induction fuel as [|fuel IH]; intros a buffer n Hlen Hfuel Ha Hdone result.
  - subst result. cbn [reverse_loop]. split; [exact Hlen|].
    intros k Hk. apply Hdone; lia.
  - subst result. cbn [reverse_loop].
    destruct (Z.leb_spec (Z.of_nat a) (Z.of_nat n - 1 - Z.of_nat a)) as [Hle|Hgt].
    + replace (Z.to_nat (Z.of_nat n - 1 - Z.of_nat a)) with (n - 1 - a)%nat by lia.
      rewrite Nat2Z.id.
      replace (Z.of_nat a + 1) with (Z.of_nat (S a)) by lia.
      replace (Z.of_nat n - 1 - Z.of_nat a - 1) with (Z.of_nat n - 1 - Z.of_nat (S a)) by lia.
      assert (is_Some (src !! a)) as [x Hx] by (apply lookup_lt_is_Some; lia).
      assert (is_Some (src !! (n - 1 - a)%nat)) as [y Hy] by (apply lookup_lt_is_Some; lia).
      rewrite Hx, Hy. cbn [default from_option id].
      apply IH.
      * rewrite !length_insert. exact Hlen.
      * lia.
      * lia.
      * intros k Hk Hout.
        destruct (Nat.eq_dec k (n - 1 - a)) as [->|Hkj].
        { rewrite list_lookup_insert_eq by (rewrite length_insert; lia).
          rewrite <- Hx. f_equal. lia. }
        rewrite list_lookup_insert_ne by lia.
        destruct (Nat.eq_dec k a) as [->|Hka].
        { rewrite list_lookup_insert_eq by lia. symmetry. exact Hy. }
        rewrite list_lookup_insert_ne by lia.
        apply Hdone; lia.
    + split; [exact Hlen|]. intros k Hk. apply Hdone; lia.
Qed.

Lemma reverse_rev (src : list Byte.byte) : reverse src = rev src.
Proof.
  unfold reverse.
  destruct (reverse_loop_spec src (List.length src) 0 (replicate (List.length src) Byte.x00))
    as [Hlen Hall].
  - apply length_replicate.
  - lia.
  - lia.
  - intros k Hk [Hk0|Hk0]; lia.
  - change (Z.of_nat 0) with 0 in Hlen, Hall. rewrite Z.sub_0_r in Hlen, Hall.
    apply list_eq. intros k.
    rewrite rev_alt. change (rev_append src []) with (list.reverse src).
    destruct (Nat.lt_ge_cases k (List.length src)) as [Hk|Hk].
    + rewrite Hall by exact Hk. rewrite reverse_lookup by exact Hk. f_equal. lia.
    + rewrite (proj2 (lookup_ge_None (list.reverse src) k)) by (rewrite length_reverse; lia).
      apply lookup_ge_None. lia.
Qed.

Lemma hex_digit_code (d : Z) :
  0 <= d < 16 -> code (hex_digit d) = if d <? 10 then 48 + d else 87 + d.
Proof.
  intros Hd. unfold hex_digit, code.
  destruct (Z.ltb_spec d 10); rewrite nat_ascii_embedding by lia; lia.
Qed.

Lemma hex_digit_is_hex (d : Z) : 0 <= d < 16 -> is_hex (hex_digit d) = true.
Proof.
  intros Hd. unfold is_hex, is_digit. rewrite hex_digit_code by assumption.
  destruct (Z.ltb_spec d 10); lia.
Qed.

Lemma hex_digit_inj (d e : Z) :
  0 <= d < 16 -> 0 <= e < 16 -> hex_digit d = hex_digit e -> d = e.
Proof.
  intros Hd He Heq. apply (f_equal code) in Heq.
  rewrite !hex_digit_code in Heq by assumption.
  destruct (Z.ltb_spec d 10), (Z.ltb_spec e 10); lia.
Qed.

Lemma byte_value_range (b : Byte.byte) : 0 <= byte_value b < 256.
Proof. unfold byte_value. pose proof (Byte.to_N_bounded b). lia. Qed.

Lemma byte_value_inj (a b : Byte.byte) : byte_value a = byte_value b -> a = b.
Proof.
  unfold byte_value. intros H. apply N2Z.inj in H.
  pose proof (Byte.of_to_N a) as Ha. rewrite H, Byte.of_to_N in Ha.
  injection Ha as ->. reflexivity.
Qed.

Lemma byte_of_value (n : Z) : 0 <= n < 256 -> byte_value (byte_of n) = n.
Proof.
  intros Hn. unfold byte_of, byte_value.
  destruct (Byte.of_N (Z.to_N n)) as [b|] eqn:Hb.
  - apply Byte.to_of_N in Hb. cbn [default from_option id]. rewrite Hb. lia.
  - pose proof (Byte.to_of_N_option_map (Z.to_N n)) as H. rewrite Hb in H.
    destruct (N.leb_spec (Z.to_N n) 255); [discriminate|lia].
Qed.

Lemma hex_length (bytes : list Byte.byte) :
  String.length (hex bytes) = (2 * List.length bytes)%nat.
Proof. induction bytes as [|b bytes IH]; cbn [hex String.length List.length]; lia. Qed.

Lemma hex_alphabet (bytes : list Byte.byte) : all_chars is_hex (hex bytes) = true.
Proof.
  induction bytes as [|b bytes IH]; cbn [hex all_chars]; [reflexivity|].
  pose proof (byte_value_range b).
  rewrite !hex_digit_is_hex, IH; [reflexivity| |].
  - apply Z.mod_pos_bound. lia.
  - split; [apply Z.div_pos; lia|apply Z.div_lt_upper_bound; lia].
Qed.

Lemma hex_inj (a : list Byte.byte) : forall b, hex a = hex b -> a = b.
Proof.
  induction a as [|x a IH]; intros [|y b] H; cbn [hex] in H; try discriminate; [reflexivity|].
  injection H as Hhi Hlo Hrest.
  pose proof (byte_value_range x). pose proof (byte_value_range y).
  apply hex_digit_inj in Hhi;
    [|split; [apply Z.div_pos; lia|apply Z.div_lt_upper_bound; lia]..].
  apply hex_digit_inj in Hlo; [|apply Z.mod_pos_bound; lia..].
  f_equal; [|apply IH; exact Hrest].
  apply byte_value_inj.
  rewrite (Z.div_mod (byte_value x) 16), (Z.div_mod (byte_value y) 16) by lia. lia.
Qed.

Lemma code_range (c : ascii) : 0 <= code c < 256.
Proof. unfold code. pose proof (nat_ascii_bounded c). lia. Qed.

Lemma utf8_ascii (s : string) :
  all_chars (fun c => code c <? 128) s = true -> map byte_value (utf8 s) = codes s.
Proof.
  induction s as [|c s IH]; cbn [all_chars utf8 codes]; intros H; [reflexivity|].
  apply andb_true_iff in H as [Hc Hs]. rewrite Hc. cbn [map].
  pose proof (code_range c). rewrite byte_of_value by lia. rewrite IH by exact Hs. reflexivity.
Qed.

Lemma utf8_length (s : string) :
  (String.length s <= List.length (utf8 s) <= 2 * String.length s)%nat.
Proof.
  induction s as [|c s IH]; cbn [utf8 String.length]; [cbn; lia|].
  destruct (code c <? 128); cbn [List.length]; lia.
Qed.

End BufferFacts.

Module BufferTheorems.
Import Text JSValue Helper Utilities TextFacts BufferFacts.

(** X3.  [reverse] returns the bytes of its argument in the opposite
    order, whatever the length (the middle byte of an odd length is
    written twice, an empty buffer not at all); reversing twice gives the
    buffer back. *)
Theorem reverse_spec (src : list Byte.byte) :
  reverse src = rev src /\ reverse (reverse src) = src.
Proof.
  split; [apply reverse_rev|].
  rewrite !reverse_rev. apply rev_involutive.
Qed.

(** X4.  [toHex] rejects what is not a buffer with [InvalidInput]; for a
    buffer it returns two lower-case hexadecimal digits per byte, and
    different buffers give different strings. *)
Theorem toHex_spec :
  (forall v : value, toHex (Plain v) = Throw InvalidInput) /\
  (forall bytes : list Byte.byte,
      exists h : string,
        toHex (Binary bytes) = Ok h /\
        String.length h = (2 * List.length bytes)%nat /\
        all_chars is_hex h = true /\
        forall other, toHex (Binary other) = Ok h -> other = bytes).
Proof.
  split; [reflexivity|].
  intros bytes. exists (hex bytes). cbn [toHex].
  split; [reflexivity|]. split; [apply hex_length|]. split; [apply hex_alphabet|].
  intros other H. injection H as H. symmetry. apply hex_inj. symmetry. exact H.
Qed.

(** X5.  [toBuffer] returns exactly when its argument is a String, and
    raises [InvalidInput] otherwise (a buffer included).  The buffer of a
    String has between one and two bytes per character; for 7-bit text it
    is the sequence of the character codes, so [toHex] of it has two
    digits per character. *)
Theorem toBuffer_spec :
  (forall str : data,
      toBuffer str = Throw InvalidInput <-> typeof_data str <> "string") /\
  (forall s : string,
      exists bytes : list Byte.byte,
        toBuffer (Plain (Str s)) = Ok bytes /\
        (String.length s <= List.length bytes <= 2 * String.length s)%nat /\
        (all_chars (fun c => code c <? 128) s = true ->
         map byte_value bytes = codes s /\
         exists h, toHex (Binary bytes) = Ok h /\
                   String.length h = (2 * String.length s)%nat)).
Proof.
  split.
  - intros str. unfold toBuffer.
    destruct str as [[| | | |s| |]|bytes]; cbn; split; intros H; congruence.
  - intros s. exists (utf8 s). split; [reflexivity|].
    split; [apply utf8_length|].
    intros Hascii. pose proof (utf8_ascii s Hascii) as Hcodes.
    split; [exact Hcodes|].
    exists (hex (utf8 s)). split; [reflexivity|].
    rewrite hex_length. apply (f_equal (@List.length Z)) in Hcodes.
    rewrite length_map in Hcodes. rewrite Hcodes.
    clear. induction s as [|c s IH]; cbn [codes List.length String.length]; lia.
Qed.

End BufferTheorems.

(** ** Capitalised labels *)

Module CapsFacts.
Import Text JSValue Intl Helper Utilities TextFacts.



Lemma append_assoc (a b c : string) : (a +:+ b) +:+ c = a +:+ (b +:+ c).
Proof.
  induction a as [|x a IH]; [reflexivity|].
  change (String x ((a +:+ b) +:+ c) = String x (a +:+ (b +:+ c))). f_equal. exact IH.
Qed.

Section Separator.

(** The separator, one character. *)
Variable c : ascii.

Lemma split_from_word (w : string) :
  forall cur rest,
    free c w = true ->
    split_from (String c EmptyString) 0 cur (w +:+ rest) =
    split_from (String c EmptyString) 0 (cur +:+ w) rest.
Proof.
  induction w as [|d w IH]; intros cur rest Hw.
  - rewrite app_empty_r. reflexivity.
  - cbn [free all_chars] in Hw. apply andb_true_iff in Hw as [Hd Hw].
    change (String d w +:+ rest) with (String d (w +:+ rest)).
    cbn [split_from starts_with].
    destruct (Ascii.eqb c d); [discriminate|]. cbn [andb].
    rewrite IH by exact Hw. rewrite append_assoc. reflexivity.
Qed.

Lemma split_from_separator (cur rest : string) :
  split_from (String c EmptyString) 0 cur (String c rest) =
  cur :: split_from (String c EmptyString) 0 EmptyString rest.
Proof. cbn [split_from starts_with String.length]. rewrite Ascii.eqb_refl. reflexivity. Qed.

(** Cutting at the separator undoes joining with it. *)
Lemma split_join (ws : list string) :
  ws <> [] -> forallb (free c) ws = true ->
  split (join (String c EmptyString) ws) (String c EmptyString) = ws.
Proof.
  unfold split. cbn [is_empty].
  induction ws as [|w ws IH]; intros Hne Hfree; [congruence|].
  cbn [forallb] in Hfree. apply andb_true_iff in Hfree as [Hw Hws].
  destruct ws as [|w' ws].
  - cbn [join]. rewrite <- (app_empty_r w). rewrite split_from_word by exact Hw.
    rewrite app_empty_r. reflexivity.
  - change (join (String c EmptyString) (w :: w' :: ws))
      with (w +:+ String c EmptyString +:+ join (String c EmptyString) (w' :: ws)).
    rewrite split_from_word by exact Hw.
    change (String c EmptyString +:+ join (String c EmptyString) (w' :: ws))
      with (String c (join (String c EmptyString) (w' :: ws))).
    rewrite split_from_separator. cbn [append]. f_equal.
    apply IH; [discriminate|exact Hws].
Qed.

End Separator.

(** [reduce] with the separator in between is [join]. *)
Lemma fold_join (sep : string) (rest : list string) :
  forall first,
    fold_left (fun a b => a +:+ sep +:+ b) rest first = join sep (first :: rest).
Proof.
  induction rest as [|x rest IH]; intros first; cbn [fold_left]; [reflexivity|].
  rewrite IH.
  change (join sep (first :: x :: rest)) with (first +:+ sep +:+ join sep (x :: rest)).
  destruct rest as [|y rest].
  - reflexivity.
  - change (join sep ((first +:+ sep +:+ x) :: y :: rest))
      with ((first +:+ sep +:+ x) +:+ sep +:+ join sep (y :: rest)).
    change (join sep (x :: y :: rest)) with (x +:+ sep +:+ join sep (y :: rest)).
    rewrite !append_assoc. reflexivity.
Qed.

End CapsFacts.

Module CapsTheorems.
Import Text JSValue Intl Helper Utilities TextFacts CapsFacts.


(** X7.  Words joined with a one-character [split] come back capitalised
    and joined with the separator: [toCaps] cuts exactly at the [split]
    characters, whatever the words are otherwise (empty ones included). *)
Theorem toCaps_words (toUpperCase : string -> string) (c : ascii) (separator : value)
    (ws : list string) :
  ws <> [] -> forallb (free c) ws = true ->
  toCaps toUpperCase (Str (join (String c EmptyString) ws)) separator
    (Str (String c EmptyString)) =
  Ok (join (ToString (or_default separator (Str " "))) (map (capitalize toUpperCase) ws)).
Proof.
  intros Hne Hfree. unfold toCaps. cbn [or_default ToString].
  rewrite split_join by assumption.
  destruct ws as [|w ws]; [congruence|].
  cbn [map reduce]. rewrite fold_join. reflexivity.
Qed.

(** ['hello-world'] with the defaults, on a platform whose upper case of
    ASCII text is the usual one. *)
Lemma toCaps_words_witness :
  toCaps uppercase (Str "hello-world") Undefined (Str "-") = Ok "Hello World".
Proof.
  exact (toCaps_words uppercase "-" Undefined ["hello"; "world"]
           ltac:(discriminate) ltac:(reflexivity)).
Defined.

End CapsTheorems.

(** ** Rounding keeps the order *)

Module RoundingOrder.
Import JSNumber Magnitude NumberFacts.

(** The order of two quotients is the order of their cross products. *)
Lemma div_le_cross (a b a' b' E : Z) :
  0 <= a -> 0 < b -> 0 < b' -> 0 <= E -> a * b' <= a' * b ->
  a * E / b <= a' * E / b'.
Proof.
  intros Ha Hb Hb' HE Hle.
  apply Z.div_le_lower_bound; [assumption|].
  pose proof (Z.mul_div_le (a * E) b Hb) as Hq.
  assert (0 <= a * E / b) as Hq0 by (apply Z.div_pos; nia).
  set (q := a * E / b) in *. clearbody q.
  assert (b * (b' * q) <= b * (a' * E)); [|nia].
  assert (b' * (b * q) <= b' * (a * E)) by nia. nia.
Qed.

Lemma ulp_shift_mono (a b a' b' : Z) :
  0 <= a -> 0 < b -> 0 < b' -> a * b' <= a' * b -> ulp_shift a b <= ulp_shift a' b'.
Proof.
  intros Ha Hb Hb' Hle. rewrite !ulp_shift_eq.
  assert (0 < 2 ^ 1022) as HE by (apply Z.pow_pos_nonneg; lia).
  revert HE. generalize (2 ^ 1022). intros E HE.
  apply Z.log2_le_mono. apply div_le_cross; try assumption. lia.
Qed.

Lemma rne_mono_ratio (a b a' b' : Z) :
  0 <= a -> 0 < b -> 0 < b' -> a * b' <= a' * b -> rne a b <= rne a' b'.
Proof.
  intros Ha Hb Hb' Hle.
  rewrite <- (rne_scale a b b'), <- (rne_scale a' b' b) by assumption.
  replace (b' * b) with (b * b') by lia.
  apply rne_mono; nia.
Qed.

(** The quotient the last place is read from. *)
Lemma ulp_shift_spec (a b : Z) :
  0 <= a -> 0 < b ->
  let t := ulp_shift a b in
  a * 2 ^ 1022 < b * (2 * 2 ^ t) /\ (0 < t -> b * 2 ^ t <= a * 2 ^ 1022).
Proof.
  intros Ha Hb t. unfold t. rewrite ulp_shift_eq.
  assert (0 < 2 ^ 1022) as HE by (apply Z.pow_pos_nonneg; lia).
  revert HE. generalize (2 ^ 1022). intros E HE.
  pose proof (Z.mul_div_le (a * E) b Hb) as Hlo.
  pose proof (Z.mul_succ_div_gt (a * E) b Hb) as Hhi.
  assert (0 <= a * E / b) as Hq0 by (apply Z.div_pos; nia).
  set (q := a * E / b) in *. clearbody q.
  destruct (Z.eq_dec q 0) as [->|Hq].
  - change (Z.log2 0) with 0. split; [nia|lia].
  - destruct (Z.log2_spec q ltac:(lia)) as [H1 H2].
    rewrite Z.pow_succ_r in H2 by apply Z.log2_nonneg.
    set (P := 2 ^ Z.log2 q) in *. clearbody P.
    split; [nia|]. intros _. nia.
Qed.

(** The significand has at most 53 bits, and all 53 above the subnormal
    range. *)
Lemma significand_bounds (a b : Z) :
  0 <= a -> 0 < b ->
  let t := ulp_shift a b in
  0 <= rne (a * W) (b * 2 ^ t) <= 2 ^ 53 /\
  (0 < t -> 2 ^ 52 <= rne (a * W) (b * 2 ^ t)).
Proof.
  intros Ha Hb t.
  destruct (ulp_shift_spec a b Ha Hb) as [Hhi Hlo]. fold t in Hhi, Hlo.
  pose proof (ulp_shift_nonneg a b) as Ht. fold t in Ht.
  assert (0 < 2 ^ t) as HP by (apply Z.pow_pos_nonneg; lia).
  assert (W = 2 ^ 52 * 2 ^ 1022) as HW.
  { rewrite W_eq, <- Z.pow_add_r by lia. reflexivity. }
  assert (0 < 2 ^ 1022) as HE by (apply Z.pow_pos_nonneg; lia).
  rewrite HW. clear HW.
  set (E := 2 ^ 1022) in *. clearbody E.
  set (P := 2 ^ t) in *. clearbody P t.
  assert (0 < b * P) as HbP by nia.
  split; [split|].
  - apply rne_nonneg; nia.
  - apply Z.le_trans with (rne (2 ^ 53 * (b * P)) (b * P));
      [apply rne_mono; nia|rewrite rne_exact by assumption; lia].
  - intros H. specialize (Hlo H).
    apply Z.le_trans with (rne (2 ^ 52 * (b * P)) (b * P));
      [rewrite rne_exact by assumption; lia|apply rne_mono; nia].
Qed.

(** The rounded magnitude, before the overflow test. *)
Lemma rounded_mono (a b a' b' : Z) :
  0 <= a -> 0 < b -> 0 < b' -> a * b' <= a' * b ->
  rne (a * W) (b * 2 ^ ulp_shift a b) * 2 ^ ulp_shift a b <=
  rne (a' * W) (b' * 2 ^ ulp_shift a' b') * 2 ^ ulp_shift a' b'.
Proof.
  intros Ha Hb Hb' Hle.
  assert (0 <= a') as Ha' by nia.
  pose proof (ulp_shift_mono a b a' b' Ha Hb Hb' Hle) as Ht.
  pose proof (ulp_shift_nonneg a b) as Ht0.
  destruct (significand_bounds a b Ha Hb) as [[_ Hm] _].
  destruct (significand_bounds a' b' Ha' Hb') as [[Hm0 _] Hm'].
  pose proof W_pos as HW.
  set (t := ulp_shift a b) in *. set (t' := ulp_shift a' b') in *. clearbody t t'.
  assert (0 < 2 ^ t) as HP by (apply Z.pow_pos_nonneg; lia).
  destruct (Z.eq_dec t t') as [<-|Hne].
  - apply Z.mul_le_mono_nonneg_r; [lia|].
    apply rne_mono_ratio; try nia.
    set (P := 2 ^ t) in *. clearbody P.
    assert (a * W * (b' * P) = (a * b') * (W * P)) as -> by lia.
    assert (a' * W * (b * P) = (a' * b) * (W * P)) as -> by lia.
    apply Z.mul_le_mono_nonneg_r; nia.
  - specialize (Hm' ltac:(lia)).
    assert (2 ^ t' = 2 ^ (t' - t - 1) * 2 * 2 ^ t) as Hpow.
    { replace t' with ((t' - t - 1) + 1 + t) at 1 by lia.
      rewrite !Z.pow_add_r by lia. reflexivity. }
    rewrite Hpow in Hm' |- *. clear Hpow.
    assert (0 < 2 ^ (t' - t - 1)) as HD by (apply Z.pow_pos_nonneg; lia).
    replace (2 ^ 53) with (2 * 2 ^ 52) in Hm by reflexivity.
    set (D := 2 ^ (t' - t - 1)) in *. set (P := 2 ^ t) in *.
    set (m := rne (a * W) (b * P)) in *.
    set (m' := rne (a' * W) (b' * (D * 2 * P))) in *.
    assert (0 < 2 ^ 52) as H52pos by lia.
    set (H52 := 2 ^ 52) in *.
    clearbody m m' D P H52. clear - Hm Hm' HD HP H52pos.
    assert (m * P <= 2 * H52 * P) by (apply Z.mul_le_mono_nonneg_r; lia).
    assert (H52 * P <= m' * P) by (apply Z.mul_le_mono_nonneg_r; lia).
    assert (0 <= m' * P) as Hpos by (apply Z.mul_nonneg_nonneg; lia).
    assert (m' * P * 1 <= m' * P * D) by (apply Z.mul_le_mono_nonneg_l; lia).
    lia.
Qed.

(** Rounding to the nearest Number keeps the order of the magnitudes. *)
Lemma round_ratio_mono (s s' : bool) (a b a' b' : Z) :
  0 <= a -> 0 < b -> 0 < b' -> a * b' <= a' * b ->
  magnitude (round_ratio s a b) <= magnitude (round_ratio s' a' b').
Proof.
  intros Ha Hb Hb' Hle.
  assert (0 <= a') as Ha' by nia.
  pose proof (rounded_mono a b a' b' Ha Hb Hb' Hle) as Hmono.
  destruct (significand_bounds a b Ha Hb) as [[Hm _] _].
  pose proof (ulp_shift_nonneg a b) as Ht.
  assert (0 < 2 ^ ulp_shift a b) as HP by (apply Z.pow_pos_nonneg; lia).
  assert (0 < OVERFLOW) as HO by (rewrite OVERFLOW_eq; apply Z.pow_pos_nonneg; lia).
  rewrite !round_ratio_unfold by assumption. cbv zeta.
  set (k := rne (a * W) (b * 2 ^ ulp_shift a b) * 2 ^ ulp_shift a b) in *.
  set (k' := rne (a' * W) (b' * 2 ^ ulp_shift a' b') * 2 ^ ulp_shift a' b') in *.
  assert (0 <= k) as Hk by (unfold k; nia).
  clearbody k k'.
  destruct (Z.eqb_spec a 0) as [->|Ha0], (Z.eqb_spec a' 0) as [->|Ha0'];
    cbn [magnitude]; try lia.
  - destruct (Z.leb_spec OVERFLOW k'); cbn [magnitude]; lia.
  - destruct (Z.leb_spec OVERFLOW k), (Z.leb_spec OVERFLOW k'); cbn [magnitude]; lia.
Qed.

(** An integer (up to [2^53]) below a quotient stays below its rounding,
    and one above stays above. *)
Lemma round_ratio_above (s : bool) (g a b : Z) :
  0 <= g <= 2 ^ 53 -> 0 < b -> g * b <= a ->
  g * W <= magnitude (round_ratio s a b).
Proof.
  intros Hg Hb Hle.
  change (g * W) with (magnitude (Fin s (g * W))).
  rewrite <- (round_ratio_int s g Hg).
  rewrite <- (round_ratio_scale s a b W) by (pose proof W_pos; lia).
  pose proof W_pos.
  apply round_ratio_mono; nia.
Qed.

Lemma round_ratio_below (s : bool) (g a b : Z) :
  0 <= g <= 2 ^ 53 -> 0 <= a -> 0 < b -> a <= g * b ->
  magnitude (round_ratio s a b) <= g * W.
Proof.
  intros Hg Ha Hb Hle.
  change (g * W) with (magnitude (Fin s (g * W))).
  rewrite <- (round_ratio_int s g Hg).
  rewrite <- (round_ratio_scale s a b W) by (pose proof W_pos; lia).
  pose proof W_pos.
  apply round_ratio_mono; nia.
Qed.

(** The product of Numbers that hold integers. *)
Lemma mul_ints (s t : bool) (a b : Z) :
  mul (Fin s (a * W)) (Fin t (b * W)) = round_ratio (xorb s t) (a * b) 1.
Proof.
  pose proof W_pos. unfold mul.
  replace (a * W * (b * W)) with (a * b * (W * W)) by lia.
  rewrite <- (round_ratio_scale (xorb s t) (a * b) 1 (W * W)) by nia.
  rewrite Z.mul_1_l. reflexivity.
Qed.

(** The order of integers held exactly. *)
Lemma compare_ints (a b : Z) :
  Z.abs a <= 2 ^ 53 -> Z.abs b <= 2 ^ 53 -> compare (of_Z a) (of_Z b) = Some (a ?= b).
Proof.
  intros Ha Hb. rewrite !of_Z_exact by assumption. cbn [compare]. f_equal.
  pose proof W_pos.
  assert (forall n, signed (n <? 0) (Z.abs n * W) = n * W) as Hs.
  { intros n. destruct (Z.ltb_spec n 0); cbn [signed]; lia. }
  rewrite !Hs. symmetry. apply Zmult_compare_compat_r. lia.
Qed.

End RoundingOrder.

(** ** Dates and HTTP responses *)

Module DateTheorems.
Import JSNumber Text JSValue Intl Helper Magnitude Utilities.
Import NumberFacts ValueFacts FormatFacts DivisionFacts RoundingOrder.

Lemma of_Z_limit : of_Z 8640000000000000 = Fin false (8640000000000000 * W).
Proof. apply of_Z_nonneg. lia. Qed.

Lemma of_Z_1000 : of_Z 1000 = Fin false (1000 * W).
Proof. apply of_Z_nonneg. lia. Qed.

(** The time value of a whole number of milliseconds within the range. *)
Lemma TimeClip_in_range (s : bool) (n : Z) :
  0 <= n <= 8640000000000000 ->
  TimeClip (Fin s (n * W)) = of_Z (signed s n).
Proof.
  intros Hn. pose proof W_pos as HW. unfold TimeClip. cbn [isFinite negb abs].
  rewrite of_Z_limit. unfold gtb, ltb, compare. cbn [signed].
  destruct (Z.compare_spec (8640000000000000 * W) (n * W)) as [_|Hlt|_]; [|nia|].
  - cbn [trunc]. rewrite scaled_eq, whole_eq, Z.div_mul by lia.
    rewrite of_Z_exact by (destruct s; cbn [signed]; lia).
    destruct (Z.eq_dec n 0) as [->|Hn0]; [destruct s; reflexivity|].
    assert (0 < n * W) as Hpos by nia.
    destruct (n * W) as [|p|p] eqn:Hk; [lia| |lia]. rewrite <- Hk.
    destruct s; cbn [signed].
    + destruct (Z.ltb_spec (- n) 0); [|lia]. f_equal. lia.
    + destruct (Z.ltb_spec n 0); [lia|]. f_equal. lia.
  - cbn [trunc]. rewrite scaled_eq, whole_eq, Z.div_mul by lia.
    rewrite of_Z_exact by (destruct s; cbn [signed]; lia).
    destruct (Z.eq_dec n 0) as [->|Hn0]; [destruct s; reflexivity|].
    assert (0 < n * W) as Hpos by nia.
    destruct (n * W) as [|p|p] eqn:Hk; [lia| |lia]. rewrite <- Hk.
    destruct s; cbn [signed].
    + destruct (Z.ltb_spec (- n) 0); [|lia]. f_equal. lia.
    + destruct (Z.ltb_spec n 0); [lia|]. f_equal. lia.
Qed.

(** Beyond the range there is no time value. *)
Lemma TimeClip_out_of_range (x : number) :
  8640000000000000 * W < magnitude x -> TimeClip x = NaN.
Proof.
  intros Hx. unfold TimeClip. destruct x as [| |s k]; cbn [isFinite negb]; try reflexivity.
  cbn [magnitude] in Hx. cbn [abs]. rewrite of_Z_limit.
  unfold gtb, ltb, compare. cbn [signed].
  destruct (Z.compare_spec (8640000000000000 * W) k); [lia|reflexivity|lia].
Qed.

(** X8.  [parseDate] raises [InvalidInput] on everything but an integer
    Number.  On an integer of magnitude [m] it returns a Date: the one
    [1000 * m] milliseconds from the epoch when [m] is at most
    8,640,000,000,000 seconds, and an invalid Date (its time value is NaN)
    beyond. *)
Theorem parseDate_spec :
  (forall v : value, isInteger v = false -> parseDate v = Throw InvalidInput) /\
  (forall (s : bool) (m : Z),
      0 <= m ->
      isInteger (Num (Fin s (m * W))) = true /\
      parseDate (Num (Fin s (m * W))) =
      Ok (mkDate (if m <=? 8640000000000 then of_Z (1000 * signed s m) else NaN))).
Proof.
  split.
  - intros v Hv. unfold parseDate. rewrite Hv. reflexivity.
  - intros s m Hm. pose proof W_pos as HW.
    assert (isInteger (Num (Fin s (m * W))) = true) as Hi by apply isIntegral_int.
    split; [exact Hi|].
    unfold parseDate. rewrite Hi. cbn [negb ToNumber]. unfold new_Date.
    rewrite of_Z_1000, mul_ints, xorb_false_r. do 2 f_equal.
    destruct (Z.leb_spec m 8640000000000) as [Hle|Hgt].
    + rewrite <- (round_ratio_scale s (m * 1000) 1 W) by lia.
      rewrite Z.mul_1_l, round_ratio_int by lia.
      rewrite TimeClip_in_range by lia. f_equal. destruct s; cbn [signed]; lia.
    + apply TimeClip_out_of_range.
      pose proof (round_ratio_above s 8640000000001000 (m * 1000) 1
                    ltac:(lia) ltac:(lia) ltac:(lia)).
      lia.
Qed.

End DateTheorems.

Module HttpTheorems.
Import JSNumber Text JSValue Intl Helper Utilities.
Import NumberFacts ValueFacts FormatFacts DivisionFacts RoundingOrder.

(** X9.  [checkHttpStatus] returns nothing but the response it was
    given.  With an integer [status] it returns exactly for the codes 200
    to 299, and otherwise throws an [Error] whose message is the
    [statusText]; a response without [status] is thrown likewise, and an
    absent response is a TypeError. *)
Theorem checkHttpStatus_spec :
  (forall response r : value, checkHttpStatus response = Ok r -> r = response) /\
  (forall (fields : gmap string value) (n : Z),
      Z.abs n <= 2 ^ 53 ->
      fields !! "status" = Some (Num (of_Z n)) ->
      checkHttpStatus (Obj fields) =
      if (200 <=? n) && (n <? 300) then Ok (Obj fields)
      else Throw (new_Error (default Undefined (fields !! "statusText")))) /\
  (forall fields : gmap string value,
      fields !! "status" = None ->
      checkHttpStatus (Obj fields) =
      Throw (new_Error (default Undefined (fields !! "statusText")))) /\
  checkHttpStatus Undefined = Throw TypeError /\
  checkHttpStatus Null = Throw TypeError.
Proof.
  split; [|split; [|split; [|split; reflexivity]]].
  - intros response r. unfold checkHttpStatus, mbind, result_bind.
    destruct (get response "status") as [status|e]; [|discriminate].
    destruct (geb (ToNumber status) (of_Z 200) && ltb (ToNumber status) (of_Z 300)).
    + intros H. injection H as <-. reflexivity.
    + destruct (get response "statusText"); discriminate.
  - intros fields n Hn Hs. unfold checkHttpStatus, mbind, result_bind.
    rewrite !get_object by reflexivity. rewrite Hs. cbn [default from_option id ToNumber].
    unfold geb, ltb. rewrite !compare_ints by lia.
    destruct (Z.leb_spec 200 n), (Z.ltb_spec n 300), (Z.compare_spec n 200),
      (Z.compare_spec n 300); try lia; reflexivity.
  - intros fields Hs. unfold checkHttpStatus, mbind, result_bind.
    rewrite !get_object by reflexivity. rewrite Hs. reflexivity.
Qed.

End HttpTheorems.

(** ** Labels *)

Module LabelTheorems.
Import JSNumber Text JSValue Intl Helper Sample.
Import NumberFacts ValueFacts FormatFacts RoundTripFacts.

(** X10.  In unit mode [toLabel] of a String either returns a label or
    raises [InvalidInput], nothing else: it returns exactly when the
    amount matches the decimal pattern and the satoshi count computed
    from it is an integer (so not for ["."], which reads as NaN, nor for
    an amount that overflows); the label is then [formatNumber] of
    [toAmount]'s rendering of that count. *)
Theorem toLabel_unit (host : Host) (UNITS : value) (fields : gmap string value)
    (denominator : value) (amount : string) :
  fields !! "displayFiat" = Some (Bool false) ->
  denominator_of UNITS (default Undefined (fields !! "unit")) = Ok denominator ->
  let satoshis := round (mul (StringToNumber amount) (ToNumber denominator)) in
  (decimal_pattern amount && isIntegral satoshis = true ->
   exists rendering label,
     toAmount host UNITS (Num satoshis) (Obj fields) Undefined = Ok rendering /\
     formatNumber host (Str rendering) = Ok label /\
     toLabel host UNITS (Str amount) (Obj fields) = Ok label) /\
  (decimal_pattern amount && isIntegral satoshis = false ->
   toLabel host UNITS (Str amount) (Obj fields) = Throw InvalidInput).
Proof.
  intros Hdf Hden satoshis.
  assert (toLabel host UNITS (Str amount) (Obj fields) =
          if decimal_pattern amount && isIntegral satoshis
          then formatNumber host
                 (Str (en_US_decimal unit_format (div satoshis (ToNumber denominator))))
          else Throw InvalidInput) as Hrun.
  { unfold toLabel, mbind, result_bind.
    rewrite (toSatoshis_unit UNITS amount fields denominator Hdf Hden).
    fold satoshis.
    destruct (decimal_pattern amount); cbn [andb]; [|reflexivity].
    unfold toAmountLabel, mbind, result_bind. cbn [isInteger].
    destruct (isIntegral satoshis) eqn:Hi; cbn [negb]; [|reflexivity].
    rewrite !get_object by reflexivity. rewrite Hdf. cbn [default from_option id typeof truthy].
    change (String.eqb "boolean" "boolean") with true. cbn [negb].
    rewrite (toAmount_unit host UNITS satoshis fields denominator Hi Hdf Hden).
    reflexivity. }
  rewrite Hrun. split; intros Hok; rewrite Hok; [|reflexivity].
  apply andb_true_iff in Hok as [_ Hi].
  exists (en_US_decimal unit_format (div satoshis (ToNumber denominator))).
  assert (exists label,
             formatNumber host
               (Str (en_US_decimal unit_format (div satoshis (ToNumber denominator)))) =
             Ok label) as [label Hlabel].
  { unfold formatNumber, mbind, result_bind. rewrite construct_decimal_8. eauto. }
  exists label.
  split; [apply toAmount_unit; assumption|]. split; exact Hlabel.
Qed.

(** 0.0001 BTC is labelled as such; a lone point is not an amount. *)
Lemma toLabel_unit_witness :
  (exists rendering label,
      toAmount dollar_host Sample.UNITS (Num (of_Z 10000)) (unit_settings "btc") Undefined =
        Ok rendering /\
      formatNumber dollar_host (Str rendering) = Ok label /\
      toLabel dollar_host Sample.UNITS (Str "0.0001") (unit_settings "btc") = Ok label) /\
  toLabel dollar_host Sample.UNITS (Str ".") (unit_settings "btc") = Throw InvalidInput.
Proof.
  split.
  - refine (proj1 (toLabel_unit dollar_host Sample.UNITS
                     (list_to_map [("displayFiat", Bool false); ("unit", Str "btc")])
                     (Num (of_Z 100000000)) "0.0001" _ _) _).
    + vm_compute. reflexivity.
    + vm_compute. reflexivity.
    + vm_compute. reflexivity.
  - refine (proj2 (toLabel_unit dollar_host Sample.UNITS
                     (list_to_map [("displayFiat", Bool false); ("unit", Str "btc")])
                     (Num (of_Z 100000000)) "." _ _) _).
    + vm_compute. reflexivity.
    + vm_compute. reflexivity.
    + vm_compute. reflexivity.
Defined.

(** X11.  Without a settings object ([undefined] or [null])
    [toAmountLabel] of an integer count ends in a TypeError, not in
    [InvalidInput]: its guard reads [settings.displayFiat] unprotected.
    [toLabel] never gets there: [toSatoshis] has rejected the absent
    settings with [InvalidInput] before. *)
Theorem labels_without_settings (host : Host) (UNITS : value) :
  (forall satoshis : value,
      toAmountLabel host UNITS satoshis Undefined =
      if isInteger satoshis then Throw TypeError else Throw InvalidInput) /\
  (forall satoshis : value,
      toAmountLabel host UNITS satoshis Null =
      if isInteger satoshis then Throw TypeError else Throw InvalidInput) /\
  (forall amount : value, toLabel host UNITS amount Undefined = Throw InvalidInput) /\
  (forall amount : value, toLabel host UNITS amount Null = Throw InvalidInput).
Proof.
  assert (forall settings,
             settings = Undefined \/ settings = Null ->
             (forall satoshis : value,
                 toAmountLabel host UNITS satoshis settings =
                 if isInteger satoshis then Throw TypeError else Throw InvalidInput) /\
             (forall amount : value,
                 toLabel host UNITS amount settings = Throw InvalidInput)) as Habsent.
  { intros settings Hs.
    assert (get settings "displayFiat" = Throw TypeError) as Hget
      by (destruct Hs as [-> | ->]; reflexivity).
    assert (truthy settings = false) as Hfalsy by (destruct Hs as [-> | ->]; reflexivity).
    split.
    - intros satoshis. unfold toAmountLabel, mbind, result_bind.
      destruct (isInteger satoshis); cbn [negb]; [rewrite Hget|]; reflexivity.
    - intros amount. unfold toLabel, toSatoshis, mbind, result_bind.
      rewrite Hfalsy. cbn [negb].
      destruct (negb (String.eqb (typeof amount) "string")); [reflexivity|].
      destruct (negb (decimal_pattern (ToString amount))); reflexivity. }
  destruct (Habsent Undefined (or_introl eq_refl)) as [H1 H2].
  destruct (Habsent Null (or_intror eq_refl)) as [H3 H4].
  auto.
Qed.

End LabelTheorems.

(** ** Budgets that are no positive count *)

Module BudgetFacts.
Import JSNumber Text JSValue Intl Helper Magnitude.
Import NumberFacts AsyncFacts FormatFacts RoundingOrder.

(** A rounded quotient has the sign it was given and is no NaN. *)
Lemma round_ratio_cases (s : bool) (a b : Z) :
  round_ratio s a b = Inf s \/ exists k, round_ratio s a b = Fin s k.
Proof.
  unfold round_ratio. destruct (a =? 0); [eauto|]. cbv zeta.
  match goal with |- context [OVERFLOW <=? ?k] => destruct (OVERFLOW <=? k) end; eauto.
Qed.

(** The counters that [retries--] never brings to zero: the infinities
    and the negative Numbers. *)
Lemma endless_step (x : number) :
  x = Inf false \/ x = Inf true \/ (exists k, 0 < k /\ x = Fin true k) ->
  truthy (Num x) = true /\
  (sub x (of_Z 1) = Inf false \/ sub x (of_Z 1) = Inf true \/
   exists k, 0 < k /\ sub x (of_Z 1) = Fin true k).
Proof.
  rewrite of_Z_1. pose proof W_pos as HW.
  intros [->|[->|(k & Hk & ->)]].
  - split; [reflexivity|]. left. reflexivity.
  - split; [reflexivity|]. right. left. reflexivity.
  - split; [cbn [truthy]; destruct (Z.eqb_spec k 0); [lia|reflexivity]|].
    right. unfold sub, opp, add. cbn [negb signed].
    destruct (Z.eqb_spec (- k + - W) 0); [lia|].
    destruct (Z.ltb_spec (- k + - W) 0); [|lia].
    replace (Z.abs (- k + - W)) with (k + W) by lia.
    pose proof (round_ratio_above true 1 (k + W) W ltac:(lia) HW ltac:(lia)) as Hm.
    destruct (round_ratio_cases true (k + W) W) as [->|[k' Hk']]; [left; reflexivity|].
    right. exists k'. rewrite Hk' in Hm |- *. cbn [magnitude] in Hm. split; [lia|reflexivity].
Qed.

Section Runs.

Context {World : Type}.
Variable api : @operation World.
Variable interval : value.

(** With such a counter [poll]'s loop goes on as long as the results are
    falsy. *)
Lemma poll_loop_endless (fuel : nat) :
  forall (x : number) (calls : nat) (slept : list value) (w : World),
    x = Inf false \/ x = Inf true \/ (exists k, 0 < k /\ x = Fin true k) ->
    (forall i, (i < fuel)%nat -> exists v, outcome_at api w i = Ok v /\ truthy v = false) ->
    poll_loop fuel api interval x calls slept w = None.
Proof.
  induction fuel as [|fuel IH]; intros x calls slept w Hx Hfalsy; [reflexivity|].
  destruct (endless_step x Hx) as [Ht Hnext].
  cbn [poll_loop]. rewrite Ht.
  destruct (Hfalsy 0%nat ltac:(lia)) as (v & Hv & Hf).
  unfold outcome_at in Hv. cbn [world_at] in Hv.
  destruct (api w) as [r w'] eqn:Hapi. cbn [fst] in Hv. subst r. rewrite Hf.
  apply IH; [exact Hnext|].
  intros i Hi. specialize (Hfalsy (S i) ltac:(lia)).
  rewrite outcome_at_shift, Hapi in Hfalsy. exact Hfalsy.
Qed.

(** And it never ends by itself: only a truthy result or an exception of
    the operation ends it. *)
Lemma poll_loop_endless_ending (fuel : nat) :
  forall (x : number) (calls : nat) (slept : list value) (w : World) (r : run),
    x = Inf false \/ x = Inf true \/ (exists k, 0 < k /\ x = Fin true k) ->
    poll_loop fuel api interval x calls slept w = Some r ->
    (exists v, ending r = Returned v /\ truthy v = true) \/ (exists e, ending r = Propagated e).
Proof.
  induction fuel as [|fuel IH]; intros x calls slept w r Hx Hrun; [discriminate|].
  destruct (endless_step x Hx) as [Ht Hnext].
  cbn [poll_loop] in Hrun. rewrite Ht in Hrun.
  destruct (api w) as [[v|e] w'].
  - destruct (truthy v) eqn:Hv.
    + injection Hrun as <-. left. eauto.
    + eapply IH; eassumption.
  - injection Hrun as <-. right. eauto.
Qed.

(** [retry]'s loop goes on as long as the operation fails. *)
Lemma retry_loop_endless (fuel : nat) :
  forall (x : number) (calls : nat) (slept : list value) (w : World),
    x = Inf false \/ x = Inf true \/ (exists k, 0 < k /\ x = Fin true k) ->
    (forall i, (i < fuel)%nat -> exists e, outcome_at api w i = Throw e) ->
    retry_loop fuel api interval x calls slept w = None.
Proof.
  induction fuel as [|fuel IH]; intros x calls slept w Hx Hfail; [reflexivity|].
  destruct (endless_step x Hx) as [Ht Hnext].
  cbn [retry_loop]. rewrite Ht.
  destruct (Hfail 0%nat ltac:(lia)) as (e & He).
  unfold outcome_at in He. cbn [world_at] in He.
  destruct (api w) as [r w'] eqn:Hapi. cbn [fst] in He. subst r.
  destruct (endless_step _ Hnext) as [Ht' _]. rewrite Ht'. cbn [negb].
  apply IH; [exact Hnext|].
  intros i Hi. specialize (Hfail (S i) ltac:(lia)).
  rewrite outcome_at_shift, Hapi in Hfail. exact Hfail.
Qed.

End Runs.

End BudgetFacts.

Module BudgetTheorems.
Import JSNumber Text JSValue Intl Helper Sample.
Import NumberFacts AsyncFacts FormatFacts BudgetFacts.

(** X12.  A budget that is falsy as a Number (0, NaN, [null], ['']...)
    ends both utilities before the first invocation: [retry] resolves with
    [null], [poll] throws its 'Maximum retries' error; nothing is invoked
    and nothing slept. *)
Theorem spent_budget {World : Type} (RETRY_DELAY : value) (api : @operation World)
    (interval retries : value) (fuel : nat) (w : World) :
  retries <> Undefined -> truthy (Num (ToNumber retries)) = false ->
  retry (S fuel) api interval retries w = Some (mkRun Fallback 0 [] w) /\
  settle (mkRun Fallback 0 [] w) = Ok Null /\
  poll RETRY_DELAY (S fuel) api interval retries w = Some (mkRun Exhausted 0 [] w) /\
  settle (mkRun Exhausted 0 [] w) = Throw MaxRetriesExceeded.
Proof.
  intros Hdef Hfalsy. unfold retry, poll.
  assert (or_default retries (Num (of_Z 1000)) = retries) as ->
    by (destruct retries; first [reflexivity|congruence]).
  assert (or_default retries (Num (Inf false)) = retries) as ->
    by (destruct retries; first [reflexivity|congruence]).
  cbn [retry_loop poll_loop]. rewrite Hfalsy. repeat split.
Qed.

(** A budget of zero attempts. *)
Lemma spent_budget_witness :
  retry 1 always_fails Undefined (Num (of_Z 0)) 0%nat = Some (mkRun Fallback 0 [] 0%nat) /\
  settle (mkRun Fallback 0 [] 0%nat) = Ok Null /\
  poll Undefined 1 always_falsy Undefined (Num (of_Z 0)) 0%nat =
    Some (mkRun Exhausted 0 [] 0%nat) /\
  settle (mkRun Exhausted 0 [] 0%nat) = Throw MaxRetriesExceeded.
Proof.
  destruct (spent_budget Undefined always_fails Undefined (Num (of_Z 0)) 0 0%nat
              ltac:(discriminate) eq_refl) as (H1 & H2 & _ & H4).
  destruct (spent_budget Undefined always_falsy Undefined (Num (of_Z 0)) 0 0%nat
              ltac:(discriminate) eq_refl) as (_ & _ & H3 & _).
  repeat split; assumption.
Defined.

(** X13.  [poll] with its default budget ([Infinity]) never gives up: a
    run that ends has ended with a truthy result or with an exception of
    the operation, never by exhaustion; and as long as the results are
    falsy it keeps polling. *)
Theorem poll_default_budget {World : Type} (RETRY_DELAY : value) (api : @operation World)
    (interval : value) (fuel : nat) (w : World) :
  (forall r : run,
      poll RETRY_DELAY fuel api interval Undefined w = Some r ->
      (exists v, ending r = Returned v /\ truthy v = true) \/
      (exists e, ending r = Propagated e)) /\
  ((forall i, (i < fuel)%nat -> exists v, outcome_at api w i = Ok v /\ truthy v = false) ->
   poll RETRY_DELAY fuel api interval Undefined w = None).
Proof.
  unfold poll. cbn [or_default ToNumber]. split.
  - intros r Hrun.
    apply poll_loop_endless_ending in Hrun; [exact Hrun|left; reflexivity].
  - intros Hfalsy. apply poll_loop_endless; [left; reflexivity|exact Hfalsy].
Qed.

(** X14.  A negative budget is no budget: the counter moves away from
    zero, so [retry] goes on for as long as the operation fails and never
    hands the failure to the caller, and [poll] goes on for as long as the
    results are falsy. *)
Theorem negative_budget {World : Type} (RETRY_DELAY : value) (api : @operation World)
    (interval : value) (k : Z) (fuel : nat) (w : World) :
  0 < k ->
  ((forall i, (i < fuel)%nat -> exists e, outcome_at api w i = Throw e) ->
   retry fuel api interval (Num (Fin true k)) w = None) /\
  ((forall i, (i < fuel)%nat -> exists v, outcome_at api w i = Ok v /\ truthy v = false) ->
   poll RETRY_DELAY fuel api interval (Num (Fin true k)) w = None).
Proof.
  intros Hk. unfold retry, poll. cbn [or_default ToNumber]. split; intros Hall.
  - apply retry_loop_endless; [right; right; eauto|exact Hall].
  - apply poll_loop_endless; [right; right; eauto|exact Hall].
Qed.

(** [retry(always_fails, 1, -1)] is still running after 50 attempts. *)
Lemma negative_budget_witness :
  retry 50 always_fails (Num (of_Z 1)) (Num (of_Z (-1))) 0%nat = None.
Proof.
  refine (proj1 (negative_budget Undefined always_fails (Num (of_Z 1)) W 50 0%nat _) _).
  - reflexivity.
  - intros i _. eexists. reflexivity.
Defined.

End BudgetTheorems.

(** ** The spinner *)

Module SpinnerFacts.
Import JSNumber Text JSValue Intl Helper Magnitude Spinner.
Import NumberFacts ValueFacts FormatFacts DivisionFacts RoundingOrder BudgetFacts.

Lemma OVERFLOW_W : 2 ^ 1024 * W = OVERFLOW.
Proof. rewrite OVERFLOW_eq, W_eq, <- Z.pow_add_r by lia. reflexivity. Qed.

(** A rounded quotient is a Number: it is its own rounding. *)
Lemma round_ratio_idem (s s' : bool) (a b k : Z) :
  0 <= a -> 0 < b -> round_ratio s a b = Fin s k -> round_ratio s' k W = Fin s' k.
Proof.
  intros Ha Hb. rewrite round_ratio_unfold by assumption. cbv zeta.
  destruct (Z.eqb_spec a 0) as [_|Ha0]; [intros [= <-]; reflexivity|].
  destruct (significand_bounds a b Ha Hb) as [[Hm0 Hm] _].
  pose proof (ulp_shift_nonneg a b) as Ht.
  set (t := ulp_shift a b) in *. set (m := rne (a * W) (b * 2 ^ t)) in *. clearbody m t.
  destruct (Z.leb_spec OVERFLOW (m * 2 ^ t)) as [|Hov]; [discriminate|].
  intros [= <-].
  destruct (Z.eq_dec m 0) as [->|Hm1]; [reflexivity|].
  destruct (Z.eq_dec m (2 ^ 53)) as [->|Hm2].
  - rewrite <- Z.pow_add_r in Hov |- * by lia.
    rewrite <- (Z.mul_1_l (2 ^ (53 + t))) in Hov |- *.
    apply round_ratio_grid; lia.
  - apply round_ratio_grid; lia.
Qed.

(** A Number of at least [2^e] times the smallest normal spacing is a
    multiple of [2^e]. *)
Lemma double_multiple (s : bool) (k e : Z) :
  0 <= e -> 2 ^ (52 + e) <= k -> round_ratio s k W = Fin s k -> (2 ^ e | k).
Proof.
  intros He Hk. pose proof W_pos as HW.
  assert (0 < 2 ^ (52 + e)) as Hpos by (apply Z.pow_pos_nonneg; lia).
  rewrite round_ratio_unfold by assumption. cbv zeta.
  destruct (Z.eqb_spec k 0); [lia|].
  assert (e <= ulp_shift k W) as Ht.
  { rewrite ulp_shift_eq.
    assert (W = 2 ^ 52 * 2 ^ 1022) as -> by (rewrite W_eq, <- Z.pow_add_r by lia; reflexivity).
    assert (0 < 2 ^ 1022) as HE by (apply Z.pow_pos_nonneg; lia).
    rewrite Z.div_mul_cancel_r by lia.
    rewrite <- (Z.log2_pow2 e He). apply Z.log2_le_mono.
    apply Z.div_le_lower_bound; [lia|]. rewrite <- Z.pow_add_r by lia. exact Hk. }
  set (t := ulp_shift k W) in *. clearbody t.
  destruct (OVERFLOW <=? _); [discriminate|]. intros [= Heq].
  rewrite <- Heq.
  apply Z.divide_mul_r. exists (2 ^ (t - e)). rewrite <- Z.pow_add_r by lia. f_equal. lia.
Qed.

(** The Numbers next to [1/2] and to 1. *)
Lemma double_above_half (s : bool) (k : Z) :
  round_ratio s k W = Fin s k -> W < 2 * k -> W + 2 ^ 1022 <= 2 * k.
Proof.
  intros Hd Hk.
  assert (W = 2 * 2 ^ 1073) as HW by (rewrite W_eq, <- Z.pow_succ_r by lia; reflexivity).
  assert (2 ^ 1073 = 2 ^ 52 * 2 ^ 1021) as H73 by (rewrite <- Z.pow_add_r by lia; reflexivity).
  assert (2 ^ 1022 = 2 * 2 ^ 1021) as H22 by (rewrite <- Z.pow_succ_r by lia; reflexivity).
  destruct (double_multiple s k 1021 ltac:(lia)
              ltac:(change (52 + 1021) with 1073; lia) Hd) as [q Hq].
  rewrite HW, H22, H73 in *.
  assert (0 < 2 ^ 1021) as HP by (apply Z.pow_pos_nonneg; lia).
  set (P := 2 ^ 1021) in *. clearbody P. subst k. nia.
Qed.

Lemma double_below_one (s : bool) (k : Z) :
  round_ratio s k W = Fin s k -> W <= 2 * k -> k < W -> k + 2 ^ 1021 <= W.
Proof.
  intros Hd Hlo Hhi.
  assert (W = 2 ^ 53 * 2 ^ 1021) as HW by (rewrite W_eq, <- Z.pow_add_r by lia; reflexivity).
  assert (2 ^ (52 + 1021) = 2 ^ 52 * 2 ^ 1021) as H73 by (apply Z.pow_add_r; lia).
  assert (0 < 2 ^ 1021) as HP by (apply Z.pow_pos_nonneg; lia).
  destruct (double_multiple s k 1021 ltac:(lia)
              ltac:(rewrite H73; rewrite HW in Hlo; lia) Hd) as [q Hq].
  rewrite HW in *.
  set (P := 2 ^ 1021) in *. clearbody P. subst k. nia.
Qed.

Lemma double_above_one (s : bool) (k : Z) :
  round_ratio s k W = Fin s k -> W < k -> W + 2 ^ 1022 <= k.
Proof.
  intros Hd Hk.
  assert (W = 2 ^ 52 * 2 ^ 1022) as HW by (rewrite W_eq, <- Z.pow_add_r by lia; reflexivity).
  assert (2 ^ (52 + 1022) = 2 ^ 52 * 2 ^ 1022) as H74 by (apply Z.pow_add_r; lia).
  assert (0 < 2 ^ 1022) as HP by (apply Z.pow_pos_nonneg; lia).
  destruct (double_multiple s k 1022 ltac:(lia)
              ltac:(rewrite H74; rewrite HW in Hk; lia) Hd) as [q Hq].
  rewrite HW in *.
  set (P := 2 ^ 1022) in *. clearbody P. subst k. nia.
Qed.

(** The product with 360. *)
Lemma times_360 (s : bool) (k : Z) :
  mul (Fin s k) (of_Z 360) = round_ratio s (k * 360) W.
Proof.
  pose proof W_pos. rewrite (of_Z_nonneg 360) by lia. unfold mul. rewrite xorb_false_r.
  replace (k * (360 * W)) with (k * 360 * W) by lia.
  apply round_ratio_scale; lia.
Qed.

(** A value on the grid of the Numbers between 128 and 512. *)
Lemma grid_value (n j : Z) :
  0 < n < 512 -> 0 <= j < 2 ^ 44 ->
  forall s, round_ratio s (n * W + j * 2 ^ 1030) W = Fin s (n * W + j * 2 ^ 1030).
Proof.
  intros Hn Hj s.
  assert (W = 2 ^ 44 * 2 ^ 1030) as HW by (rewrite W_eq, <- Z.pow_add_r by lia; reflexivity).
  rewrite HW at 1 3.
  replace (n * (2 ^ 44 * 2 ^ 1030) + j * 2 ^ 1030) with ((n * 2 ^ 44 + j) * 2 ^ 1030) by lia.
  apply round_ratio_grid; [lia|lia|].
  rewrite <- OVERFLOW_W, HW.
  assert (2 ^ 53 <= 2 ^ 1024) by (apply Z.pow_le_mono_r; lia).
  assert (0 < 2 ^ 1030) as HP by (apply Z.pow_pos_nonneg; lia).
  revert H HP. generalize (2 ^ 1024) (2 ^ 1030). intros A P HA HP.
  assert ((n * 2 ^ 44 + j) < 2 ^ 53) by lia.
  assert (2 ^ 53 * P <= A * (2 ^ 44 * P)) by nia. nia.
Qed.

(** A rounded quotient exceeds the exact one by at most half a last
    place. *)
Lemma round_ratio_upper (s : bool) (a b k : Z) :
  0 <= a -> 0 < b -> round_ratio s a b = Fin s k ->
  0 <= k /\ 2 * k * b <= 2 * (a * W) + b * 2 ^ ulp_shift a b.
Proof.
  intros Ha Hb. rewrite round_ratio_unfold by assumption. cbv zeta.
  pose proof (ulp_shift_nonneg a b) as Ht. pose proof W_pos as HW.
  assert (0 < 2 ^ ulp_shift a b) as HP by (apply Z.pow_pos_nonneg; lia).
  destruct (Z.eqb_spec a 0) as [->|Ha0]; [intros [= <-]; nia|].
  pose proof (rne_bounds (a * W) (b * 2 ^ ulp_shift a b) ltac:(nia) ltac:(nia)) as Hm.
  pose proof (rne_nonneg (a * W) (b * 2 ^ ulp_shift a b) ltac:(nia) ltac:(nia)) as Hm0.
  set (P := 2 ^ ulp_shift a b) in *. set (m := rne (a * W) (b * P)) in *. clearbody m P.
  destruct (OVERFLOW <=? m * P); [discriminate|]. intros [= <-]. nia.
Qed.

Lemma half : of_ratio 1 2 = Fin false (2 ^ 1073).
Proof.
  unfold of_ratio.
  assert (0 < 2 ^ 1073) as HP by (apply Z.pow_pos_nonneg; lia).
  rewrite <- (round_ratio_scale false 1 2 (2 ^ 1073)) by lia.
  replace (2 * 2 ^ 1073) with W by (rewrite W_eq, <- Z.pow_succ_r by lia; reflexivity).
  rewrite (round_ratio_grid false 1 1073); [rewrite Z.mul_1_l; reflexivity|lia|lia|].
  rewrite OVERFLOW_eq, Z.mul_1_l. apply Z.pow_lt_mono_r; lia.
Qed.

Lemma of_Z_180 : of_Z 180 = Fin false (180 * W).
Proof. apply of_Z_nonneg. lia. Qed.

Lemma of_Z_360 : of_Z 360 = Fin false (360 * W).
Proof. apply of_Z_nonneg. lia. Qed.

(** Subtracting zero leaves the value of a Number. *)
Lemma sub_zero (s : bool) (k : Z) :
  0 <= k -> round_ratio s k W = Fin s k ->
  exists s', sub (Fin s k) (of_Z 0) = Fin s' k /\ signed s' k = signed s k.
Proof.
  intros Hk Hd. rewrite of_Z_0. unfold sub, opp, add. cbn [negb signed].
  rewrite Z.add_0_r.
  destruct (Z.eqb_spec (signed s k) 0) as [H0|H0].
  - assert (k = 0) as -> by (destruct s; cbn [signed] in H0; lia).
    exists (s && true). destruct s; auto.
  - exists s. split; [|reflexivity].
    destruct s; cbn [signed] in *.
    + destruct (Z.ltb_spec (- k) 0); [|lia]. rewrite Z.abs_neq by lia.
      rewrite Z.opp_involutive. exact Hd.
    + destruct (Z.ltb_spec k 0); [lia|]. rewrite Z.abs_eq by lia. exact Hd.
Qed.

Section Angles.

Variable s : bool.
Variable k : Z.
Hypothesis Hk : 0 <= k.
Hypothesis Hdouble : round_ratio s k W = Fin s k.

(** The angle [percentage * 360] is above 180 exactly past one half. *)
Lemma span_above_180 :
  leb (sub (mul (Fin s k) (of_Z 360)) (of_Z 0)) (of_Z 180) =
  negb (gtb (Fin s k) (of_ratio 1 2)).
Proof.
  pose proof W_pos as HW.
  assert (W = 2 * 2 ^ 1073) as HW2 by (rewrite W_eq, <- Z.pow_succ_r by lia; reflexivity).
  rewrite times_360, half, of_Z_180.
  assert (gtb (Fin s k) (Fin false (2 ^ 1073)) = (2 ^ 1073 <? signed s k)) as ->.
  { unfold gtb, ltb, compare. change (signed false (2 ^ 1073)) with (2 ^ 1073).
    destruct (Z.compare_spec (2 ^ 1073) (signed s k)), (Z.ltb_spec (2 ^ 1073) (signed s k));
      try reflexivity; lia. }
  pose proof (round_ratio_below s 180 (k * 360) W ltac:(lia) ltac:(lia) HW) as Hbelow.
  assert (180 * W < OVERFLOW) as Hfin.
  { rewrite <- OVERFLOW_W. assert (180 < 2 ^ 1024) by (apply (Z.lt_trans _ (2 ^ 8)); [lia|apply Z.pow_lt_mono_r; lia]).
    nia. }
  assert (W < 2 * k ->
          180 * W + 2 ^ 1029 <= magnitude (round_ratio s (k * 360) W)) as Habove.
  { intros Hgt. pose proof (double_above_half s k Hdouble Hgt) as Hnext.
    assert (2 ^ 1022 = 2 * 2 ^ 1021) as H22 by (rewrite <- Z.pow_succ_r by lia; reflexivity).
    assert (2 ^ 1029 = 256 * 2 ^ 1021) as H29
      by (change 256 with (2 ^ 8); rewrite <- Z.pow_add_r by lia; reflexivity).
    assert (W = 2 ^ 45 * 2 ^ 1029) as HW45 by (rewrite W_eq, <- Z.pow_add_r by lia; reflexivity).
    assert (0 < 2 ^ 1029) as HP by (apply Z.pow_pos_nonneg; lia).
    assert (round_ratio s ((180 * 2 ^ 45 + 1) * 2 ^ 1029) W =
            Fin s ((180 * 2 ^ 45 + 1) * 2 ^ 1029)) as Hgrid.
    { apply round_ratio_grid; [lia|lia|].
      rewrite <- OVERFLOW_W, HW45.
      assert (2 ^ 53 <= 2 ^ 1024) by (apply Z.pow_le_mono_r; lia).
      revert H HP. generalize (2 ^ 1024) (2 ^ 1029). intros A P HA HP.
      assert (2 ^ 53 * P <= A * (2 ^ 45 * P)) by nia. nia. }
    replace (180 * W + 2 ^ 1029) with ((180 * 2 ^ 45 + 1) * 2 ^ 1029) by (rewrite HW45; lia).
    change ((180 * 2 ^ 45 + 1) * 2 ^ 1029)
      with (magnitude (Fin s ((180 * 2 ^ 45 + 1) * 2 ^ 1029))) at 1.
    rewrite <- Hgrid.
    apply round_ratio_mono; [lia|lia|lia|].
    apply Z.mul_le_mono_nonneg_r; [lia|].
    rewrite HW45, H22, H29 in Hnext. rewrite H29.
    revert Hnext. generalize (2 ^ 1021). intros P' Hnext. lia. }
  destruct (round_ratio_cases s (k * 360) W) as [Hr|[k2 Hr]]; rewrite Hr in *;
    cbn [magnitude] in *.
  - (* the product overflows *)
    assert (W < 2 * k) as Hgt by (destruct (Z.lt_ge_cases W (2 * k)); [assumption|lia]).
    unfold sub, opp, add, leb, compare. rewrite of_Z_0.
    destruct s; cbn [signed negb].
    + destruct (Z.ltb_spec (2 ^ 1073) (- k)); [lia|reflexivity].
    + destruct (Z.ltb_spec (2 ^ 1073) k); [reflexivity|lia].
  - destruct (round_ratio_upper s (k * 360) W k2 ltac:(lia) HW Hr) as [Hk2 _].
    pose proof (round_ratio_idem s s (k * 360) W k2 ltac:(lia) HW Hr) as Hd2.
    destruct (sub_zero s k2 Hk2 Hd2) as (s' & -> & Hsign).
    unfold leb, compare. rewrite Hsign. change (signed false (180 * W)) with (180 * W).
    destruct s; cbn [signed].
    + destruct (Z.compare_spec (- k2) (180 * W)), (Z.ltb_spec (2 ^ 1073) (- k));
        try reflexivity; lia.
    + destruct (Z.lt_ge_cases W (2 * k)) as [Hgt|Hle].
      * specialize (Habove Hgt).
        assert (0 < 2 ^ 1029) by (apply Z.pow_pos_nonneg; lia).
        destruct (Z.compare_spec k2 (180 * W)), (Z.ltb_spec (2 ^ 1073) k);
          try reflexivity; lia.
      * specialize (Hbelow ltac:(lia)).
        destruct (Z.compare_spec k2 (180 * W)), (Z.ltb_spec (2 ^ 1073) k);
          try reflexivity; lia.
Qed.

(** The angle [percentage * 360] is 360 exactly for a percentage of 1. *)
Lemma angle_is_360 :
  eqb (mul (Fin s k) (of_Z 360)) (of_Z 360) = eqb (Fin s k) (of_Z 1).
Proof.
  pose proof W_pos as HW.
  rewrite times_360, of_Z_360, of_Z_1.
  assert (eqb (Fin s k) (Fin false W) = negb s && (k =? W)) as ->.
  { unfold eqb, compare. change (signed false W) with W.
    destruct s; cbn [signed negb andb].
    - destruct (Z.compare_spec (- k) W); try reflexivity; lia.
    - destruct (Z.compare_spec k W), (Z.eqb_spec k W); try reflexivity; lia. }
  assert (2 ^ 1030 = 512 * 2 ^ 1021) as H30
    by (change 512 with (2 ^ 9); rewrite <- Z.pow_add_r by lia; reflexivity).
  assert (2 ^ 1022 = 2 * 2 ^ 1021) as H22 by (rewrite <- Z.pow_succ_r by lia; reflexivity).
  assert (0 < 2 ^ 1021) as HP by (apply Z.pow_pos_nonneg; lia).
  destruct (round_ratio_cases s (k * 360) W) as [Hr|[k2 Hr]].
  - (* the product overflows *)
    rewrite Hr. unfold eqb, compare.
    assert (k <> W) as Hne.
    { intros ->. replace (W * 360) with (360 * W) in Hr by lia.
      rewrite round_ratio_int in Hr by lia. discriminate. }
    destruct s; cbn [negb andb]; [reflexivity|].
    destruct (Z.eqb_spec k W); [lia|reflexivity].
  - rewrite Hr. unfold eqb, compare. change (signed false (360 * W)) with (360 * W).
    destruct (round_ratio_upper s (k * 360) W k2 ltac:(lia) HW Hr) as [Hk2 Hup].
    destruct s; cbn [signed negb andb].
    { destruct (Z.compare_spec (- k2) (360 * W)); try reflexivity; lia. }
    destruct (Z.eqb_spec k W) as [->|Hne].
    + replace (W * 360) with (360 * W) in Hr by lia.
      rewrite round_ratio_int in Hr by lia.
      injection Hr as <-. rewrite Z.compare_refl. reflexivity.
    + assert (k2 <> 360 * W) as Hne2; [|destruct (Z.compare_spec k2 (360 * W)); try reflexivity; lia].
      destruct (Z.lt_ge_cases W k) as [Hgt|Hle].
      * (* above 1: at least the next Number above 360 *)
        pose proof (double_above_one false k Hdouble Hgt) as Hnext.
        assert (360 * W + 2 ^ 1030 <= magnitude (round_ratio false (k * 360) W)) as Habove.
        { assert (W = 2 ^ 44 * 2 ^ 1030) as HW44
            by (rewrite W_eq, <- Z.pow_add_r by lia; reflexivity).
          pose proof (grid_value 360 1 ltac:(lia) ltac:(lia) false) as Hgrid.
          rewrite Z.mul_1_l in Hgrid.
          change (360 * W + 2 ^ 1030) with (magnitude (Fin false (360 * W + 2 ^ 1030))) at 1.
          rewrite <- Hgrid.
          apply round_ratio_mono; [nia|lia|lia|].
          apply Z.mul_le_mono_nonneg_r; [lia|].
          rewrite H30. rewrite H22 in Hnext.
          revert Hnext HP. generalize (2 ^ 1021). intros P Hnext HP. lia. }
        rewrite Hr in Habove. cbn [magnitude] in Habove.
        assert (0 < 2 ^ 1030) by (apply Z.pow_pos_nonneg; lia). lia.
      * assert (k < W) as Hlt by lia.
        destruct (Z.lt_ge_cases (2 * k) W) as [Hsmall|Hbig].
        { pose proof (round_ratio_below false 180 (k * 360) W
                        ltac:(lia) ltac:(lia) HW ltac:(lia)) as Hbelow.
          rewrite Hr in Hbelow. cbn [magnitude] in Hbelow. lia. }
        (* between one half and 1: at most the Number below 1 *)
        pose proof (double_below_one false k Hdouble Hbig Hlt) as Hprev.
        assert (ulp_shift (k * 360) W <= 1030) as Ht.
        { pose proof (ulp_shift_bound (k * 360) W 9 ltac:(lia) HW ltac:(lia)
                        ltac:(change (2 ^ 9) with 512; lia)).
          lia. }
        assert (2 ^ ulp_shift (k * 360) W <= 2 ^ 1030) as Hpow
          by (apply Z.pow_le_mono_r; lia).
        rewrite H30 in Hpow.
        revert Hup Hpow Hprev HP. generalize (2 ^ ulp_shift (k * 360) W) (2 ^ 1021).
        intros Q P Hup Hpow Hprev HP.
        assert (2 * k2 <= 2 * (k * 360) + Q) by nia. lia.
Qed.

End Angles.

End SpinnerFacts.

Module SpinnerTheorems.
Import JSNumber Text JSValue Intl Helper Magnitude Spinner Sample.
Import NumberFacts ValueFacts FormatFacts DivisionFacts RoundingOrder BudgetFacts SpinnerFacts.

(** X15.  The determinate spinner ([continuous] falsy) draws the arc from
    0 to [percentage * 360] degrees.  For a finite percentage its
    large-arc flag is ['1'] exactly when the percentage exceeds one half,
    and its sweep flag is ['1'], with the end point nudged, exactly when
    the percentage is 1: rounding the product never moves an angle across
    180 or onto 360. *)
Theorem SpinnerProgress_determinate (host : Host) (continuous : value) (width : number)
    (s : bool) (k : Z) :
  truthy continuous = false -> 0 <= k -> round_ratio s k W = Fin s k ->
  exists (largeArcFlag sweepFlag : string),
    SpinnerProgress host continuous width (Fin s k) =
    generateArc host (div width (of_Z 2)) (div width (of_Z 2)) (div width (of_Z 2))
      (of_Z 0) (mul (Fin s k) (of_Z 360)) /\
    SpinnerProgress host continuous width (Fin s k) =
    join " "
      [ "M " +:+ NumberToString (div width (of_Z 2)) +:+ " " +:+
          NumberToString (div width (of_Z 2));
        "L " +:+
          NumberToString (px (polarToCartesian host (div width (of_Z 2)) (div width (of_Z 2))
                                (div width (of_Z 2)) (mul (Fin s k) (of_Z 360)))) +:+ " " +:+
          NumberToString (py (polarToCartesian host (div width (of_Z 2)) (div width (of_Z 2))
                                (div width (of_Z 2)) (mul (Fin s k) (of_Z 360))));
        "A " +:+ NumberToString (div width (of_Z 2)) +:+ " " +:+
          NumberToString (div width (of_Z 2)) +:+ " 0 " +:+
          largeArcFlag +:+ " " +:+ sweepFlag +:+ " " +:+
          NumberToString
            (if eqb (Fin s k) (of_Z 1)
             then sub (px (polarToCartesian host (div width (of_Z 2)) (div width (of_Z 2))
                             (div width (of_Z 2)) (of_Z 0))) (of_ratio 1 100)
             else px (polarToCartesian host (div width (of_Z 2)) (div width (of_Z 2))
                        (div width (of_Z 2)) (of_Z 0))) +:+ " " +:+
          NumberToString (py (polarToCartesian host (div width (of_Z 2)) (div width (of_Z 2))
                                (div width (of_Z 2)) (of_Z 0)));
        "Z" ] /\
    largeArcFlag = (if gtb (Fin s k) (of_ratio 1 2) then "1" else "0") /\
    sweepFlag = (if eqb (Fin s k) (of_Z 1) then "1" else "0").
Proof.
  intros Hc Hk Hd.
  exists (if gtb (Fin s k) (of_ratio 1 2) then "1" else "0"),
         (if eqb (Fin s k) (of_Z 1) then "1" else "0").
  unfold SpinnerProgress. rewrite Hc.
  split; [reflexivity|]. split; [|split; reflexivity].
  unfold generateArc.
  rewrite (span_above_180 s k Hk Hd), (angle_is_360 s k Hk Hd).
  destruct (gtb (Fin s k) (of_ratio 1 2)), (eqb (Fin s k) (of_Z 1)); reflexivity.
Qed.

(** Three quarters done, on a spinner 80 wide. *)
Lemma SpinnerProgress_determinate_witness :
  exists (largeArcFlag sweepFlag : string),
    SpinnerProgress dollar_host (Bool false) (of_Z 80) (Fin false (3 * 2 ^ 1072)) =
      "M 40 40 L 0 40.00000000000001 A 40 40 0 1 0 40 0 Z" /\
    largeArcFlag = "1" /\ sweepFlag = "0".
Proof.
  destruct (SpinnerProgress_determinate dollar_host (Bool false) (of_Z 80) false
              (3 * 2 ^ 1072))
    as (l & sw & _ & Hpath & Hl & Hsw).
  - reflexivity.
  - lia.
  - vm_compute. reflexivity.
  - exists l, sw. split; [vm_compute; reflexivity|].
    split; [rewrite Hl|rewrite Hsw]; vm_compute; reflexivity.
Defined.

(** X16.  [increasePercentage] keeps the percentage of the continuous
    spinner within [0, 1): from a value there the next one is there too,
    so every state reached from the initial 0 is a finite Number that is
    at least 0 and below 1. *)
Theorem increasePercentage_range :
  (forall k : Z,
      0 <= k < W ->
      exists k', increasePercentage (Fin false k) = Fin false k' /\ 0 <= k' < W) /\
  (forall ticks : nat,
      exists k, Nat.iter ticks increasePercentage (of_Z 0) = Fin false k /\ 0 <= k < W).
Proof.
  pose proof W_pos as HW.
  assert (forall k : Z,
             0 <= k < W ->
             exists k', increasePercentage (Fin false k) = Fin false k' /\ 0 <= k' < W)
    as Hstep.
  { intros k Hk. unfold increasePercentage.
    assert (exists c, of_ratio 1 100 = Fin false c /\ 0 <= c <= W) as (c & -> & Hc).
    { unfold of_ratio.
      pose proof (round_ratio_below false 1 1 100 ltac:(lia) ltac:(lia) ltac:(lia)
                    ltac:(lia)) as Hhi.
      destruct (round_ratio_cases false 1 100) as [Hr|[c Hr]]; rewrite Hr in *;
        cbn [magnitude] in Hhi.
      - rewrite <- OVERFLOW_W in Hhi.
        assert (1 < 2 ^ 1024) by (apply (Z.pow_gt_1 2 1024); lia). nia.
      - destruct (round_ratio_upper false 1 100 c ltac:(lia) ltac:(lia) Hr) as [Hc0 _].
        exists c. split; [reflexivity|lia]. }
    rewrite of_Z_1.
    assert (exists k2, add (Fin false k) (Fin false c) = Fin false k2 /\ 0 <= k2)
      as (k2 & -> & Hk2).
    { unfold add. cbn [signed andb].
      destruct (Z.eqb_spec (k + c) 0); [exists 0; split; [reflexivity|lia]|].
      destruct (Z.ltb_spec (k + c) 0); [lia|]. rewrite Z.abs_eq by lia.
      pose proof (round_ratio_below false 2 (k + c) W ltac:(lia) ltac:(lia) HW
                    ltac:(lia)) as Hhi.
      destruct (round_ratio_cases false (k + c) W) as [Hr|[k2 Hr]]; rewrite Hr in *;
        cbn [magnitude] in Hhi.
      - rewrite <- OVERFLOW_W in Hhi.
        assert (2 < 2 ^ 1024) by (apply (Z.lt_trans _ (2 ^ 2)); [lia|apply Z.pow_lt_mono_r; lia]).
        nia.
      - destruct (round_ratio_upper false (k + c) W k2 ltac:(lia) HW Hr) as [Hk0 _].
        exists k2. split; [reflexivity|lia]. }
    rewrite rem_unfold by lia.
    exists (k2 mod W). split; [reflexivity|]. apply Z.mod_pos_bound. lia. }
  split; [exact Hstep|].
  induction ticks as [|ticks (k & IH & Hk)].
  - exists 0. split; [reflexivity|lia].
  - change (Nat.iter (S ticks) increasePercentage (of_Z 0))
      with (increasePercentage (Nat.iter ticks increasePercentage (of_Z 0))).
    rewrite IH. apply Hstep. exact Hk.
Qed.

End SpinnerTheorems.

(** ** The precision of fiat amounts *)

Module PrecisionTheorems.
Import JSNumber Text JSValue Intl Helper Sample.
Import NumberFacts ValueFacts FormatFacts DivisionFacts TextFacts RoundTripFacts.

Lemma digit_option_2 : digit_option (Num (of_Z 2)) = Ok (Some 2).
Proof. vm_compute. reflexivity. Qed.

(** A fraction-digit option that is an integer. *)
Lemma digit_option_int (p : Z) :
  Z.abs p <= 2 ^ 53 ->
  digit_option (Num (of_Z p)) =
  if (0 <=? p) && (p <=? 100) then Ok (Some p) else Throw RangeError.
Proof.
  intros Hp. pose proof W_pos as HW. cbn [digit_option ToNumber].
  rewrite of_Z_exact by assumption.
  destruct (Z.ltb_spec p 0) as [Hneg|Hpos].
  - destruct (Z.eqb_spec (Z.abs p * W) 0); [nia|].
    destruct (Z.leb_spec 0 p); [lia|reflexivity].
  - rewrite Z.abs_eq by lia. rewrite whole_eq, Z.div_mul by lia.
    destruct (Z.leb_spec 0 p); [|lia]. cbn [andb].
    destruct (Z.leb_spec (p * W) (100 * W)), (Z.leb_spec p 100); try reflexivity; nia.
Qed.

(** Trailing zeros are dropped down to the minimum number of fraction
    digits, not further. *)
Lemma trim_fraction_digits (cut : nat) :
  forall n f n' f', trim_fraction cut n f = (n', f') -> f - Z.of_nat cut <= f' <= f.
Proof.
  induction cut as [|cut IH]; intros n f n' f' Ht; cbn [trim_fraction] in Ht.
  - injection Ht as <- <-. lia.
  - destruct (n mod 10 =? 0).
    + apply IH in Ht. lia.
    + injection Ht as <- <-. lia.
Qed.

(** A finite Number in fixed-point notation with between [mn >= 1] and
    [mx] fraction digits: a sign, integer digits, a point and that many
    fraction digits. *)
Lemma en_US_decimal_shape (s : bool) (k mn mx : Z) :
  1 <= mn <= mx ->
  exists int frac : string,
    en_US_decimal (mkNumberFormat EnUS Decimal EmptyString false mn mx) (Fin s k) =
      (if s then "-" else "") +:+ int +:+ "." +:+ frac /\
    all_chars is_digit int = true /\ all_chars is_digit frac = true /\
    mn <= Z.of_nat (String.length frac) <= mx.
Proof.
  intros Hm. unfold en_US_decimal.
  cbn [nf_minimumFractionDigits nf_maximumFractionDigits nf_useGrouping].
  destruct (raw_fixed k mn mx) as [n f] eqn:Hraw.
  assert (mn <= f <= mx) as Hf.
  { unfold raw_fixed in Hraw. destruct (if k =? 0 then _ else _) as [d p].
    cbv zeta in Hraw. apply trim_fraction_digits in Hraw.
    rewrite Z2Nat.id in Hraw by lia. lia. }
  unfold fixed_point. cbv zeta. destruct (Z.leb_spec f 0) as [|_]; [lia|].
  exists (decimal (n / 10 ^ f)), (fixed_digits (Z.to_nat f) (n mod 10 ^ f)).
  split; [reflexivity|]. split; [apply decimal_digits|]. split; [apply all_digits_fixed|].
  rewrite length_fixed, Z2Nat.id by lia. exact Hf.
Qed.

(** X17.  In fiat mode [toAmount] renders the exchange value with at
    least 2 and at most [fiatPrecision] fraction digits (8 when the
    argument is omitted): when the value is finite, the amount is a sign,
    integer digits, a point and between 2 and [fiatPrecision] fraction
    digits.  An integer [fiatPrecision] below 2 or above 100 is not
    accepted by the number format: the call ends in a RangeError, not in
    [InvalidInput]. *)
Theorem toAmount_fiat_precision (host : Host) (UNITS : value)
    (fields rates : gmap string value) (x : number) (btc : value) (p : Z) :
  isIntegral x = true ->
  fields !! "displayFiat" = Some (Bool true) ->
  fields !! "exchangeRate" = Some (Obj rates) ->
  denominator_of UNITS (Str "btc") = Ok btc ->
  Z.abs p <= 2 ^ 53 ->
  exists num : number,
    calculateExchangeRate UNITS (Num x) (Obj fields) = Ok (Num num) /\
    toAmount host UNITS (Num x) (Obj fields) (Num (of_Z p)) =
      (if (2 <=? p) && (p <=? 100)
       then Ok (en_US_decimal (mkNumberFormat EnUS Decimal EmptyString false 2 p) num)
       else Throw RangeError) /\
    toAmount host UNITS (Num x) (Obj fields) Undefined =
      Ok (en_US_decimal (mkNumberFormat EnUS Decimal EmptyString false 2 8) num) /\
    (forall (s : bool) (k mx : Z),
        num = Fin s k -> 2 <= mx ->
        exists int frac : string,
          en_US_decimal (mkNumberFormat EnUS Decimal EmptyString false 2 mx) num =
            (if s then "-" else "") +:+ int +:+ "." +:+ frac /\
          all_chars is_digit int = true /\ all_chars is_digit frac = true /\
          2 <= Z.of_nat (String.length frac) <= mx).
Proof.
  intros Hi Hdf Hrates Hbtc Hp.
  assert (exists num, calculateExchangeRate UNITS (Num x) (Obj fields) = Ok (Num num))
    as [num Hnum].
  { unfold calculateExchangeRate, mbind, result_bind. cbn [isInteger]. rewrite Hi.
    cbn [negb]. rewrite get_object by reflexivity. rewrite Hdf. cbn [default from_option id typeof].
    change (String.eqb "boolean" "boolean") with true. cbn [negb].
    pose proof (rate_of_object fields rates Hrates) as Hr.
    unfold mbind, result_bind in Hr. rewrite Hr, Hbtc. eauto. }
  exists num. split; [exact Hnum|].
  assert (forall precision : value,
             toAmount host UNITS (Num x) (Obj fields) precision =
             match digit_option (match precision with
                                 | Undefined => Num (of_Z 8)
                                 | v => v
                                 end) with
             | Ok (Some mx) =>
                 if mx <? 2 then Throw RangeError
                 else Ok (en_US_decimal (mkNumberFormat EnUS Decimal EmptyString false 2 mx) num)
             | Ok None =>
                 Ok (en_US_decimal (mkNumberFormat EnUS Decimal EmptyString false 2 3) num)
             | Throw e => Throw e
             end) as Hrun.
  { intros precision. unfold toAmount, mbind, result_bind. cbn [isInteger truthy].
    rewrite Hi. cbn [negb]. rewrite !get_object by reflexivity. rewrite Hdf.
    cbn [default from_option id typeof truthy].
    change (String.eqb "boolean" "boolean") with true. cbn [negb].
    rewrite Hnum. unfold construct, mbind, result_bind.
    cbn [opt_style opt_minimumFractionDigits opt_maximumFractionDigits opt_useGrouping].
    rewrite digit_option_2.
    destruct (digit_option _) as [[mx|]|e]; try reflexivity.
    destruct (mx <? 2); reflexivity. }
  split; [|split].
  - rewrite Hrun. cbv beta iota.
    rewrite digit_option_int by assumption.
    destruct (Z.leb_spec 0 p), (Z.leb_spec p 100), (Z.leb_spec 2 p); cbn [andb];
      try reflexivity; try lia; destruct (Z.ltb_spec p 2); try reflexivity; lia.
  - rewrite Hrun. cbv beta iota. rewrite digit_option_8. reflexivity.
  - intros s k mx -> Hmx. apply en_US_decimal_shape. lia.
Qed.

(** One bitcoin at 7000 dollars, to one decimal place: refused. *)
Lemma toAmount_fiat_precision_witness :
  toAmount dollar_host Sample.UNITS (Num (of_Z 100000000)) (fiat_settings (of_Z 7000))
    (Num (of_Z 1)) = Throw RangeError.
Proof.
  destruct (toAmount_fiat_precision dollar_host Sample.UNITS
              (list_to_map [ ("displayFiat", Bool true); ("fiat", Str "usd");
                             ("exchangeRate", object [("usd", Num (of_Z 7000))]) ])
              (list_to_map [("usd", Num (of_Z 7000))])
              (of_Z 100000000) (Num (of_Z 100000000)) 1)
    as (num & _ & Hrun & _ & _).
  - vm_compute. reflexivity.
  - vm_compute. reflexivity.
  - vm_compute. reflexivity.
  - vm_compute. reflexivity.
  - lia.
  - exact Hrun.
Defined.

End PrecisionTheorems.

Module ContinuousFacts.
Import JSNumber Text JSValue Intl Helper Magnitude Spinner.
Import NumberFacts ValueFacts FormatFacts DivisionFacts RoundingOrder BudgetFacts SpinnerFacts.

(** A rounded quotient is below the exact one by at most half a last
    place. *)
Lemma round_ratio_lower (s : bool) (a b k : Z) :
  0 <= a -> 0 < b -> round_ratio s a b = Fin s k ->
  2 * (a * W) <= 2 * k * b + b * 2 ^ ulp_shift a b.
Proof.
  intros Ha Hb. rewrite round_ratio_unfold by assumption. cbv zeta.
  pose proof (ulp_shift_nonneg a b) as Ht. pose proof W_pos as HW.
  assert (0 < 2 ^ ulp_shift a b) as HP by (apply Z.pow_pos_nonneg; lia).
  destruct (Z.eqb_spec a 0) as [->|Ha0]; [intros [= <-]; nia|].
  pose proof (rne_bounds (a * W) (b * 2 ^ ulp_shift a b) ltac:(nia) ltac:(nia)) as Hm.
  set (P := 2 ^ ulp_shift a b) in *. set (m := rne (a * W) (b * P)) in *. clearbody m P.
  destruct (OVERFLOW <=? m * P); [discriminate|]. intros [= <-]. nia.
Qed.

(** A quotient below [2^j] rounds to a finite Number, off by at most half
    of [2^(j + 1021)] units. *)
Lemma round_ratio_within (s : bool) (a j : Z) :
  0 <= a -> 0 <= j <= 10 -> a < W * 2 ^ j ->
  exists k, round_ratio s a W = Fin s k /\
            0 <= k /\ 2 * k <= 2 * a + 2 ^ (j + 1021) /\ 2 * a <= 2 * k + 2 ^ (j + 1021).
Proof.
  intros Ha Hj Hlt. pose proof W_pos as HW.
  assert (0 < 2 ^ j) as Hpj by (apply Z.pow_pos_nonneg; lia).
  assert (2 ^ j <= 2 ^ 10) as Hj10 by (apply Z.pow_le_mono_r; lia).
  pose proof (round_ratio_below s (2 ^ j) a W ltac:(lia) Ha HW ltac:(lia)) as Hhi.
  assert (2 ^ j * W < OVERFLOW) as Hfin.
  { rewrite <- OVERFLOW_W.
    assert (2 ^ 10 < 2 ^ 1024) by (apply Z.pow_lt_mono_r; lia).
    revert H. generalize (2 ^ 1024). intros A HA. nia. }
  destruct (round_ratio_cases s a W) as [Hr|[k Hr]]; rewrite Hr in Hhi;
    cbn [magnitude] in Hhi; [lia|].
  exists k. split; [exact Hr|].
  destruct (round_ratio_upper s a W k Ha HW Hr) as [Hk Hup].
  pose proof (round_ratio_lower s a W k Ha HW Hr) as Hlo.
  pose proof (ulp_shift_bound a W j Ha HW ltac:(lia) Hlt) as Ht.
  pose proof (ulp_shift_nonneg a W) as Ht0.
  assert (2 ^ ulp_shift a W <= 2 ^ (j + 1021)) as Hpow by (apply Z.pow_le_mono_r; lia).
  revert Hup Hlo Hpow. generalize (2 ^ ulp_shift a W) (2 ^ (j + 1021)).
  intros Q P Hup Hlo Hpow. split; [exact Hk|]. split; nia.
Qed.

(** The Number [0.4]. *)
Lemma two_fifths :
  exists c, of_ratio 2 5 = Fin false c /\ 0 <= c /\ 10 * c <= 4 * W + 5 * 2 ^ 1021.
Proof.
  unfold of_ratio. pose proof W_pos as HW.
  pose proof (round_ratio_below false 1 2 5 ltac:(lia) ltac:(lia) ltac:(lia) ltac:(lia)) as Hhi.
  destruct (round_ratio_cases false 2 5) as [Hr|[c Hr]]; rewrite Hr in Hhi;
    cbn [magnitude] in Hhi.
  - rewrite <- OVERFLOW_W in Hhi.
    assert (1 < 2 ^ 1024) by (apply (Z.pow_gt_1 2 1024); lia). nia.
  - exists c. split; [exact Hr|].
    destruct (round_ratio_upper false 2 5 c ltac:(lia) ltac:(lia) Hr) as [Hc Hup].
    split; [exact Hc|].
    pose proof (ulp_shift_bound 2 5 0 ltac:(lia) ltac:(lia) ltac:(lia) ltac:(lia)) as Ht.
    pose proof (ulp_shift_nonneg 2 5) as Ht0.
    assert (2 ^ ulp_shift 2 5 <= 2 ^ 1021) as Hpow by (apply Z.pow_le_mono_r; lia).
    revert Hup Hpow. generalize (2 ^ ulp_shift 2 5) (2 ^ 1021). intros Q P Hup Hpow. lia.
Qed.

(** In continuous mode the arc spans about 144 degrees, never more than
    180. *)
Lemma continuous_span (k : Z) :
  0 <= k < W ->
  leb (sub (mul (add (Fin false k) (of_ratio 2 5)) (of_Z 360))
           (mul (Fin false k) (of_Z 360)))
      (of_Z 180) = true.
Proof.
  intros Hk. pose proof W_pos as HW.
  destruct two_fifths as (c & -> & Hc0 & Hc).
  assert (W = 2 ^ 53 * 2 ^ 1021) as HW53 by (rewrite W_eq, <- Z.pow_add_r by lia; reflexivity).
  assert (0 < 2 ^ 1021) as HP by (apply Z.pow_pos_nonneg; lia).
  (* the sum *)
  assert (exists q, add (Fin false k) (Fin false c) = Fin false q /\
                    0 <= q /\ 2 * q <= 2 * (k + c) + 2 ^ 1022) as (q & -> & Hq0 & Hq).
  { unfold add. cbn [signed andb].
    destruct (Z.eqb_spec (k + c) 0) as [H0|H0].
    - exists 0. split; [reflexivity|]. split; [lia|].
      assert (0 < 2 ^ 1022) by (apply Z.pow_pos_nonneg; lia). lia.
    - destruct (Z.ltb_spec (k + c) 0); [lia|]. rewrite Z.abs_eq by lia.
      destruct (round_ratio_within false (k + c) 1 ltac:(lia) ltac:(lia)) as (q & Hr & Hq0 & Hq & _).
      { change (2 ^ 1) with 2. rewrite HW53 in *. revert Hc Hk HP. generalize (2 ^ 1021).
        intros P Hc Hk HP. lia. }
      exists q. split; [exact Hr|]. split; [exact Hq0|exact Hq]. }
  assert (2 ^ 1022 = 2 * 2 ^ 1021) as H22 by (rewrite <- Z.pow_succ_r by lia; reflexivity).
  assert (2 ^ (10 + 1021) = 1024 * 2 ^ 1021) as H31
    by (rewrite Z.pow_add_r by lia; reflexivity).
  assert (2 ^ (9 + 1021) = 512 * 2 ^ 1021) as H30
    by (rewrite Z.pow_add_r by lia; reflexivity).
  (* the end angle *)
  rewrite !times_360.
  destruct (round_ratio_within false (q * 360) 10 ltac:(lia) ltac:(lia))
    as (e & -> & He0 & He & _).
  { change (2 ^ 10) with 1024. rewrite HW53, H22 in *. revert Hc Hk HP Hq.
    generalize (2 ^ 1021). intros P Hc Hk HP Hq. lia. }
  (* the start angle *)
  destruct (round_ratio_within false (k * 360) 9 ltac:(lia) ltac:(lia))
    as (b & -> & Hb0 & _ & Hb).
  { change (2 ^ 9) with 512. lia. }
  rewrite H31 in He. rewrite H30 in Hb. rewrite H22 in Hq.
  assert (e - b <= 180 * W) as Hspan.
  { rewrite HW53 in *. revert Hc Hk HP Hq He Hb. generalize (2 ^ 1021).
    intros P Hc Hk HP Hq He Hb. lia. }
  rewrite of_Z_180. unfold sub, opp, add. cbn [negb signed].
  destruct (Z.eqb_spec (e + - b) 0) as [H0|H0].
  - unfold leb, compare. cbn [signed andb].
    destruct (Z.compare_spec 0 (180 * W)); try reflexivity; lia.
  - destruct (Z.ltb_spec (e + - b) 0) as [Hneg|Hpos].
    + destruct (round_ratio_cases true (Z.abs (e + - b)) W) as [->|[d Hd]]; [reflexivity|].
      destruct (round_ratio_upper true (Z.abs (e + - b)) W d ltac:(lia) HW Hd) as [Hd0 _].
      rewrite Hd. unfold leb, compare. cbn [signed].
      destruct (Z.compare_spec (- d) (180 * W)); try reflexivity; lia.
    + rewrite Z.abs_eq by lia.
      pose proof (round_ratio_below false 180 (e + - b) W
                    ltac:(lia) ltac:(lia) HW ltac:(lia)) as Hhi.
      destruct (round_ratio_cases false (e + - b) W) as [Hr|[d Hr]]; rewrite Hr in *;
        cbn [magnitude] in Hhi.
      * rewrite <- OVERFLOW_W in Hhi.
        assert (180 < 2 ^ 1024)
          by (apply (Z.lt_trans _ (2 ^ 8)); [lia|apply Z.pow_lt_mono_r; lia]).
        nia.
      * unfold leb, compare. cbn [signed].
        destruct (Z.compare_spec d (180 * W)); try reflexivity; lia.
Qed.

End ContinuousFacts.

Module ContinuousTheorems.
Import JSNumber Text JSValue Intl Helper Magnitude Spinner Sample.
Import NumberFacts ValueFacts FormatFacts SpinnerFacts ContinuousFacts.

(** X18.  The continuous spinner ([continuous] truthy) draws the arc from
    [percentage * 360] to [(percentage + 0.4) * 360] degrees, and for a
    percentage in [0, 1) always as the minor arc: its large-arc flag is
    ['0'], whatever the roundings of the two angles and of their
    difference. *)
Theorem SpinnerProgress_continuous (host : Host) (continuous : value) (width : number)
    (k : Z) :
  truthy continuous = true -> 0 <= k < W ->
  exists (sweepFlag : string) (endX : number),
    SpinnerProgress host continuous width (Fin false k) =
    generateArc host (div width (of_Z 2)) (div width (of_Z 2)) (div width (of_Z 2))
      (mul (Fin false k) (of_Z 360)) (mul (add (Fin false k) (of_ratio 2 5)) (of_Z 360)) /\
    SpinnerProgress host continuous width (Fin false k) =
    join " "
      [ "M " +:+ NumberToString (div width (of_Z 2)) +:+ " " +:+
          NumberToString (div width (of_Z 2));
        "L " +:+
          NumberToString (px (polarToCartesian host (div width (of_Z 2)) (div width (of_Z 2))
                                (div width (of_Z 2))
                                (mul (add (Fin false k) (of_ratio 2 5)) (of_Z 360)))) +:+
          " " +:+
          NumberToString (py (polarToCartesian host (div width (of_Z 2)) (div width (of_Z 2))
                                (div width (of_Z 2))
                                (mul (add (Fin false k) (of_ratio 2 5)) (of_Z 360))));
        "A " +:+ NumberToString (div width (of_Z 2)) +:+ " " +:+
          NumberToString (div width (of_Z 2)) +:+ " 0 " +:+
          "0" +:+ " " +:+ sweepFlag +:+ " " +:+
          NumberToString endX +:+ " " +:+
          NumberToString (py (polarToCartesian host (div width (of_Z 2)) (div width (of_Z 2))
                                (div width (of_Z 2)) (mul (Fin false k) (of_Z 360))));
        "Z" ].
Proof.
  intros Hc Hk.
  eexists _, _. unfold SpinnerProgress. rewrite Hc.
  split; [reflexivity|].
  unfold generateArc. rewrite (continuous_span k Hk). reflexivity.
Qed.

(** The first frame of the spinner of the loading screen. *)
Lemma SpinnerProgress_continuous_witness :
  exists (sweepFlag : string) (endX : number),
    SpinnerProgress dollar_host (Bool true) (of_Z 80) (Fin false 0) =
    "M 40 40 L 63.51141009169893 72.36067977499789 A 40 40 0 0 " +:+ sweepFlag +:+ " " +:+
      NumberToString endX +:+ " 0 Z".
Proof.
  destruct (SpinnerProgress_continuous dollar_host (Bool true) (of_Z 80) 0 eq_refl)
    as (sw & endX & _ & Hpath).
  - split; [lia|apply W_pos].
  - exists "0", (of_Z 40). vm_compute. reflexivity.
Defined.

End ContinuousTheorems.

(** ** The patterns of [toSatoshis] and [formatFiat] *)

Module PatternFacts.
Import Text RegExp TextFacts RegExpFacts.

Lemma digits_split (s : string) :
  s = take_digits s +:+ skip_digits s /\ all_chars is_digit (take_digits s) = true.
Proof.
  induction s as [|c s [IH1 IH2]]; [split; reflexivity|].
  cbn [take_digits skip_digits]. destruct (is_digit c) eqn:Hc.
  - split.
    + change (String c s = String c (take_digits s +:+ skip_digits s)). f_equal. exact IH1.
    + cbn [all_chars]. rewrite Hc. exact IH2.
  - split; reflexivity.
Qed.

Lemma skip_digits_head (s : string) (c : ascii) (t : string) :
  skip_digits s = String c t -> is_digit c = false.
Proof.
  induction s as [|d s IH]; cbn [skip_digits]; [discriminate|].
  destruct (is_digit d) eqn:Hd; [exact IH|].
  intros [= -> _]. exact Hd.
Qed.

Lemma skip_digits_empty (s : string) :
  skip_digits s = EmptyString -> all_chars is_digit s = true.
Proof.
  induction s as [|d s IH]; cbn [skip_digits all_chars]; [reflexivity|].
  destruct (is_digit d); [exact IH|discriminate].
Qed.

Lemma is_empty_true (s : string) : is_empty s = true -> s = EmptyString.
Proof. destruct s; [reflexivity|discriminate]. Qed.

(** What [toSatoshis]'s test accepts: digits, or digits with one point
    somewhere. *)
Lemma decimal_pattern_shape (s : string) :
  decimal_pattern s = true <->
  all_chars is_digit s = true \/
  exists a b, s = a +:+ String "." b /\
              all_chars is_digit a = true /\ all_chars is_digit b = true.
Proof.
  unfold decimal_pattern. cbv zeta. split.
  - destruct (digits_split s) as [Hs Ha].
    destruct (skip_digits s) as [|c t] eqn:Hr.
    + intros _. left. apply skip_digits_empty. exact Hr.
    + pose proof (skip_digits_head s c t Hr) as Hc.
      destruct (Ascii.eqb_spec c ".") as [->|Hne].
      * intros H. apply is_empty_true, skip_digits_empty in H.
        right. exists (take_digits s), t. auto.
      * cbn [skip_digits]. rewrite Hc. discriminate.
  - intros [H|(a & b & -> & Ha & Hb)].
    + rewrite (skip_digits_all s H). reflexivity.
    + rewrite skip_digits_app by exact Ha.
      cbn [skip_digits]. change (is_digit ".") with false. cbn iota.
      change (Ascii.eqb "." ".") with true. cbn iota.
      rewrite (skip_digits_all b Hb). reflexivity.
Qed.

Lemma decimal_regex_shape (s : string) :
  lang decimal_regex s <->
  all_chars is_digit s = true \/
  exists a b, s = a +:+ String "." b /\
              all_chars is_digit a = true /\ all_chars is_digit b = true.
Proof.
  unfold decimal_regex. split.
  - intros H. apply lang_seq_inv in H as (a & r & -> & Ha & H).
    apply lang_seq_inv in H as (m & b & -> & Hm & Hb).
    apply lang_star_chars in Ha, Hb.
    inversion Hm as [| |r1 r2 u H1|r1 r2 u H1| | |]; subst.
    + apply lang_eps_inv in H1 as ->. left.
      change (EmptyString +:+ b) with b. rewrite all_chars_app, Ha, Hb. reflexivity.
    + apply lang_chars_inv in H1 as (c & -> & Hc). apply Ascii.eqb_eq in Hc as <-.
      right. exists a, b. auto.
  - intros [H|(a & b & -> & Ha & Hb)].
    + rewrite <- (app_empty_r s). constructor; [apply lang_star_chars; exact H|].
      change (lang (Seq (Alt Eps (Chars (Ascii.eqb "."))) (Star (Chars is_digit)))
                (EmptyString +:+ EmptyString)).
      constructor; [apply lang_alt_l; constructor|constructor].
    + constructor; [apply lang_star_chars; exact Ha|].
      change (String "." b) with (String "." EmptyString +:+ b).
      constructor; [|apply lang_star_chars; exact Hb].
      apply lang_alt_r. constructor. reflexivity.
Qed.

Lemma lang_zero_fraction (m : string) :
  lang zero_fraction m <->
  exists c, (Ascii.eqb c "," || Ascii.eqb c ".") = true /\
            m = String "0" (String c (String "0" (String "0" EmptyString))).
Proof.
  unfold zero_fraction. split.
  - intros H. apply lang_seq_inv in H as (z & r & -> & Hz & H).
    apply lang_seq_inv in H as (p & q & -> & Hp & Hq).
    apply lang_chars_inv in Hz as (c0 & -> & H0). apply Ascii.eqb_eq in H0 as <-.
    apply lang_chars_inv in Hp as (c & -> & Hc).
    apply lang_power_chars in Hq as [Hl Hq].
    destruct q as [|x [|y [|? ?]]]; try discriminate.
    cbn [all_chars] in Hq. apply andb_true_iff in Hq as [Hx Hy].
    apply andb_true_iff in Hy as [Hy _].
    apply Ascii.eqb_eq in Hx as <-. apply Ascii.eqb_eq in Hy as <-.
    exists c. auto.
  - intros (c & Hc & ->).
    change (String "0" (String c (String "0" (String "0" EmptyString))))
      with (String "0" EmptyString +:+
            (String c EmptyString +:+ String "0" (String "0" EmptyString))).
    constructor; [constructor; reflexivity|].
    constructor; [constructor; exact Hc|].
    apply lang_power_chars. split; reflexivity.
Qed.

Lemma zero_fraction_here_spec (s : string) :
  zero_fraction_here s = true <-> exists m rest, lang zero_fraction m /\ s = m +:+ rest.
Proof.
  split.
  - destruct s as [|c0 [|c1 [|c2 [|c3 rest]]]]; cbn [zero_fraction_here]; try discriminate.
    intros H. apply andb_true_iff in H as [H H3]. apply andb_true_iff in H as [H H2].
    apply andb_true_iff in H as [H0 H1].
    apply Ascii.eqb_eq in H0 as ->. apply Ascii.eqb_eq in H2 as ->.
    apply Ascii.eqb_eq in H3 as ->.
    exists (String "0" (String c1 (String "0" (String "0" EmptyString)))), rest.
    split; [apply lang_zero_fraction; eauto|reflexivity].
  - intros (m & rest & Hm & ->). apply lang_zero_fraction in Hm as (c & Hc & ->).
    change (zero_fraction_here (String "0" (String c (String "0" (String "0" rest)))) = true).
    cbn [zero_fraction_here]. rewrite Hc. reflexivity.
Qed.

Lemma zero_fraction_pattern_unfold (s : string) :
  zero_fraction_pattern s =
  zero_fraction_here s ||
  match s with EmptyString => false | String _ r => zero_fraction_pattern r end.
Proof. destruct s; reflexivity. Qed.

Lemma zero_fraction_pattern_spec (s : string) :
  zero_fraction_pattern s = true <->
  exists pre m rest, lang zero_fraction m /\ s = pre +:+ (m +:+ rest).
Proof.
  split.
  - induction s as [|c s IH]; rewrite zero_fraction_pattern_unfold; intros H;
      apply orb_true_iff in H as [H|H]; try discriminate.
    + apply zero_fraction_here_spec in H as (m & rest & Hm & ->).
      exists EmptyString, m, rest. auto.
    + destruct (IH H) as (pre & m & rest & Hm & ->).
      exists (String c pre), m, rest. auto.
  - intros (pre & m & rest & Hm & ->).
    induction pre as [|c pre IH]; rewrite zero_fraction_pattern_unfold.
    + change (EmptyString +:+ (m +:+ rest)) with (m +:+ rest).
      apply orb_true_iff. left. apply zero_fraction_here_spec. eauto.
    + change (String c pre +:+ (m +:+ rest)) with (String c (pre +:+ (m +:+ rest))).
      cbv iota. rewrite IH. apply orb_true_r.
Qed.

Lemma lang_any (s : string) : lang (Star (Chars (fun _ => true))) s.
Proof. apply lang_star_chars. induction s; [reflexivity|exact IHs]. Qed.

Lemma lang_somewhere (r : regex) (s : string) :
  lang (somewhere r) s <-> exists pre m rest, lang r m /\ s = pre +:+ (m +:+ rest).
Proof.
  unfold somewhere. split.
  - intros H. apply lang_seq_inv in H as (pre & u & -> & _ & H).
    apply lang_seq_inv in H as (m & rest & -> & Hm & _). eauto.
  - intros (pre & m & rest & Hm & ->).
    constructor; [apply lang_any|]. constructor; [exact Hm|apply lang_any].
Qed.

End PatternFacts.

Module PatternTheorems.
Import Text RegExp TextFacts RegExpFacts PatternFacts.

(** X19.  The two string tests of the helpers, as the conversions
    evaluate them, decide the regular expressions of the source on every
    string: [toSatoshis]'s test is [/^[0-9]*[.]?[0-9]*$/], which accepts
    exactly the strings of digits with at most one point among them, and
    [formatFiat]'s test is [/0[,.]0{2}/] matched anywhere in the
    string. *)
Theorem patterns_decided (s : string) :
  decimal_pattern s = test decimal_regex s /\
  zero_fraction_pattern s = test zero_fraction_regex s /\
  (decimal_pattern s = true <->
   all_chars is_digit s = true \/
   exists a b, s = a +:+ String "." b /\
               all_chars is_digit a = true /\ all_chars is_digit b = true).
Proof.
  split; [|split].
  - apply eq_true_iff_eq. rewrite test_spec, decimal_regex_shape.
    apply decimal_pattern_shape.
  - apply eq_true_iff_eq. rewrite test_spec. unfold zero_fraction_regex.
    rewrite lang_somewhere. apply zero_fraction_pattern_spec.
  - apply decimal_pattern_shape.
Qed.

End PatternTheorems.

(** ** The currency code of [formatFiat] *)

Module CurrencyFacts.
Import JSNumber Text JSValue Intl Helper NumberFacts ValueFacts FormatFacts.

Section Host.
Variable host : Host.


End Host.

End CurrencyFacts.

Module CurrencyTheorems.
Import JSNumber Text JSValue Intl Helper NumberFacts ValueFacts FormatFacts CurrencyFacts.


End CurrencyTheorems.

(** ** The amounts [toSatoshis] accepts *)

Module AmountFacts.
Import JSNumber Text JSValue Intl Helper NumberFacts ValueFacts TextFacts FixedPointFacts
  BudgetFacts SpinnerFacts PatternFacts.

Local Ltac binds := unfold mbind, result_bind, mret, result_ret in *.

Lemma digits_value_from_nonneg (s : string) :
  forall acc, all_chars is_digit s = true -> 0 <= acc -> 0 <= digits_value_from acc s.
Proof.
  induction s as [|c s IH]; intros acc Hs Hacc; cbn [digits_value_from]; [exact Hacc|].
  cbn [all_chars] in Hs. apply andb_true_iff in Hs as [Hc Hs].
  apply IH; [exact Hs|].
  unfold is_digit in Hc. apply andb_true_iff in Hc as [Hc _]. apply Z.leb_le in Hc.
  unfold digit_value. lia.
Qed.

(** A string of digits and points is read as a decimal literal. *)
Lemma StringToNumber_decimal (c : ascii) (r : string) :
  plain c = true -> all_chars plain r = true ->
  StringToNumber (String c r) =
  match parse_decimal (String c r) with
  | Some (m, e) => of_decimal false m e
  | None => NaN
  end.
Proof.
  intros Hc Hr. unfold StringToNumber, trim.
  assert (is_space c = false) as Hsp by (apply negb_true_iff, plain_not_space, Hc).
  cbn [trim_left]. rewrite Hsp.
  rewrite trim_right_id.
  2:{ cbn [all_chars]. rewrite Hsp. cbn [negb andb].
      eapply all_chars_impl; [|exact Hr]. apply plain_not_space. }
  assert (signed_literal (String c r) =
          match parse_decimal (String c r) with
          | Some (m, e) => of_decimal false m e
          | None => NaN
          end) as Hlit.
  { unfold signed_literal, take_sign.
    rewrite (plain_not c "+"), (plain_not c "-") by (assumption || reflexivity).
    cbn [String.eqb]. rewrite (plain_not c "I") by (assumption || reflexivity).
    reflexivity. }
  destruct r as [|x r']; [exact Hlit|].
  cbn [all_chars] in Hr. apply andb_prop in Hr as [Hx _].
  rewrite (plain_not x "x"), (plain_not x "X"), (plain_not x "o"), (plain_not x "O"),
    (plain_not x "b"), (plain_not x "B") by (assumption || reflexivity).
  rewrite !andb_false_r. exact Hlit.
Qed.

Lemma digits_plain (s : string) : all_chars is_digit s = true -> all_chars plain s = true.
Proof. apply all_chars_impl. exact digit_plain. Qed.

Lemma decimal_pattern_plain (s : string) :
  decimal_pattern s = true -> all_chars plain s = true.
Proof.
  intros H. apply decimal_pattern_shape in H as [H|(a & b & -> & Ha & Hb)].
  - apply digits_plain. exact H.
  - rewrite all_chars_app. cbn [all_chars].
    rewrite (digits_plain a Ha), (digits_plain b Hb). reflexivity.
Qed.

(** An accepted string other than the empty one and the lone point has
    digits, and so a value. *)
Lemma parse_decimal_pattern (s : string) :
  decimal_pattern s = true -> s <> EmptyString -> s <> "."%string ->
  exists m e, 0 <= m /\ e <= 0 /\ parse_decimal s = Some (m, e).
Proof.
  intros H Hne Hpt. apply decimal_pattern_shape in H as [H|(a & b & -> & Ha & Hb)].
  - unfold parse_decimal. rewrite (take_digits_all s H), (skip_digits_all s H).
    destruct s as [|c s]; [congruence|]. cbn [is_empty andb].
    eexists _, _. split; [|split; [|reflexivity]]; [|cbn; lia].
    apply digits_value_from_nonneg; [|lia].
    rewrite all_chars_app, H. reflexivity.
  - unfold parse_decimal.
    rewrite take_digits_app, skip_digits_app by exact Ha.
    cbn [take_digits skip_digits]. change (is_digit ".") with false. cbv iota.
    change (Ascii.eqb "." ".") with true. cbv iota.
    rewrite (take_digits_all b Hb), (skip_digits_all b Hb), app_empty_r.
    destruct (is_empty a && is_empty b) eqn:He.
    + apply andb_true_iff in He as [Ea Eb].
      apply is_empty_true in Ea, Eb. subst. exfalso. apply Hpt. reflexivity.
    + eexists _, _. split; [|split; [|reflexivity]]; [|lia].
      apply digits_value_from_nonneg; [|lia].
      rewrite all_chars_app, Ha, Hb. reflexivity.
Qed.

(** The sign of a rounded quotient. *)
Lemma round_ratio_sign (a b : Z) :
  0 <= a -> 0 < b ->
  round_ratio false a b = Inf false \/ exists k, 0 <= k /\ round_ratio false a b = Fin false k.
Proof.
  intros Ha Hb. destruct (round_ratio_cases false a b) as [H|[k H]]; [left; exact H|].
  right. exists k. split; [|exact H].
  apply (round_ratio_upper false a b k Ha Hb H).
Qed.

(** The Number of an accepted string: never negative, and NaN for the
    lone point only. *)
Lemma amount_number (s : string) :
  decimal_pattern s = true -> s <> "."%string ->
  StringToNumber s = Inf false \/ exists k, 0 <= k /\ StringToNumber s = Fin false k.
Proof.
  intros H Hpt. destruct s as [|c r] eqn:Hs.
  - right. exists 0. split; [lia|reflexivity].
  - pose proof (decimal_pattern_plain _ H) as Hp. cbn [all_chars] in Hp.
    apply andb_true_iff in Hp as [Hc Hr].
    rewrite (StringToNumber_decimal c r Hc Hr).
    destruct (parse_decimal_pattern _ H ltac:(discriminate) Hpt) as (m & e & Hm & He & ->).
    unfold of_decimal. apply round_ratio_sign.
    + apply Z.mul_nonneg_nonneg; [exact Hm|]. apply Z.pow_nonneg. lia.
    + apply Z.pow_pos_nonneg; lia.
Qed.

(** A product with a positive finite factor keeps the sign, and rounding
    it gives a whole number. *)
Lemma round_mul_whole (x : number) (k : Z) :
  x = Inf false \/ (exists a, 0 <= a /\ x = Fin false a) ->
  0 < k ->
  mul x (Fin false k) = Inf false \/ exists a, 0 <= a /\ mul x (Fin false k) = Fin false a.
Proof.
  intros [->|(a & Ha & ->)] Hk; cbn [mul xorb].
  - left. destruct (Z.eqb_spec k 0); [lia|reflexivity].
  - pose proof W_pos. apply round_ratio_sign; nia.
Qed.

Lemma round_whole (x : number) :
  x = Inf false \/ (exists a, 0 <= a /\ x = Fin false a) ->
  round x = Inf false \/ exists n, 0 <= n /\ round x = Fin false (n * W).
Proof.
  intros [->|(a & Ha & ->)]; [left; reflexivity|].
  right. rewrite round_unfold. cbv iota. pose proof W_pos.
  eexists. split; [|reflexivity]. apply Z.div_pos; lia.
Qed.

Section Table.
Variable UNITS : value.

(** [toSatoshis] in fiat mode. *)
Lemma toSatoshis_fiat (amount : string) (fields rates : gmap string value) (btc : value) :
  fields !! "displayFiat" = Some (Bool true) ->
  fields !! "exchangeRate" = Some (Obj rates) ->
  denominator_of UNITS (Str "btc") = Ok btc ->
  toSatoshis UNITS (Str amount) (Obj fields) =
  if decimal_pattern amount
  then Ok (Num (round (mul (mul (StringToNumber amount)
                 (ToNumber (or_else
                    (property rates (ToString (default Undefined (fields !! "fiat"))))
                    (Num (of_Z 0)))))
              (ToNumber btc))))
  else Throw InvalidInput.
Proof.
  intros Hdf Hrates Hbtc. unfold toSatoshis. cbn [typeof ToString truthy negb]. binds.
  change (String.eqb "string" "string") with true. cbn [negb].
  destruct (decimal_pattern amount); cbn [negb]; [|reflexivity].
  rewrite !get_object by reflexivity. rewrite Hdf. cbn [default typeof truthy].
  change (String.eqb "boolean" "boolean") with true. cbn [negb].
  pose proof (rate_of_object fields rates Hrates) as Hr. binds.
  rewrite Hr, Hbtc. reflexivity.
Qed.

End Table.

End AmountFacts.

Module AmountTheorems.
Import JSNumber Text JSValue Intl Helper NumberFacts ValueFacts TextFacts AmountFacts Sample.

(** X20.  For a String amount that passes [toSatoshis]'s test and is not
    the lone point ["."], the result is never NaN and never negative: it
    is a whole number of satoshis, or [Infinity] when the product
    overflows.  This holds in unit mode for a positive finite denominator,
    and in fiat mode for a positive finite exchange rate and BTC
    denominator. *)
Theorem toSatoshis_whole (UNITS : value) (amount : string) (fields : gmap string value) :
  decimal_pattern amount = true -> amount <> "."%string ->
  (forall k : Z,
      fields !! "displayFiat" = Some (Bool false) ->
      denominator_of UNITS (default Undefined (fields !! "unit")) = Ok (Num (Fin false k)) ->
      0 < k ->
      exists r, toSatoshis UNITS (Str amount) (Obj fields) = Ok (Num r) /\
                (r = Inf false \/ exists n, 0 <= n /\ r = Fin false (n * W))) /\
  (forall (rates : gmap string value) (q b : Z),
      fields !! "displayFiat" = Some (Bool true) ->
      fields !! "exchangeRate" = Some (Obj rates) ->
      rates !! ToString (default Undefined (fields !! "fiat")) = Some (Num (Fin false q)) ->
      0 < q ->
      denominator_of UNITS (Str "btc") = Ok (Num (Fin false b)) ->
      0 < b ->
      exists r, toSatoshis UNITS (Str amount) (Obj fields) = Ok (Num r) /\
                (r = Inf false \/ exists n, 0 <= n /\ r = Fin false (n * W))).
Proof.
  intros Hpat Hpt. pose proof (amount_number amount Hpat Hpt) as Hx. split.
  - intros k Hdf Hden Hk.
    rewrite (toSatoshis_unit UNITS amount fields _ Hdf Hden), Hpat. cbn [ToNumber].
    eexists. split; [reflexivity|].
    apply round_whole, round_mul_whole; assumption.
  - intros rates q b Hdf Hrates Hq Hq0 Hbtc Hb.
    rewrite (toSatoshis_fiat UNITS amount fields rates _ Hdf Hrates Hbtc), Hpat.
    rewrite (property_own _ _ _ Hq). unfold or_else. cbn [truthy].
    destruct (Z.eqb_spec q 0) as [->|_]; [lia|]. cbn [negb ToNumber].
    eexists. split; [reflexivity|].
    apply round_whole, round_mul_whole; [|exact Hb].
    apply round_mul_whole; assumption.
Qed.

(** ["0.0001"] in BTC: a whole number of satoshis. *)
Lemma toSatoshis_whole_witness :
  exists r, toSatoshis Sample.UNITS (Str "0.0001") (unit_settings "btc") = Ok (Num r) /\
            (r = Inf false \/ exists n, 0 <= n /\ r = Fin false (n * W)).
Proof.
  refine (proj1 (toSatoshis_whole Sample.UNITS "0.0001"
                   (list_to_map [("displayFiat", Bool false); ("unit", Str "btc")]) _ _)
            (100000000 * W) _ _ _).
  - vm_compute. reflexivity.
  - discriminate.
  - vm_compute. reflexivity.
  - vm_compute. reflexivity.
  - pose proof NumberFacts.W_pos. lia.
Defined.

End AmountTheorems.

(** ** The shortest decimal of a Number *)

Module DecimalFacts.
Import JSNumber Text JSValue Intl Helper Magnitude.
Import NumberFacts ValueFacts FormatFacts DivisionFacts TextFacts FixedPointFacts
  RoundingFacts RoundingOrder BudgetFacts SpinnerFacts ContinuousFacts.

(** A finite rounding is below the overflow threshold. *)
Lemma round_ratio_finite (s : bool) (a b k : Z) :
  round_ratio s a b = Fin s k -> k < OVERFLOW.
Proof.
  unfold round_ratio. destruct (a =? 0).
  - intros [= <-]. rewrite OVERFLOW_eq. apply Z.pow_pos_nonneg; lia.
  - cbv zeta.
    match goal with |- context [OVERFLOW <=? ?x] => destruct (Z.leb_spec OVERFLOW x) end;
      [discriminate|].
    intros [= <-]. assumption.
Qed.

(** A rounding is known by its magnitude. *)
Lemma round_ratio_magnitude (a b k : Z) :
  k < OVERFLOW -> magnitude (round_ratio false a b) = k -> round_ratio false a b = Fin false k.
Proof.
  intros Hk Hm. destruct (round_ratio_cases false a b) as [Hr|[k' Hr]]; rewrite Hr in Hm |- *;
    cbn [magnitude] in Hm; [lia|congruence].
Qed.

(** The decimal [m * 10^e] as a quotient with any denominator [10^E]
    that makes the numerator whole. *)
Lemma of_decimal_ratio (neg : bool) (m e E : Z) :
  0 <= E -> 0 <= e + E ->
  of_decimal neg m e = round_ratio neg (m * 10 ^ (e + E)) (10 ^ E).
Proof.
  intros HE HeE. unfold of_decimal.
  assert (0 < 10 ^ E) as HpE by (apply Z.pow_pos_nonneg; lia).
  destruct (Z.le_ge_cases 0 e) as [He|He].
  - rewrite Z.max_l, Z.max_r by lia. rewrite Z.pow_0_r.
    rewrite <- (round_ratio_scale neg (m * 10 ^ e) 1 (10 ^ E)) by lia.
    rewrite Z.pow_add_r by lia. f_equal; lia.
  - rewrite Z.max_r, Z.max_l by lia. rewrite Z.pow_0_r, Z.mul_1_r.
    assert (0 < 10 ^ (- e)) by (apply Z.pow_pos_nonneg; lia).
    assert (0 < 10 ^ (e + E)) by (apply Z.pow_pos_nonneg; lia).
    rewrite <- (round_ratio_scale neg m (10 ^ (- e)) (10 ^ (e + E))) by lia.
    f_equal. rewrite <- Z.pow_add_r by lia. f_equal. lia.
Qed.

(** The decimal below the magnitude [k / W] at the place [10^p]. *)
Lemma candidate_below (k p : Z) :
  0 <= k ->
  let E := Z.max (- p) 0 in
  let lo := if 0 <=? p then whole k / 10 ^ p else whole (k * 10 ^ (- p)) in
  0 <= lo /\
  lo * 10 ^ (p + E) * W <= k * 10 ^ E < (lo + 1) * 10 ^ (p + E) * W.
Proof.
  intros Hk E lo. pose proof W_pos as HW.
  unfold lo, E. rewrite !whole_eq.
  destruct (Z.leb_spec 0 p) as [Hp|Hp].
  - rewrite Z.max_r by lia. rewrite Z.add_0_r, Z.pow_0_r, Z.mul_1_r.
    assert (0 < 10 ^ p) as HP by (apply Z.pow_pos_nonneg; lia).
    rewrite Z.div_div by lia.
    assert (0 < W * 10 ^ p) as HWP by nia.
    pose proof (Z.div_mod k (W * 10 ^ p) ltac:(lia)) as Hdm.
    pose proof (Z.mod_pos_bound k (W * 10 ^ p) HWP) as Hr.
    split; [apply Z.div_pos; lia|].
    set (q := k / (W * 10 ^ p)) in *. clearbody q. nia.
  - rewrite Z.max_l by lia.
    replace (p + - p) with 0 by lia. rewrite Z.pow_0_r, !Z.mul_1_r.
    assert (0 < 10 ^ (- p)) as HP by (apply Z.pow_pos_nonneg; lia).
    pose proof (Z.div_mod (k * 10 ^ (- p)) W ltac:(lia)) as Hdm.
    pose proof (Z.mod_pos_bound (k * 10 ^ (- p)) W HW) as Hr.
    split; [apply Z.div_pos; nia|].
    set (q := k * 10 ^ (- p) / W) in *. clearbody q. nia.
Qed.

(** The decimals that convert to one Number lie side by side: when some
    multiple of [10^p] converts to the Number [k / W], so does the
    multiple just below the Number or the one just above. *)
Lemma candidate_converts (k m p : Z) :
  0 < k -> round_ratio false k W = Fin false k ->
  0 <= m -> of_decimal false m p = Fin false k ->
  let lo := if 0 <=? p then whole k / 10 ^ p else whole (k * 10 ^ (- p)) in
  converts_back k lo p = true \/ converts_back k (lo + 1) p = true.
Proof.
  intros Hk Hnum Hm Hq. cbv zeta. pose proof W_pos as HW.
  pose proof (candidate_below k p ltac:(lia)) as Hc. cbv zeta in Hc.
  set (lo := if 0 <=? p then whole k / 10 ^ p else whole (k * 10 ^ (- p))) in *.
  destruct Hc as (Hlo0 & Hlo & Hhi).
  set (E := Z.max (- p) 0) in *.
  assert (0 <= E) as HE by (unfold E; lia).
  assert (0 <= p + E) as HpE by (unfold E; lia).
  assert (0 < 10 ^ E) as HB by (apply Z.pow_pos_nonneg; lia).
  assert (0 < 10 ^ (p + E)) as HA by (apply Z.pow_pos_nonneg; lia).
  pose proof (round_ratio_finite _ _ _ _ Hnum) as Hfin.
  assert (forall c, of_decimal false c p = round_ratio false (c * 10 ^ (p + E)) (10 ^ E)) as Hnf
    by (intros c; apply of_decimal_ratio; assumption).
  set (A := 10 ^ (p + E)) in *. set (B := 10 ^ E) in *. clearbody A B lo.
  assert (0 <= lo * A) as HloA by (apply Z.mul_nonneg_nonneg; lia).
  assert (0 <= m * A) as HmA by (apply Z.mul_nonneg_nonneg; lia).
  assert (0 <= (lo + 1) * A) as HhiA by (apply Z.mul_nonneg_nonneg; lia).
  assert (forall c, magnitude (round_ratio false (c * A) B) = k ->
                    converts_back k c p = true) as Hconv.
  { intros c Hmag. unfold converts_back. rewrite Hnf.
    rewrite (round_ratio_magnitude _ _ k Hfin Hmag). apply Z.eqb_refl. }
  rewrite Hnf in Hq.
  destruct (Z_le_gt_dec m lo) as [Hle|Hgt].
  - left. apply Hconv. apply Z.le_antisymm.
    + pose proof (round_ratio_mono false false (lo * A) B k W HloA HB HW ltac:(lia))
        as Hmono.
      rewrite Hnum in Hmono. exact Hmono.
    + assert (m * A * B <= lo * A * B) as Hcross
        by (apply Z.mul_le_mono_nonneg_r; [lia|apply Z.mul_le_mono_nonneg_r; lia]).
      pose proof (round_ratio_mono false false (m * A) B (lo * A) B HmA HB HB Hcross)
        as Hmono.
      rewrite Hq in Hmono. exact Hmono.
  - right. apply Hconv. apply Z.le_antisymm.
    + assert ((lo + 1) * A * B <= m * A * B) as Hcross
        by (apply Z.mul_le_mono_nonneg_r; [lia|apply Z.mul_le_mono_nonneg_r; lia]).
      pose proof (round_ratio_mono false false ((lo + 1) * A) B (m * A) B HhiA HB HB Hcross)
        as Hmono.
      rewrite Hq in Hmono. exact Hmono.
    + pose proof (round_ratio_mono false false k W ((lo + 1) * A) B ltac:(lia) HW HB
                    ltac:(lia)) as Hmono.
      rewrite Hnum in Hmono. exact Hmono.
Qed.

(** What [digits_at] returns converts back. *)
Lemma digits_at_some (k n0 kd s p : Z) :
  0 <= k -> digits_at k n0 kd = Some (s, p) ->
  p = n0 - kd /\ converts_back k s p = true /\ 0 <= s.
Proof.
  intros Hk. unfold digits_at. cbv zeta.
  pose proof (candidate_below k (n0 - kd) Hk) as Hc. cbv zeta in Hc.
  set (lo := if 0 <=? n0 - kd then whole k / 10 ^ (n0 - kd)
             else whole (k * 10 ^ (- (n0 - kd)))) in *.
  destruct Hc as (Hlo0 & _). clearbody lo.
  destruct (if 0 <=? n0 - kd then _ else _) as [dl dh].
  destruct (converts_back k lo (n0 - kd)) eqn:Hl,
           (converts_back k (lo + 1) (n0 - kd)) eqn:Hh; try discriminate.
  - destruct (dl ?= dh); [destruct (Z.even lo)| |]; intros [= <- <-]; auto with zarith.
  - intros [= <- <-]. auto.
  - intros [= <- <-]. auto with zarith.
Qed.

Lemma digits_at_found (k n0 kd : Z) :
  let p := n0 - kd in
  let lo := if 0 <=? p then whole k / 10 ^ p else whole (k * 10 ^ (- p)) in
  converts_back k lo p = true \/ converts_back k (lo + 1) p = true ->
  exists r, digits_at k n0 kd = Some r.
Proof.
  cbv zeta. intros H. unfold digits_at. cbv zeta.
  set (p := n0 - kd) in *.
  set (lo := if 0 <=? p then whole k / 10 ^ p else whole (k * 10 ^ (- p))) in *.
  clearbody lo.
  destruct (if 0 <=? p then _ else _) as [dl dh].
  destruct (converts_back k lo p), (converts_back k (lo + 1) p); eauto.
  destruct H; discriminate.
Qed.

(** The search stops where a candidate converts back, at the latest. *)
Lemma shortest_from_found (k n0 : Z) (fuel : nat) :
  forall kd0 kd,
    0 <= k -> kd0 <= kd < kd0 + Z.of_nat fuel ->
    (exists r, digits_at k n0 kd = Some r) ->
    exists s p, shortest_from fuel k n0 kd0 = (s, p) /\
                converts_back k s p = true /\ 0 <= s /\ n0 - kd <= p.
Proof.
  induction fuel as [|fuel IH]; intros kd0 kd Hk Hkd Hfound; [lia|].
  cbn [shortest_from].
  destruct (digits_at k n0 kd0) as [[s p]|] eqn:Hat.
  - apply digits_at_some in Hat as (-> & Hc & Hs); [|assumption].
    exists s, (n0 - kd0). repeat split; auto; lia.
  - destruct (Z.eq_dec kd0 kd) as [->|Hne].
    + destruct Hfound as [r Hr]. congruence.
    + apply (IH (kd0 + 1) kd); auto. lia.
Qed.

(** Dropping the zeros a decimal ends in keeps its value. *)
Lemma strip_tens_spec (fuel : nat) :
  forall s p s' p',
    0 <= s -> strip_tens fuel s p = (s', p') ->
    0 <= s' /\ p <= p' /\ s = s' * 10 ^ (p' - p).
Proof.
  induction fuel as [|fuel IH]; intros s p s' p' Hs; cbn [strip_tens].
  - intros [= <- <-]. rewrite Z.sub_diag. cbn. lia.
  - destruct ((s mod 10 =? 0) && (0 <? s)) eqn:Hc.
    + apply andb_true_iff in Hc as [Hm Hpos]. apply Z.eqb_eq in Hm. apply Z.ltb_lt in Hpos.
      intros Hr. apply IH in Hr; [|apply Z.div_pos; lia].
      destruct Hr as (Hs' & Hp & Hv). split; [exact Hs'|]. split; [lia|].
      pose proof (Z.div_mod s 10 ltac:(lia)) as Hdm. rewrite Hm in Hdm.
      replace (p' - p) with (Z.succ (p' - (p + 1))) by lia.
      rewrite Z.pow_succ_r by lia. lia.
    + intros [= <- <-]. rewrite Z.sub_diag. cbn. lia.
Qed.

Lemma strip_tens_decimal (fuel : nat) (s p s' p' : Z) :
  0 <= s -> strip_tens fuel s p = (s', p') ->
  of_decimal false s' p' = of_decimal false s p.
Proof.
  intros Hs Hr. apply strip_tens_spec in Hr as (Hs' & Hp & ->); [|assumption].
  set (E := Z.max (- p) 0).
  rewrite (of_decimal_ratio false s' p' E), (of_decimal_ratio false _ p E) by (unfold E; lia).
  f_equal. rewrite <- Z.mul_assoc, <- Z.pow_add_r by (unfold E; lia). do 2 f_equal. lia.
Qed.

(** The shortest decimal of a Number to which some [kd]-digit decimal
    converts, [1 <= kd <= 17]: it converts back, and has no more
    fraction digits than that one. *)
Lemma shortest_decimal_spec (k kd : Z) :
  0 <= k -> 1 <= kd <= 17 ->
  (exists r, digits_at k (decimal_exponent k) kd = Some r) ->
  exists s p, shortest_decimal k = (s, p) /\
              of_decimal false s p = Fin false k /\ 0 <= s /\ decimal_exponent k - kd <= p.
Proof.
  intros Hk Hkd Hfound. unfold shortest_decimal.
  destruct (shortest_from_found k (decimal_exponent k) 17 1 kd Hk ltac:(cbn; lia) Hfound)
    as (s & p & -> & Hc & Hs & Hp).
  destruct (strip_tens 17 s p) as [s' p'] eqn:Hstrip.
  pose proof (strip_tens_decimal _ _ _ _ _ Hs Hstrip) as Hdec.
  apply strip_tens_spec in Hstrip as (Hs' & Hpp & _); [|assumption].
  exists s', p'. split; [reflexivity|]. split; [|split; [assumption|lia]].
  rewrite Hdec. unfold converts_back in Hc.
  destruct (of_decimal false s p) as [| |neg k'] eqn:Hd; try discriminate.
  apply Z.eqb_eq in Hc as ->.
  unfold of_decimal in Hd.
  destruct (round_ratio_cases false (s * 10 ^ Z.max p 0) (10 ^ Z.max (- p) 0)) as [Hr|[k2 Hr]];
    rewrite Hr in Hd; congruence.
Qed.

(** *** The decimal exponent *)

Lemma leading_shift_lower (fuel : nat) : forall k j, j <= leading_shift fuel k j.
Proof.
  induction fuel as [|fuel IH]; intros k j; cbn [leading_shift]; [lia|].
  destruct (W <=? k * 10); [lia|]. specialize (IH (k * 10) (j + 1)). lia.
Qed.

Lemma leading_shift_upper (fuel : nat) :
  forall k j r, 1 <= r -> W <= k * 10 ^ r -> leading_shift fuel k j <= j + r - 1.
Proof.
  induction fuel as [|fuel IH]; intros k j r Hr Hk; cbn [leading_shift]; [lia|].
  destruct (Z.leb_spec W (k * 10)) as [|Hlt]; [lia|].
  assert (2 <= r) as Hr2.
  { destruct (Z.eq_dec r 1) as [->|]; [|lia]. change (10 ^ 1) with 10 in Hk. lia. }
  assert (W <= k * 10 * 10 ^ (r - 1)) as Hk'.
  { rewrite <- Z.mul_assoc, <- Z.pow_succ_r by lia.
    replace (Z.succ (r - 1)) with r by lia. exact Hk. }
  specialize (IH (k * 10) (j + 1) (r - 1) ltac:(lia) Hk'). lia.
Qed.

(** A magnitude of [10^-8] at least has a decimal exponent of [-7] at
    least. *)
Lemma decimal_exponent_lower (k : Z) : W <= k * 10 ^ 8 -> - 7 <= decimal_exponent k.
Proof.
  intros Hk. unfold decimal_exponent. destruct (W <=? k).
  - pose proof (count_digits_pos (Z.to_nat (Z.log2 (whole k))) (whole k)).
    unfold num_digits. lia.
  - pose proof (leading_shift_upper 400 k 1 8 ltac:(lia) Hk). lia.
Qed.

(** The Number [10^-8] is not below [10^-8]. *)
Lemma hundred_millionth :
  exists k0, round_ratio false 1 (10 ^ 8) = Fin false k0 /\ W <= k0 * 10 ^ 8.
Proof. eexists. split; [vm_compute; reflexivity|]. vm_compute. discriminate. Qed.

(** *** Seventeen digits

    A decimal of 17 significant digits converts back to any Number of 1
    at least: the 17-digit decimals around it are closer together than
    the Numbers are. *)

(** The nearest integer to a quotient that is within a half of it. *)
Lemma rne_near (a b K : Z) :
  0 < b -> - b < 2 * (a - K * b) < b -> rne a b = K.
Proof.
  intros Hb H. rewrite rne_unfold.
  destruct (Z_le_gt_dec (K * b) a) as [Hle|Hgt].
  - assert (a / b = K) as Hq by (symmetry; apply Z.div_unique_pos with (r := a - K * b); lia).
    assert (a mod b = a - K * b) as Hm
      by (symmetry; apply Z.mod_unique_pos with (q := K); lia).
    rewrite Hq, Hm.
    destruct (Z.compare_spec (2 * (a - K * b)) b); [exfalso; lia|reflexivity|exfalso; lia].
  - assert (a / b = K - 1) as Hq
      by (symmetry; apply Z.div_unique_pos with (r := a - (K - 1) * b); lia).
    assert (a mod b = a - (K - 1) * b) as Hm
      by (symmetry; apply Z.mod_unique_pos with (q := K - 1); lia).
    rewrite Hq, Hm.
    destruct (Z.compare_spec (2 * (a - (K - 1) * b)) b); [exfalso; lia|exfalso; lia|lia].
Qed.

(** The last place of a quotient between [2^t] and [2^(t+1)] smallest
    normal spacings. *)
Lemma ulp_shift_unique (a b t : Z) :
  0 < b -> 0 <= t -> b * 2 ^ t <= a * 2 ^ 1022 < b * (2 * 2 ^ t) -> ulp_shift a b = t.
Proof.
  intros Hb Ht. rewrite ulp_shift_eq. generalize (2 ^ 1022). intros E [Hlo Hhi].
  apply Z.log2_unique; [assumption|]. split.
  - apply Z.div_le_lower_bound; lia.
  - rewrite Z.pow_succ_r by lia. apply Z.div_lt_upper_bound; lia.
Qed.

(** A quotient in the binade of last place [2^t] and within half a last
    place of [K * 2^t] rounds to it. *)
Lemma round_ratio_nearby (a b K t : Z) :
  0 < b -> 0 <= t ->
  b * 2 ^ t <= a * 2 ^ 1022 < b * (2 * 2 ^ t) ->
  - (b * 2 ^ t) < 2 * (a * W - K * (b * 2 ^ t)) < b * 2 ^ t ->
  K * 2 ^ t < OVERFLOW ->
  round_ratio false a b = Fin false (K * 2 ^ t).
Proof.
  intros Hb Ht Hbin Hnear Hov.
  assert (0 < 2 ^ t) as HT by (apply Z.pow_pos_nonneg; lia).
  assert (0 < 2 ^ 1022) as HP by (apply Z.pow_pos_nonneg; lia).
  assert (0 < b * 2 ^ t) as HbT by (apply Z.mul_pos_pos; assumption).
  assert (0 < a) as Ha.
  { destruct (Z_lt_le_dec 0 a) as [|Hle]; [assumption|exfalso].
    assert (a * 2 ^ 1022 <= 0) by (apply Z.mul_nonpos_nonneg; lia). lia. }
  rewrite round_ratio_unfold by assumption. cbv zeta.
  destruct (Z.eqb_spec a 0); [lia|].
  rewrite (ulp_shift_unique a b t Hb Ht Hbin).
  rewrite (rne_near (a * W) (b * 2 ^ t) K HbT) by lia.
  destruct (Z.leb_spec OVERFLOW (K * 2 ^ t)); [lia|reflexivity].
Qed.

Lemma count_digits_lower (fuel : nat) :
  forall n, 1 <= n -> 10 ^ (Z.of_nat (count_digits fuel n) - 1) <= n.
Proof.
  induction fuel as [|fuel IH]; intros n Hn; cbn [count_digits]; [cbn; lia|].
  destruct (Z.ltb_spec n 10) as [|Hge]; [cbn; lia|].
  pose proof (count_digits_pos fuel (n / 10)) as Hpos.
  assert (1 <= n / 10) as Hq by (apply Z.div_le_lower_bound; lia).
  specialize (IH (n / 10) Hq).
  rewrite Nat2Z.inj_succ.
  replace (Z.succ (Z.of_nat (count_digits fuel (n / 10))) - 1)
    with (Z.succ (Z.of_nat (count_digits fuel (n / 10)) - 1)) by lia.
  rewrite Z.pow_succ_r by lia.
  pose proof (Z.mul_div_le n 10 ltac:(lia)). lia.
Qed.

(** A Number of 1 at least is at least [10^(n-1)], [n] its decimal
    exponent. *)
Lemma decimal_exponent_floor (k : Z) :
  W <= k -> 1 <= decimal_exponent k /\ 10 ^ (decimal_exponent k - 1) * W <= k.
Proof.
  intros Hk. pose proof W_pos as HW. unfold decimal_exponent.
  destruct (Z.leb_spec W k) as [_|]; [|lia].
  unfold num_digits. rewrite whole_eq.
  pose proof (count_digits_pos (Z.to_nat (Z.log2 (k / W))) (k / W)) as Hpos.
  assert (1 <= k / W) as Hq by (apply Z.div_le_lower_bound; lia).
  pose proof (count_digits_lower (Z.to_nat (Z.log2 (k / W))) (k / W) Hq) as Hlow.
  split; [lia|].
  pose proof (Z.mul_div_le k W HW) as Hdiv.
  set (c := 10 ^ (Z.of_nat (count_digits (Z.to_nat (Z.log2 (k / W))) (k / W)) - 1)) in *.
  set (q := k / W) in *. clearbody c q.
  assert (c * W <= q * W) by (apply Z.mul_le_mono_nonneg_r; lia). lia.
Qed.

(** A Number of 1 at least: its last place and its significand. *)
Lemma double_significand (k : Z) :
  W <= k -> round_ratio false k W = Fin false k ->
  exists K t, 0 <= t /\ k = K * 2 ^ t /\ 2 ^ 52 <= K < 2 ^ 53.
Proof.
  intros Hk Hnum. pose proof W_pos as HW.
  pose proof (ulp_shift_nonneg k W) as Ht0.
  destruct (ulp_shift_spec k W ltac:(lia) HW) as [Hhi Hlo].
  set (t := ulp_shift k W) in *. clearbody t.
  assert (W = 2 ^ 52 * 2 ^ 1022) as HW52
    by (rewrite W_eq, <- Z.pow_add_r by lia; reflexivity).
  assert (0 < 2 ^ 1022) as HP by (apply Z.pow_pos_nonneg; lia).
  assert (0 < 2 ^ t) as HT by (apply Z.pow_pos_nonneg; lia).
  assert (0 < t) as Ht.
  { destruct (Z_lt_le_dec 0 t) as [|Hle]; [assumption|exfalso].
    assert (t = 0) as -> by lia. change (2 ^ 0) with 1 in Hhi.
    assert (W * 2 ^ 1022 <= k * 2 ^ 1022) by (apply Z.mul_le_mono_nonneg_r; lia).
    rewrite HW52 in H, Hhi.
    revert H Hhi HP. generalize (2 ^ 1022). intros P H Hhi HP.
    assert (2 * P <= 2 ^ 52 * P) by lia. nia. }
  specialize (Hlo Ht).
  assert (2 ^ (52 + t) <= k) as Hk52.
  { rewrite Z.pow_add_r by lia. rewrite HW52 in Hlo.
    revert Hlo HP HT. generalize (2 ^ 1022) (2 ^ t). intros P T Hlo HP HT.
    apply (Z.mul_le_mono_pos_r _ _ P); [assumption|]. lia. }
  destruct (double_multiple false k t ltac:(lia) Hk52 Hnum) as [K HK].
  exists K, t. split; [lia|]. split; [exact HK|].
  rewrite Z.pow_add_r in Hk52 by lia. rewrite HW52 in Hhi.
  subst k. revert Hhi Hk52 HP HT. generalize (2 ^ 1022) (2 ^ t). intros P T Hhi Hk52 HP HT.
  split.
  - apply (Z.mul_le_mono_pos_r _ _ T); assumption.
  - apply (Z.mul_lt_mono_pos_r (T * P)); [apply Z.mul_pos_pos; assumption|].
    replace (2 ^ 53) with (2 * 2 ^ 52) by reflexivity. lia.
Qed.

(** Seventeen digits suffice: one of the two 17-digit decimals around a
    Number of 1 at least converts back to it. *)
Lemma seventeen_digits (k : Z) :
  W <= k -> round_ratio false k W = Fin false k ->
  exists r, digits_at k (decimal_exponent k) 17 = Some r.
Proof.
  intros Hk Hnum. pose proof W_pos as HW.
  apply digits_at_found. cbv zeta.
  destruct (decimal_exponent_floor k Hk) as [Hn0 Hfloor].
  set (n0 := decimal_exponent k) in *. clearbody n0.
  set (p := n0 - 17).
  pose proof (candidate_below k p ltac:(lia)) as Hc. cbv zeta in Hc.
  set (lo := if 0 <=? p then whole k / 10 ^ p else whole (k * 10 ^ (- p))) in *.
  destruct Hc as (Hlo0 & Hlo & Hhi).
  set (E := Z.max (- p) 0) in *.
  assert (0 <= E) as HE by (unfold E; lia).
  assert (0 <= p + E) as HpE by (unfold E; lia).
  assert (0 < 10 ^ E) as HB by (apply Z.pow_pos_nonneg; lia).
  assert (0 < 10 ^ (p + E)) as HA by (apply Z.pow_pos_nonneg; lia).
  assert (10 ^ (p + E) * 10 ^ 16 = 10 ^ E * 10 ^ (n0 - 1)) as Hpow
    by (rewrite <- !Z.pow_add_r by lia; f_equal; unfold p; lia).
  pose proof (round_ratio_finite _ _ _ _ Hnum) as Hfin.
  assert (forall c, of_decimal false c p = round_ratio false (c * 10 ^ (p + E)) (10 ^ E)) as Hnf
    by (intros c; apply of_decimal_ratio; assumption).
  destruct (double_significand k Hk Hnum) as (K & t & Ht & HK & HK52 & HK53).
  assert (0 < 2 ^ t) as HT by (apply Z.pow_pos_nonneg; lia).
  assert (0 < 2 ^ 1022) as HP by (apply Z.pow_pos_nonneg; lia).
  assert (W = 2 ^ 52 * 2 ^ 1022) as HW52
    by (rewrite W_eq, <- Z.pow_add_r by lia; reflexivity).
  (* a candidate in the binade and within half a last place converts back *)
  assert (forall c,
             10 ^ E * 2 ^ t <= c * 10 ^ (p + E) * 2 ^ 1022 < 10 ^ E * (2 * 2 ^ t) ->
             - (10 ^ E * 2 ^ t) <
               2 * (c * 10 ^ (p + E) * W - K * (10 ^ E * 2 ^ t)) < 10 ^ E * 2 ^ t ->
             converts_back k c p = true) as Hconv.
  { intros c Hbin Hnear. unfold converts_back. rewrite Hnf.
    rewrite (round_ratio_nearby _ _ K t HB Ht Hbin Hnear) by (rewrite <- HK; exact Hfin).
    rewrite <- HK. apply Z.eqb_refl. }
  (* the 17-digit decimals are closer together than the Numbers *)
  assert (10 ^ (p + E) * 10 ^ 16 * W <= 10 ^ E * k) as Hspace.
  { rewrite Hpow.
    assert (10 ^ E * (10 ^ (n0 - 1) * W) <= 10 ^ E * k)
      by (apply Z.mul_le_mono_nonneg_l; lia). lia. }
  clearbody lo. clear Hnf Hpow Hfloor Hnum Hfin.
  rewrite HW52 in Hlo, Hhi, Hspace, Hconv. subst k.
  revert Hlo Hhi Hspace Hconv HA HB HT HP.
  generalize (10 ^ (p + E)) (10 ^ E) (2 ^ t) (2 ^ 1022).
  intros A B T P Hlo Hhi Hspace Hconv HA HB HT HP.
  assert (0 < B * T) as Hv by (apply Z.mul_pos_pos; assumption).
  assert (0 < A * P) as Hu by (apply Z.mul_pos_pos; assumption).
  assert (2 ^ 52 * (B * T) <= K * (B * T)) as HX52
    by (apply Z.mul_le_mono_nonneg_r; lia).
  assert (K * (B * T) <= (2 ^ 53 - 1) * (B * T)) as HX53
    by (apply Z.mul_le_mono_nonneg_r; lia).
  destruct (Z.eq_dec K (2 ^ 52)) as [->|HKne].
  - right. apply Hconv; lia.
  - assert ((2 ^ 52 + 1) * (B * T) <= K * (B * T)) as HX52'
      by (apply Z.mul_le_mono_nonneg_r; lia).
    destruct (Z_lt_le_dec (2 * (K * T * B - lo * A * (2 ^ 52 * P))) (B * T)) as [Hnear|Hfar].
    + left. apply Hconv; lia.
    + right. apply Hconv; lia.
Qed.

(** *** Reading a rendering back *)

(** The Number nearest to a decimal [m / 10^8] with at most 8 fraction
    digits is rendered by ['en-US'] with at most 8 fraction digits as a
    decimal that reads back as the same Number. *)
Lemma rendering_reads_back (k m : Z) :
  1 <= m ->
  round_ratio false m (10 ^ 8) = Fin false k ->
  let amount := en_US_decimal unit_format (Fin false k) in
  decimal_pattern amount = true /\ StringToNumber amount = Fin false k.
Proof.
  intros Hm Hq amount. pose proof W_pos as HW.
  assert (0 < 10 ^ 8) as HD by (apply Z.pow_pos_nonneg; lia).
  (* the Number is at least [10^-8] *)
  destruct hundred_millionth as (k0 & Hk0 & Hk0W).
  pose proof (round_ratio_mono false false 1 (10 ^ 8) m (10 ^ 8) ltac:(lia) ltac:(lia) HD
                ltac:(lia)) as Hlow.
  rewrite Hk0, Hq in Hlow. cbn [magnitude] in Hlow.
  assert (W <= k * 10 ^ 8) as HkW by lia.
  assert (0 < k) as Hk by (destruct (Z_lt_le_dec 0 k); [assumption|lia]).
  pose proof (decimal_exponent_lower k HkW) as Hn0l.
  pose proof (round_ratio_idem false false m (10 ^ 8) k ltac:(lia) HD Hq) as Hnum.
  (* its shortest decimal has at most 8 fraction digits *)
  assert (exists s p, shortest_decimal k = (s, p) /\
                      of_decimal false s p = Fin false k /\ 0 <= s /\ - 8 <= p)
    as (s & p & Hsd & Hdec & Hs & Hp).
  { destruct (Z_le_gt_dec (decimal_exponent k) 9) as [Hn9|Hn9].
    - (* the decimal itself has at most 17 digits *)
      assert (of_decimal false m (- 8) = Fin false k) as Hcand.
      { rewrite (of_decimal_ratio false m (- 8) 8) by lia.
        change (10 ^ (- 8 + 8)) with 1. rewrite Z.mul_1_r. exact Hq. }
      pose proof (candidate_converts k m (- 8) Hk Hnum ltac:(lia) Hcand) as Hconv.
      cbv zeta in Hconv.
      pose proof (digits_at_found k (decimal_exponent k) (decimal_exponent k + 8)) as Hfound.
      cbv zeta in Hfound.
      replace (decimal_exponent k - (decimal_exponent k + 8)) with (- 8) in Hfound by lia.
      specialize (Hfound Hconv).
      destruct (shortest_decimal_spec k (decimal_exponent k + 8) ltac:(lia) ltac:(lia) Hfound)
        as (s & p & Hsd & Hdec & Hs & Hp).
      exists s, p. repeat split; try assumption. lia.
    - (* a Number of [10^9] at least: 17 digits leave at most 7 fraction digits *)
      assert (W <= k) as HkW1.
      { unfold decimal_exponent in Hn9. destruct (Z.leb_spec W k); [assumption|exfalso].
        pose proof (leading_shift_lower 400 k 1). lia. }
      pose proof (seventeen_digits k HkW1 Hnum) as Hfound.
      destruct (shortest_decimal_spec k 17 ltac:(lia) ltac:(lia) Hfound)
        as (s & p & Hsd & Hdec & Hs & Hp).
      exists s, p. repeat split; try assumption. lia. }
  (* the rendering *)
  unfold amount, en_US_decimal, unit_format.
  cbn [nf_minimumFractionDigits nf_maximumFractionDigits nf_useGrouping].
  unfold raw_fixed. destruct (Z.eqb_spec k 0) as [|_]; [lia|]. rewrite Hsd. cbv zeta.
  destruct (Z.leb_spec 0 (p + 8)) as [_|]; [|lia].
  set (n := s * 10 ^ (p + 8)).
  assert (0 <= n) as Hn by (apply Z.mul_nonneg_nonneg; [lia|apply Z.pow_nonneg; lia]).
  destruct (trim_fraction (Z.to_nat (8 - 0)) n 8) as [n' f'] eqn:Ht.
  apply trim_fraction_value in Ht; [|assumption|cbn; lia].
  destruct Ht as (Hn' & Hf' & Hv).
  change (EmptyString +:+ fixed_point n' f') with (fixed_point n' f').
  split; [apply fixed_point_pattern|].
  rewrite fixed_point_number by lia.
  assert (0 < 10 ^ f') by (apply Z.pow_pos_nonneg; lia).
  rewrite <- Hdec, (of_decimal_ratio false s p 8) by lia. fold n.
  rewrite <- (round_ratio_scale false n' (10 ^ f') (10 ^ 8)) by lia.
  rewrite <- (round_ratio_scale false n (10 ^ 8) (10 ^ f')) by lia.
  f_equal; lia.
Qed.

End DecimalFacts.

(** ** The round trip through an amount *)

Module ProductFacts.
Import JSNumber Text JSValue Intl Helper Magnitude.
Import NumberFacts ValueFacts FormatFacts DivisionFacts TextFacts FixedPointFacts
  RoundingFacts RoundingOrder BudgetFacts SpinnerFacts ContinuousFacts DecimalFacts.

(** A power of ten other than 1 times a power of two is not [2^52]. *)
Lemma ten_not_two (i j : Z) : 1 <= i -> 0 <= j -> 10 ^ i * 2 ^ j <> 2 ^ 52.
Proof.
  intros Hi Hj Heq.
  assert ((10 ^ i * 2 ^ j) mod 5 = 0) as Hmod.
  { replace i with (Z.succ (i - 1)) by lia. rewrite Z.pow_succ_r by lia.
    replace (10 * 10 ^ (i - 1) * 2 ^ j) with (2 * 10 ^ (i - 1) * 2 ^ j * 5) by lia.
    apply Z_mod_mult. }
  rewrite Heq in Hmod. vm_compute in Hmod. discriminate.
Qed.

(** The quotient [s / d], as a Number, times [d] rounds to [s] as long
    as the last place of the quotient is finer than [1 / (2 d)]. *)
Lemma product_rounds_back (s d j k : Z) :
  0 < d -> 0 <= j -> d * 2 ^ j < 2 ^ 52 -> 0 < s < d * 2 ^ j ->
  round_ratio false s d = Fin false k ->
  round (mul (Fin false k) (Fin false (d * W))) = Fin false (s * W).
Proof.
  intros Hd Hj Hdj Hs Hq. pose proof W_pos as HW.
  destruct (round_ratio_upper false s d k ltac:(lia) Hd Hq) as [Hk Hup].
  pose proof (round_ratio_lower false s d k ltac:(lia) Hd Hq) as Hlo.
  pose proof (ulp_shift_bound s d j ltac:(lia) Hd Hj ltac:(lia)) as Ht1.
  pose proof (ulp_shift_nonneg s d) as Ht0.
  assert (2 ^ ulp_shift s d <= 2 ^ (j + 1021)) as Hp1 by (apply Z.pow_le_mono_r; lia).
  assert (2 ^ (j + 1021) = 2 ^ j * 2 ^ 1021) as Hsplit by (apply Z.pow_add_r; lia).
  assert (W = 2 ^ 53 * 2 ^ 1021) as HW53
    by (rewrite W_eq, <- Z.pow_add_r by lia; reflexivity).
  assert (0 < 2 ^ 1021) as HE by (apply Z.pow_pos_nonneg; lia).
  assert (0 < 2 ^ j) as HJ by (apply Z.pow_pos_nonneg; lia).
  (* the product is within a quarter of [s] *)
  assert (2 * (d * 2 ^ ulp_shift s d) < W) as Hq1.
  { assert (d * 2 ^ ulp_shift s d <= d * 2 ^ (j + 1021)) by (apply Z.mul_le_mono_nonneg_l; lia).
    rewrite Hsplit in H. rewrite HW53.
    replace (2 ^ 53) with (2 * 2 ^ 52) by reflexivity.
    revert H Hdj HE HJ. generalize (2 ^ ulp_shift s d) (2 ^ j) (2 ^ 1021) (2 ^ 52).
    intros Q J E F H Hdj HE HJ.
    assert (d * J * E < F * E) by (apply Z.mul_lt_mono_pos_r; lia).
    lia. }
  set (a := k * d).
  assert (- W < 4 * (a - s * W) < W) as Ha.
  { unfold a. revert Hup Hlo Hq1. generalize (2 ^ ulp_shift s d). intros Q Hup Hlo Hq1.
    clear - Hup Hlo Hq1 HW Hd. nia. }
  assert (0 <= a) as Ha0 by (unfold a; nia).
  unfold mul. cbn [xorb].
  replace (k * (d * W)) with (a * W) by (unfold a; lia).
  rewrite (round_ratio_scale false a W W) by lia.
  (* the product rounds to a Number below [2^52] *)
  assert (s < 2 ^ 52) as Hs52 by lia.
  assert (a < W * 2 ^ 52) as Ha52.
  { assert (s + 1 <= 2 ^ 52) as H1 by lia.
    assert ((s + 1) * W <= 2 ^ 52 * W) by (apply Z.mul_le_mono_nonneg_r; lia).
    clear - Ha H HW. lia. }
  pose proof (round_ratio_below false (2 ^ 52) a W ltac:(lia) Ha0 HW ltac:(lia)) as Hhigh.
  assert (2 ^ 52 * W < OVERFLOW) as Hfin.
  { rewrite <- OVERFLOW_W.
    assert (2 ^ 52 < 2 ^ 1024) by (apply Z.pow_lt_mono_r; lia).
    revert H. generalize (2 ^ 1024) (2 ^ 52). intros A B HAB. clear - HAB HW. nia. }
  destruct (round_ratio_cases false a W) as [Hr|[k4 Hr]]; rewrite Hr in Hhigh |- *;
    cbn [magnitude] in Hhigh; [lia|].
  destruct (round_ratio_upper false a W k4 Ha0 HW Hr) as [Hk4 Hup4].
  pose proof (round_ratio_lower false a W k4 Ha0 HW Hr) as Hlo4.
  pose proof (ulp_shift_bound a W 52 Ha0 HW ltac:(lia) Ha52) as Ht2.
  pose proof (ulp_shift_nonneg a W) as Ht20.
  assert (2 ^ ulp_shift a W <= 2 ^ 1073) as Hp2 by (apply Z.pow_le_mono_r; lia).
  assert (W = 2 * 2 ^ 1073) as HW1073
    by (rewrite W_eq, <- Z.pow_succ_r by lia; reflexivity).
  apply round_near; [lia|].
  revert Hup4 Hlo4 Hp2 HW1073. generalize (2 ^ ulp_shift a W) (2 ^ 1073).
  intros Q H Hup4 Hlo4 Hp2 HW1073.
  clear - Hup4 Hlo4 Hp2 HW1073 Ha HW. nia.
Qed.

(** The same when the quotient is exact: the denominator is a power of
    two. *)
Lemma product_exact (s d j k : Z) :
  0 < d -> 0 <= j -> d * 2 ^ j = 2 ^ 52 -> 0 < s < 2 ^ 52 ->
  round_ratio false s d = Fin false k ->
  round (mul (Fin false k) (Fin false (d * W))) = Fin false (s * W).
Proof.
  intros Hd Hj Hdj Hs Hq. pose proof W_pos as HW.
  assert (0 < 2 ^ j) as HJ by (apply Z.pow_pos_nonneg; lia).
  assert (0 < 2 ^ 1022) as HP by (apply Z.pow_pos_nonneg; lia).
  assert (W = 2 ^ 52 * 2 ^ 1022) as HW52
    by (rewrite W_eq, <- Z.pow_add_r by lia; reflexivity).
  assert (j <= 52) as Hj52.
  { destruct (Z_le_gt_dec j 52) as [|Hgt]; [assumption|exfalso].
    assert (2 ^ 53 <= 2 ^ j) by (apply Z.pow_le_mono_r; lia).
    assert (1 * 2 ^ j <= d * 2 ^ j) by (apply Z.mul_le_mono_nonneg_r; lia).
    assert (2 ^ 52 < 2 ^ 53) by reflexivity. lia. }
  assert (k = s * 2 ^ (j + 1022)) as ->.
  { rewrite <- (round_ratio_scale false s d (2 ^ j * 2 ^ 1022)) in Hq by nia.
    replace (d * (2 ^ j * 2 ^ 1022)) with W in Hq by (rewrite HW52, <- Hdj; lia).
    rewrite <- Z.pow_add_r in Hq by lia.
    rewrite round_ratio_grid in Hq; [congruence| |lia|].
    - assert (2 ^ 52 < 2 ^ 53) by reflexivity. lia.
    - rewrite OVERFLOW_eq.
      assert (2 ^ (j + 1022) <= 2 ^ 1074) by (apply Z.pow_le_mono_r; lia).
      assert (2 ^ 2098 = 2 ^ 1024 * 2 ^ 1074) as -> by (rewrite <- Z.pow_add_r by lia; reflexivity).
      assert (2 ^ 52 <= 2 ^ 1024) by (apply Z.pow_le_mono_r; lia).
      assert (0 < 2 ^ (j + 1022)) by (apply Z.pow_pos_nonneg; lia).
      revert H H0 H1. generalize (2 ^ (j + 1022)) (2 ^ 1074) (2 ^ 1024) (2 ^ 52) Hs.
      intros A B C D Hs' H H0 H1.
      assert (s * A < D * A) by (apply Z.mul_lt_mono_pos_r; lia).
      assert (D * A <= C * A) by (apply Z.mul_le_mono_nonneg_r; lia).
      assert (C * A <= C * B) by (apply Z.mul_le_mono_nonneg_l; lia). lia. }
  unfold mul. cbn [xorb].
  assert (2 ^ (j + 1022) * d = W) as HJd
    by (rewrite Z.pow_add_r, HW52, <- Hdj by lia; ring).
  assert (round_ratio false (s * 2 ^ (j + 1022) * (d * W)) (W * W) = round_ratio false s 1)
    as ->.
  { rewrite <- (round_ratio_scale false s 1 (W * W)) by nia. rewrite Z.mul_1_l.
    replace (s * 2 ^ (j + 1022) * (d * W)) with (s * (2 ^ (j + 1022) * d * W)) by ring.
    rewrite HJd. reflexivity. }
  rewrite <- (round_ratio_scale false s 1 W), Z.mul_1_l, round_ratio_int by lia.
  apply round_near; lia.
Qed.

(** A Number that is the rounding of an integer is a whole number of
    units, and is the rounding of that number too. *)
Lemma whole_number (sgn : bool) (a k : Z) :
  0 <= a -> round_ratio sgn a 1 = Fin sgn k ->
  exists n, 0 <= n /\ k = n * W /\ (0 < a -> 0 < n) /\
            forall sgn', round_ratio sgn' n 1 = Fin sgn' k.
Proof.
  intros Ha Hr. pose proof W_pos as HW.
  assert (forall sgn', round_ratio sgn' k W = Fin sgn' k) as Hidem
    by (intros sgn'; apply (round_ratio_idem sgn sgn' a 1 k); [lia|lia|exact Hr]).
  destruct (Z_le_gt_dec a (2 ^ 53)) as [Hle|Hgt].
  - rewrite <- (round_ratio_scale sgn a 1 W), Z.mul_1_l, round_ratio_int in Hr by lia.
    injection Hr as <-. exists a. repeat split; try lia.
    intros sgn'. rewrite <- (round_ratio_scale sgn' a 1 W), Z.mul_1_l by lia.
    apply round_ratio_int. lia.
  - assert (1075 <= ulp_shift a 1) as Ht.
    { pose proof (ulp_shift_mono (2 ^ 53) 1 a 1 ltac:(lia) ltac:(lia) ltac:(lia) ltac:(lia))
        as Hmono.
      assert (ulp_shift (2 ^ 53) 1 = 1075) as Heq.
      { rewrite ulp_shift_eq, Z.div_1_r, <- Z.pow_add_r by lia. apply Z.log2_pow2. lia. }
      lia. }
    destruct (significand_bounds a 1 Ha ltac:(lia)) as [[Hm0 _] Hm52].
    rewrite round_ratio_unfold in Hr by lia. cbv zeta in Hr.
    destruct (Z.eqb_spec a 0); [lia|].
    set (t := ulp_shift a 1) in *. set (m := rne (a * W) (1 * 2 ^ t)) in *. clearbody m t.
    destruct (OVERFLOW <=? m * 2 ^ t); [discriminate|]. injection Hr as <-.
    specialize (Hm52 ltac:(lia)).
    assert (0 < 2 ^ (t - 1074)) as HP by (apply Z.pow_pos_nonneg; lia).
    assert (m * 2 ^ t = m * 2 ^ (t - 1074) * W) as Hk.
    { rewrite W_eq, <- Z.mul_assoc, <- Z.pow_add_r by lia. do 2 f_equal. lia. }
    exists (m * 2 ^ (t - 1074)). split; [nia|]. split; [exact Hk|]. split.
    + intros _. assert (0 < 2 ^ 52) by reflexivity. nia.
    + intros sgn'. rewrite <- (round_ratio_scale sgn' _ 1 W), Z.mul_1_l, <- Hk by lia.
      apply Hidem.
Qed.

(** An integer held exactly, times 1. *)
Lemma product_by_one (s : Z) :
  0 <= s <= 2 ^ 53 -> round (mul (Fin false (s * W)) (Fin false (1 * W))) = Fin false (s * W).
Proof.
  intros Hs. pose proof W_pos as HW.
  rewrite mul_ints. cbn [xorb]. rewrite Z.mul_1_r.
  rewrite <- (round_ratio_scale false s 1 W) by lia.
  rewrite Z.mul_1_l, round_ratio_int by assumption.
  apply round_near; lia.
Qed.

End ProductFacts.

Module RoundTripTheorems.
Import JSNumber Text JSValue Intl Helper Magnitude.
Import NumberFacts ValueFacts FormatFacts DivisionFacts TextFacts FixedPointFacts
  RoundingFacts RoundTripFacts RoundingOrder BudgetFacts SpinnerFacts ContinuousFacts
  DecimalFacts ProductFacts Sample.

(** C1 (amended).  In unit mode, with a unit whose denominator [d]
    divides [10^8], so that a satoshi is a whole number of the last of
    the 8 fraction digits [toAmount] keeps: [toAmount] renders an integer
    [s >= 0] and [toSatoshis] reads the rendering back as [s], for every
    [s] below [d * 2^j], where [2^j] is a power of two with
    [d * 2^j <= 2^52] (for BTC, every [s] below
    [10^8 * 2^25 = 3355443200000000]), and, when the denominator is 1,
    for every [s] that is a finite Number.  For a negative integer [s]
    that is a finite Number, [toAmount] renders a string with a minus
    sign, which [toSatoshis] rejects with [InvalidInput]. *)
Theorem unit_round_trip (host : Host) (UNITS : value) (fields : gmap string value)
    (s d j : Z) :
  fields !! "displayFiat" = Some (Bool false) ->
  denominator_of UNITS (default Undefined (fields !! "unit")) = Ok (Num (of_Z d)) ->
  0 < d -> (d | 10 ^ 8) ->
  (0 <= s ->
   (d = 1 /\ isFinite (of_Z s) = true) \/
   (0 <= j /\ d * 2 ^ j <= 2 ^ 52 /\ s < d * 2 ^ j) ->
   exists amount : string,
     toAmount host UNITS (Num (of_Z s)) (Obj fields) Undefined = Ok amount /\
     toSatoshis UNITS (Str amount) (Obj fields) = Ok (Num (of_Z s))) /\
  (s < 0 -> isFinite (of_Z s) = true ->
   exists amount : string,
     toAmount host UNITS (Num (of_Z s)) (Obj fields) Undefined = Ok amount /\
     toSatoshis UNITS (Str amount) (Obj fields) = Throw InvalidInput).
Proof.
  intros Hdf Hden Hd [c Hdc]. rewrite Z.mul_comm in Hdc. symmetry in Hdc.
  pose proof W_pos as HW.
  assert (0 < 10 ^ 8) as H8 by reflexivity.
  assert (0 < c) as Hc by nia.
  assert (d <= 10 ^ 8) as Hd8 by nia.
  assert (10 ^ 8 < 2 ^ 53) as H853 by reflexivity.
  assert (of_Z d = Fin false (d * W)) as Hofd by (apply of_Z_nonneg; lia).
  split.
  - intros Hs0 Hrange.
    destruct (Z.eq_dec s 0) as [->|Hsne].
    { assert (isIntegral (of_Z 0) = true) as Hint by reflexivity.
      rewrite (toAmount_unit host UNITS _ fields _ Hint Hdf Hden). cbn [ToNumber].
      rewrite Hofd. change (of_Z 0) with (Fin false (0 * W)). rewrite div_ints by assumption.
      eexists. split; [reflexivity|].
      rewrite (toSatoshis_unit UNITS _ fields _ Hdf Hden). cbn [ToNumber]. rewrite Hofd.
      change (round_ratio false 0 d) with (Fin false 0).
      change (en_US_decimal unit_format (Fin false 0)) with "0"%string.
      change (decimal_pattern "0") with true. cbv iota.
      change (StringToNumber "0") with (Fin false 0).
      unfold mul. cbn [xorb]. rewrite Z.mul_0_l.
      change (round_ratio false 0 (W * W)) with (Fin false 0).
      rewrite round_zero. reflexivity. }
    (* the amount is a whole Number [n], its quotient by [d] a Number [k],
       and the product of [k] and [d] rounds to [n] *)
    assert (exists n k, 0 < n /\ of_Z s = Fin false (n * W) /\
                        round_ratio false n d = Fin false k /\
                        round (mul (Fin false k) (Fin false (d * W))) = Fin false (n * W))
      as (n & k & Hn & Hofs & Hq & Hback).
    { destruct Hrange as [[-> Hfin]|(Hj & Hdj & Hs)].
      - unfold of_Z in Hfin |- *. destruct (Z.ltb_spec s 0); [lia|].
        rewrite Z.abs_eq in Hfin |- * by lia.
        destruct (round_ratio_cases false s 1) as [Hr|[k Hr]]; rewrite Hr in Hfin |- *;
          [discriminate|].
        destruct (whole_number false s k Hs0 Hr) as (n & Hn0 & -> & Hn & Hsame).
        exists n, (n * W). split; [lia|]. split; [reflexivity|]. split; [apply Hsame|].
        rewrite mul_ints, Z.mul_1_r. cbn [xorb]. rewrite Hsame. apply round_near; lia.
      - assert (s < 2 ^ 52) as Hs52 by lia.
        assert (2 ^ 52 < 2 ^ 53) as H5253 by reflexivity.
        pose proof (round_ratio_below false (2 ^ 53) s d ltac:(lia) ltac:(lia) Hd ltac:(nia))
          as Hhigh.
        assert (2 ^ 53 * W < OVERFLOW) as Hfin.
        { rewrite <- OVERFLOW_W.
          assert (2 ^ 53 < 2 ^ 1024) by (apply Z.pow_lt_mono_r; lia).
          revert H. generalize (2 ^ 1024) (2 ^ 53). intros A B HAB. clear - HAB HW. nia. }
        destruct (round_ratio_cases false s d) as [Hr|[k Hq]]; [rewrite Hr in Hhigh|];
          cbn [magnitude] in Hhigh; [lia|].
        exists s, k. split; [lia|]. split; [apply of_Z_nonneg; lia|]. split; [exact Hq|].
        destruct (Z.eq_dec (d * 2 ^ j) (2 ^ 52)) as [Heq|Hne].
        + apply (product_exact s d j k); try assumption; lia.
        + apply (product_rounds_back s d j k); try assumption; lia. }
    assert (isIntegral (of_Z s) = true) as Hint by (rewrite Hofs; apply isIntegral_int).
    rewrite (toAmount_unit host UNITS _ fields _ Hint Hdf Hden). cbn [ToNumber].
    rewrite Hofs, Hofd, div_ints, Hq by assumption.
    eexists. split; [reflexivity|].
    rewrite (toSatoshis_unit UNITS _ fields _ Hdf Hden). cbn [ToNumber]. rewrite Hofd.
    assert (round_ratio false (n * c) (10 ^ 8) = Fin false k) as Hq8
      by (rewrite <- Hdc, round_ratio_scale by assumption; exact Hq).
    destruct (rendering_reads_back k (n * c) ltac:(nia) Hq8) as [-> ->]. cbv iota.
    rewrite Hback. reflexivity.
  - intros Hs Hfin.
    unfold of_Z in Hfin |- *. destruct (Z.ltb_spec s 0); [|lia].
    rewrite Z.abs_neq in Hfin |- * by lia.
    destruct (round_ratio_cases true (- s) 1) as [Hr|[k Hr]]; rewrite Hr in Hfin |- *;
      [discriminate|].
    destruct (whole_number true (- s) k ltac:(lia) Hr) as (n & Hn0 & -> & Hn & Hsame).
    pose proof (isIntegral_int true n) as Hint.
    rewrite (toAmount_unit host UNITS _ fields _ Hint Hdf Hden). cbn [ToNumber].
    eexists. split; [reflexivity|].
    rewrite (toSatoshis_unit UNITS _ fields _ Hdf Hden).
    rewrite Hofd, div_ints by lia.
    rewrite signed_rendering_rejected; [reflexivity|].
    destruct (round_ratio_cases true n d) as [->|[k ->]]; eauto.
Qed.

(** A little under 33554432 BTC, the last amount before the bound,
    shown in BTC and read back. *)
Lemma unit_round_trip_witness :
  exists amount : string,
    toAmount dollar_host Sample.UNITS (Num (of_Z 3355443199999999)) (unit_settings "btc")
      Undefined = Ok amount /\
    toSatoshis Sample.UNITS (Str amount) (unit_settings "btc") =
      Ok (Num (of_Z 3355443199999999)).
Proof.
  refine (proj1 (unit_round_trip dollar_host Sample.UNITS
                   (list_to_map [("displayFiat", Bool false); ("unit", Str "btc")])
                   3355443199999999 (10 ^ 8) 25 _ _ _ _) _ _).
  - vm_compute. reflexivity.
  - vm_compute. reflexivity.
  - reflexivity.
  - exists 1. reflexivity.
  - lia.
  - right. split; [lia|]. split; vm_compute; [discriminate|reflexivity].
Defined.

(** C1, as stated, fails in four ways.  A negative amount:
    [toAmount(-1, ...)] is ["-0.00000001"] in BTC, and [toSatoshis] raises
    [InvalidInput] on it.  A large amount: 3355443200000019 satoshis are
    rendered as ["33554432.00000019"] BTC, which reads back as
    3355443200000020, the product with [10^8] being rounded to a half
    that [Math.round] takes upwards.  A coarse unit: with a unit of
    [10^9] satoshis, one satoshi is rendered as ["0"] and reads back as
    0.  A unit that 8 fraction digits do not divide evenly: with a unit
    of 99999999 satoshis, the quotient of 49999999 satoshis is the Number
    [0.499999995], which the number format rounds half up to ["0.5"] at 8
    fraction digits, and that reads back as 50000000. *)
Lemma round_trip_fails :
  (toAmount dollar_host Sample.UNITS (Num (of_Z (-1))) (unit_settings "btc") Undefined =
     Ok "-0.00000001" /\
   toSatoshis Sample.UNITS (Str "-0.00000001") (unit_settings "btc") = Throw InvalidInput) /\
  (toAmount dollar_host Sample.UNITS (Num (of_Z 3355443200000019)) (unit_settings "btc")
     Undefined = Ok "33554432.00000019" /\
   toSatoshis Sample.UNITS (Str "33554432.00000019") (unit_settings "btc") =
     Ok (Num (of_Z 3355443200000020))) /\
  (toAmount dollar_host other_UNITS (Num (of_Z 1)) (unit_settings "coarse") Undefined =
     Ok "0" /\
   toSatoshis other_UNITS (Str "0") (unit_settings "coarse") = Ok (Num (of_Z 0))) /\
  (NumberToString (div (of_Z 49999999) (of_Z 99999999)) = "0.499999995" /\
   toAmount dollar_host other_UNITS (Num (of_Z 49999999)) (unit_settings "odd") Undefined =
     Ok "0.5" /\
   toSatoshis other_UNITS (Str "0.5") (unit_settings "odd") = Ok (Num (of_Z 50000000))).
Proof. repeat split; vm_compute; reflexivity. Qed.

End RoundTripTheorems.
